(** * s3-multipart-uploader: a model of the resumable upload coordinator

    The development embeds [S3MultipartUploader] of
    [s3-multipart-uploader.py]: the part planner, the discovery of an
    upload in progress with its paginated part listing, the sanity check
    before a resume, the sequential transfer loop with its progress meter,
    the finalisation and [abort]; then [compute_md5] and the command line
    of [S3MultiPartCli].

    - Python integers are [Z]; [a / b] on integers is the correctly rounded
      binary64 quotient, taken from the IEEE 754 specification of the
      standard library ([SpecFloat.SFdiv] at precision 53).
    - The S3 client, the local file, the terminal and the clock are an
      [Environment]: a state machine whose replies the program cannot
      predict.  Every remote request is recorded in a trace together with
      the exception it raised, if any.
    - Methods are computations in a state-and-exception monad [M] over the
      [World]; [exit(n)] and [raise] are outcomes of their own.  The
      [while is_truncated] loop of the part listing takes fuel, one unit
      per turn.
    - Only ERROR and FATAL log lines are kept; INFO and DEBUG lines and the
      output of [print] carry no control flow.
    - [hashlib.md5] is any [Hasher]; the result of [parse_args] is a
      [Namespace] that holds the attributes of the sub-command that was
      called and no other; what [Path(args.file)] names is a [PathKind],
      names being compared character by character. *)

From Stdlib Require Import ZArith List String Bool Lia Permutation.
From Stdlib Require Import Sorting.Sorted Floats.SpecFloat.
From Stdlib Require Strings.Byte.
Import ListNotations.
Open Scope Z_scope.

Set Implicit Arguments.

(** ** S3 API limitations (module constants) *)

Definition MAX_ALLOWED_PART_COUNT_S3 : Z := 10000.
Definition MIN_REQUIRED_PART_SIZE_S3 : Z := 5 * 1024 * 1024.

(** ** Exceptions and outcomes *)

Inductive Exn : Type :=
| ClientError (msg : string)        (* botocore.exceptions.ClientError *)
| EnvError (cls : string)           (* any other exception class of a collaborator *)
| ZeroDivisionError
| OverflowError
| ValueError
| TypeError
| IndexError
| ReadSizeError (expected got : Z)  (* Exception("Did not read expected ... but ...") *)
| NotYetImplemented.                (* Exception("Not yet implemented") *)

Inductive Outcome (A : Type) : Type :=
| Ok (a : A)
| Raise (e : Exn)
| Exit (code : Z)
| OutOfFuel.

Arguments Ok {A} a.
Arguments Raise {A} e.
Arguments Exit {A} code.
Arguments OutOfFuel {A}.

(** ** Python numbers: true division and [math.ceil] *)

Module PyNum.

Definition prec : Z := 53.
Definition emax : Z := 1024.

(** An integer as an (unrounded) floating-point datum of exponent 0. *)
Definition Z2SF (a : Z) : spec_float :=
  match a with
  | Z0 => S754_zero false
  | Zpos p => S754_finite false p 0
  | Zneg p => S754_finite true p 0
  end.

(** [a / b] on two [int]s: the quotient rounded once to the nearest
    double, ties to even; [ZeroDivisionError] on a zero divisor and
    [OverflowError] when the quotient exceeds the double range. *)
Definition true_div (a b : Z) : Outcome spec_float :=
  if b =? 0 then Raise ZeroDivisionError
  else match SFdiv prec emax (Z2SF a) (Z2SF b) with
       | S754_infinity _ => Raise OverflowError
       | S754_nan => Raise ValueError
       | f => Ok f
       end.

(** [math.ceil] of a double, as an exact integer. *)
Definition math_ceil (f : spec_float) : Outcome Z :=
  match f with
  | S754_zero _ => Ok 0
  | S754_infinity _ => Raise OverflowError
  | S754_nan => Raise ValueError
  | S754_finite s m e =>
      let v := cond_Zopp s (Zpos m) in
      Ok (if 0 <=? e then v * 2 ^ e else - ((- v) / 2 ^ (- e)))
  end.

(** [math.ceil(a / b)] *)
Definition ceil_div (a b : Z) : Outcome Z :=
  match true_div a b with
  | Ok f => math_ceil f
  | Raise e => Raise e
  | Exit c => Exit c
  | OutOfFuel => OutOfFuel
  end.

(** The exact ceiling of the rational [a / b], for comparison. *)
Definition exact_ceil (a b : Z) : Z := - ((- a) / b).

End PyNum.

(** ** Data model *)

Record UploadedPart : Type := {
  number : Z;
  last_modified : string;
  size : Z;
  etag : string
}.

Record MultipartUploadInProgress : Type := {
  started_at : string;
  upload_id : string;
  initiator : string;
  parts : option (list UploadedPart)
}.

(** One entry of the ["Uploads"] list of a [list_multipart_uploads]
    response. *)
Record UploadEntry : Type := {
  u_Key : string;
  u_UploadId : string;
  u_Initiated : string;
  u_InitiatorID : string
}.

Record ListUploadsResponse : Type := {
  r_Uploads : option (list UploadEntry)
}.

Record ListPartsResponse : Type := {
  r_NextPartNumberMarker : option Z;
  r_IsTruncated : option bool;
  r_Parts : option (list UploadedPart)
}.

(** The uploader object once [__init__] has run. *)
Record Uploader : Type := {
  bucket : string;
  dest_key : string;
  part_size_in_bytes : Z;
  filesize : Z;
  part_count : Z;
  args_upload_id : string;
  args_all : bool;
  args_list : bool
}.

Record ProgressMeter : Type := {
  pm_limit : Z;
  pm_initial : Z;
  pm_current : Z
}.

(** ** Remote requests and the trace *)

Inductive Request : Type :=
| HeadObject (Bucket Key : string)
| ListMultipartUploads (Bucket : string)
| ListParts (Bucket Key UploadId : string) (MaxParts : Z) (PartNumberMarker : option Z)
| CreateMultipartUpload (Bucket Key : string) (Metadata : list (string * string))
| UploadPart (Bucket Key UploadId : string) (PartNumber ContentLength : Z)
             (Body : list Byte.byte)
| CompleteMultipartUpload (Bucket Key UploadId : string) (Parts : list (Z * string))
| AbortMultipartUpload (Bucket Key UploadId : string).

Record Event : Type := {
  ev_request : Request;
  ev_raised : option Exn
}.

Inductive LogMsg : Type :=
| FatalPartSizeTooSmall (part_size : Z)
| FatalPartCountExceeds (part_count : Z)
| ErrNoUploadForId (upload_id : string) (uploads_for_key : nat)
| ErrSeveralForId (num_matches : nat)
| ErrSeveralInProgress (num_matches : nat)
| ErrSizeMismatch
| ErrIncorrectPartNumber (number : Z)
| ErrIncorrectPartSize (number got expected : Z).

(** ** The environment *)

Inductive Reply (A : Type) : Type :=
| Returned (a : A)
| Raised (e : Exn).

Arguments Returned {A} a.
Arguments Raised {A} e.

Record Environment : Type := {
  env_state : Type;
  env_head_object : string -> string -> env_state -> Reply unit * env_state;
  env_list_multipart_uploads :
    string -> env_state -> Reply ListUploadsResponse * env_state;
  env_list_parts :
    string -> string -> string -> Z -> option Z -> env_state ->
    Reply ListPartsResponse * env_state;
  env_create_multipart_upload :
    string -> string -> list (string * string) -> env_state ->
    Reply string * env_state;
  env_upload_part :
    string -> string -> string -> Z -> Z -> list Byte.byte -> env_state ->
    Reply string * env_state;
  env_complete_multipart_upload :
    string -> string -> string -> list (Z * string) -> env_state ->
    Reply unit * env_state;
  env_abort_multipart_upload :
    string -> string -> string -> env_state -> Reply unit * env_state;
  (* [open("rb")]: the bytes of the local file when it is opened *)
  env_open_file : env_state -> Reply (list Byte.byte) * env_state;
  (* [input(prompt)] *)
  env_input : string -> env_state -> Reply string * env_state;
  (* whether more than [auto_status_secs] passed since the last update *)
  env_status_due : env_state -> bool * env_state
}.

(** ** The world and the monad of methods *)

Section Program.

Variable E : Environment.

Record World : Type := {
w_env : env_state E;
w_trace : list Event;
w_log : list LogMsg;
w_meter : ProgressMeter
}.

Definition M (A : Type) : Type := World -> Outcome A * World.

Definition ret {A} (a : A) : M A := fun w => (Ok a, w).

Definition bind {A B} (m : M A) (k : A -> M B) : M B :=
fun w =>
  match m w with
  | (Ok a, w') => k a w'
  | (Raise e, w') => (Raise e, w')
  | (Exit c, w') => (Exit c, w')
  | (OutOfFuel, w') => (OutOfFuel, w')
  end.

Definition raise {A} (e : Exn) : M A := fun w => (Raise e, w).
Definition exit {A} (code : Z) : M A := fun w => (Exit code, w).
Definition out_of_fuel {A} : M A := fun w => (OutOfFuel, w).

Definition lift {A} (o : Outcome A) : M A := fun w => (o, w).

Definition log_line (msg : LogMsg) (w : World) : World :=
{| w_env := w_env w; w_trace := w_trace w; w_log := w_log w ++ [msg];
   w_meter := w_meter w |}.

Definition LOG (msg : LogMsg) : M unit := fun w => (Ok tt, log_line msg w).

Definition set_env (e : env_state E) (w : World) : World :=
{| w_env := e; w_trace := w_trace w; w_log := w_log w; w_meter := w_meter w |}.

Definition record (ev : Event) (w : World) : World :=
{| w_env := w_env w; w_trace := w_trace w ++ [ev]; w_log := w_log w;
   w_meter := w_meter w |}.

Definition set_meter (pm : ProgressMeter) (w : World) : World :=
{| w_env := w_env w; w_trace := w_trace w; w_log := w_log w; w_meter := pm |}.

(** A call of the S3 client: the request enters the trace with the
  exception it raised, if any, and that exception is raised in the
  caller. *)
Definition s3_call {A} (req : Request)
  (handler : env_state E -> Reply A * env_state E) : M A :=
fun w =>
  match handler (w_env w) with
  | (Returned a, e') =>
      (Ok a, record {| ev_request := req; ev_raised := None |} (set_env e' w))
  | (Raised x, e') =>
      (Raise x, record {| ev_request := req; ev_raised := Some x |} (set_env e' w))
  end.

(** A call of a local collaborator (file, terminal): no trace entry. *)
Definition local_call {A} (handler : env_state E -> Reply A * env_state E) : M A :=
fun w =>
  match handler (w_env w) with
  | (Returned a, e') => (Ok a, set_env e' w)
  | (Raised x, e') => (Raise x, set_env e' w)
  end.

Definition status_due : M bool :=
fun w => let (b, e') := env_status_due E (w_env w) in (Ok b, set_env e' w).

Notation "x <- m ;; k" := (bind m (fun x => k))
(at level 61, m at next level, right associativity).
Notation "m ;;; k" := (bind m (fun _ => k))
(at level 61, right associativity).

(** [for x in xs: acc = body x acc] *)
Fixpoint for_each {A S} (xs : list A) (body : A -> S -> M S) (acc : S) : M S :=
match xs with
| [] => ret acc
| x :: rest => acc' <- body x acc ;; for_each rest body acc'
end.

(** [range(start, stop)] *)
Definition range (start stop : Z) : list Z :=
map (fun i => start + Z.of_nat i) (seq 0 (Z.to_nat (stop - start))).

Definition len {A} (l : list A) : Z := Z.of_nat (List.length l).

(** *** [ProgressMeter] *)

(** [log_status]: the percentage is [100 * current / limit]; the time
  estimate is guarded by [current - initial > 0] and cannot fail. *)
Definition log_status : M unit :=
fun w =>
  let pm := w_meter w in
  match PyNum.true_div (100 * pm_current pm) (pm_limit pm) with
  | Ok _ => (Ok tt, w)
  | Raise e => (Raise e, w)
  | Exit c => (Exit c, w)
  | OutOfFuel => (OutOfFuel, w)
  end.

Definition increment (by_ : Z) : M unit :=
fun w =>
  let pm := w_meter w in
  let pm' := {| pm_limit := pm_limit pm; pm_initial := pm_initial pm;
                pm_current := Z.min (pm_current pm + by_) (pm_limit pm) |} in
  (due <- status_due ;; if due then log_status else ret tt) (set_meter pm' w).

(** [with ProgressMeter(label, initial=.., limit=..) as progress: body]:
  [__exit__] calls [log_status] whatever the body did and returns [None],
  so that an exception of the body goes on unless [log_status] raises one
  of its own. *)
Definition with_ProgressMeter {A} (initial limit : Z) (body : M A) : M A :=
fun w =>
  let pm := {| pm_limit := limit; pm_initial := initial; pm_current := initial |} in
  match body (set_meter pm w) with
  | (OutOfFuel, w1) => (OutOfFuel, w1)
  | (out, w1) =>
      match log_status w1 with
      | (Ok _, w2) => (out, w2)
      | (Raise e, w2) => (Raise e, w2)
      | (Exit c, w2) => (Exit c, w2)
      | (OutOfFuel, w2) => (OutOfFuel, w2)
      end
  end.

(** *** [_determine_part_count] *)

(** [part_size] is the [--part-size] argument ([None] by default); the
  result is the pair of [self.part_size_in_bytes] and [self.part_count]. *)
Definition _determine_part_count (part_size : option Z) (filesize : Z) : M (Z * Z) :=
part_size_in_bytes <-
  match part_size with
  | Some ps =>
      if ps =? 0
      then c <- lift (PyNum.ceil_div filesize MAX_ALLOWED_PART_COUNT_S3) ;;
           ret (Z.max c MIN_REQUIRED_PART_SIZE_S3)
      else ret ps
  | None =>
      c <- lift (PyNum.ceil_div filesize MAX_ALLOWED_PART_COUNT_S3) ;;
      ret (Z.max c MIN_REQUIRED_PART_SIZE_S3)
  end ;;
part_count <- lift (PyNum.ceil_div filesize part_size_in_bytes) ;;
if part_size_in_bytes <? MIN_REQUIRED_PART_SIZE_S3
then LOG (FatalPartSizeTooSmall part_size_in_bytes) ;;; exit 1
else if MAX_ALLOWED_PART_COUNT_S3 <? part_count
then LOG (FatalPartCountExceeds part_count) ;;; exit 1
else ret (part_size_in_bytes, part_count).

(** [S3MultipartUploader.__init__]; [upload_id], [all] and [list_] are the
  fields of [args] that the methods read, and [st_size] is the size that
  [filepath_to_upload.stat()] reports. *)
Definition __init__ (bucket dest_key : string) (part_size : option Z)
  (upload_id : string) (all list_ : bool) (st_size : Z) : M Uploader :=
plan <- _determine_part_count part_size st_size ;;
ret {| bucket := bucket; dest_key := dest_key;
       part_size_in_bytes := fst plan; filesize := st_size;
       part_count := snd plan; args_upload_id := upload_id;
       args_all := all; args_list := list_ |}.

(** *** Discovery of an upload in progress *)

Definition truthy (s : string) : bool := negb (String.eqb s EmptyString).

Definition _load_parts (self : Uploader) (upload_id : string)
  (part_number_marker : option Z)
: M (list UploadedPart * bool * option Z) :=
parts_response <-
  s3_call (ListParts (bucket self) (dest_key self) upload_id 1000 part_number_marker)
    (env_list_parts E (bucket self) (dest_key self) upload_id 1000 part_number_marker) ;;
let next_part_number_marker := r_NextPartNumberMarker parts_response in
let is_truncated :=
  match r_IsTruncated parts_response with
  | Some b => b
  | None => false
  end in
let new_parts :=
  match r_Parts parts_response with
  | Some ps => ps
  | None => []
  end in
ret (new_parts, is_truncated, next_part_number_marker).

(** [while is_truncated: ... parts.extend(new_parts)]; every iteration
  takes one unit of [fuel]. *)
Fixpoint load_remaining_parts (fuel : nat) (self : Uploader) (upload_id : string)
  (is_truncated : bool) (next_part_number_marker : option Z)
  (parts : list UploadedPart) : M (list UploadedPart) :=
if is_truncated then
  match fuel with
  | O => out_of_fuel
  | S fuel' =>
      page <- _load_parts self upload_id next_part_number_marker ;;
      let '(new_parts, is_truncated', next') := page in
      load_remaining_parts fuel' self upload_id is_truncated' next'
        (parts ++ new_parts)
  end
else ret parts.

(** The accumulation of [check_existing_uploads]: [parts = []], the first
  page without a marker, then the loop. *)
Definition load_all_parts (fuel : nat) (self : Uploader) (upload_id : string)
: M (list UploadedPart) :=
page <- _load_parts self upload_id None ;;
let '(new_parts, is_truncated, next_part_number_marker) := page in
load_remaining_parts fuel self upload_id is_truncated next_part_number_marker
  ([] ++ new_parts).

(** The comprehension over [response.get("Uploads", [])]. *)
Definition uploads_matching_key (self : Uploader) (response : ListUploadsResponse)
: list MultipartUploadInProgress :=
map (fun upload =>
       {| started_at := u_Initiated upload; upload_id := u_UploadId upload;
          initiator := u_InitiatorID upload; parts := None |})
    (filter (fun upload => String.eqb (u_Key upload) (dest_key self))
            (match r_Uploads response with Some us => us | None => [] end)).

Definition check_existing_uploads (fuel : nat) (self : Uploader)
: M (option MultipartUploadInProgress) :=
response <- s3_call (ListMultipartUploads (bucket self))
              (env_list_multipart_uploads E (bucket self)) ;;
let matching := uploads_matching_key self response in
let uploads_for_key := List.length matching in
let upload_id_arg := args_upload_id self in
let matching :=
  if truthy upload_id_arg
  then filter (fun mpupload => String.eqb (upload_id mpupload) upload_id_arg) matching
  else matching in
let num_matches := List.length matching in
if Nat.eqb num_matches 0 then
  if truthy upload_id_arg
  then LOG (ErrNoUploadForId upload_id_arg uploads_for_key) ;;; exit 1
  else ret None
else if Nat.ltb 1 num_matches then
  (if truthy upload_id_arg
   then LOG (ErrSeveralForId num_matches)
   else LOG (ErrSeveralInProgress num_matches)) ;;;
  exit 1
else
  match matching with
  | [] => raise IndexError
  | match_ :: _ =>
      let upload_id_ := upload_id match_ in
      parts_ <- load_all_parts fuel self upload_id_ ;;
      ret (Some {| started_at := started_at match_; upload_id := upload_id match_;
                   initiator := initiator match_; parts := Some parts_ |})
  end.

(** *** Existence probe *)

(** [try: head_object(...); return True / except ClientError: return False] *)
Definition _is_existing_in_s3 (self : Uploader) : M bool :=
fun w =>
  match s3_call (HeadObject (bucket self) (dest_key self))
          (env_head_object E (bucket self) (dest_key self)) w with
  | (Ok _, w') => (Ok true, w')
  | (Raise (ClientError _), w') => (Ok false, w')
  | (Raise e, w') => (Raise e, w')
  | (Exit c, w') => (Exit c, w')
  | (OutOfFuel, w') => (OutOfFuel, w')
  end.

(** *** Session creation, transfer and finalisation *)

(** [self.compute_md5] is set to [False] by [__init__], so the metadata is
  the empty dict. *)
Definition _create_multipart_upload (self : Uploader) : M string :=
s3_call (CreateMultipartUpload (bucket self) (dest_key self) [])
  (env_create_multipart_upload E (bucket self) (dest_key self) []).

Definition sum_sizes (ps : list UploadedPart) : Z :=
fold_right Z.add 0 (map size ps).

Definition _finalize_upload (self : Uploader) (parts_ : list UploadedPart)
  (upload_id : string) : M unit :=
let total_bytes := sum_sizes parts_ in
(if negb (filesize self =? total_bytes) then LOG ErrSizeMismatch else ret tt) ;;;
let listed := map (fun part => (number part, etag part)) parts_ in
s3_call (CompleteMultipartUpload (bucket self) (dest_key self) upload_id listed)
  (env_complete_multipart_upload E (bucket self) (dest_key self) upload_id listed).

Definition start_offset (self : Uploader) (part_index : Z) : Z :=
Z.min (part_index * part_size_in_bytes self) (filesize self - 1).

Definition end_offset (self : Uploader) (part_index : Z) : Z :=
Z.min ((part_index + 1) * part_size_in_bytes self - 1) (filesize self - 1).

Definition this_part_size (self : Uploader) (part_index : Z) : Z :=
end_offset self part_index - start_offset self part_index + 1.

(** [file.seek(offset)] then [file.read(n)] on the opened bytes: a negative
  offset is refused by the operating system, a negative [n] reads to the
  end, and a read stops at the end of the file. *)
Definition read_at (content : list Byte.byte) (offset n : Z) : list Byte.byte :=
let tail := skipn (Z.to_nat offset) content in
if n <? 0 then tail else firstn (Z.to_nat n) tail.

Definition seek_read (content : list Byte.byte) (offset n : Z)
: M (list Byte.byte) :=
if offset <? 0 then raise (EnvError "OSError")
else ret (read_at content offset n).

(** The body of the loop of [_upload_parts]. *)
Definition upload_one_part (self : Uploader) (upload_id : string)
  (part_index : Z) (uploaded_parts : list UploadedPart)
: M (list UploadedPart) :=
let part_number := part_index + 1 in
content <- local_call (env_open_file E) ;;
data <- seek_read content (start_offset self part_index) (part_size_in_bytes self) ;;
if negb (len data =? this_part_size self part_index)
then raise (ReadSizeError (this_part_size self part_index) (len data))
else
  upload_response_ETag <-
    s3_call (UploadPart (bucket self) (dest_key self) upload_id part_number
               (this_part_size self part_index) data)
      (env_upload_part E (bucket self) (dest_key self) upload_id part_number
         (this_part_size self part_index) data) ;;
  increment 1 ;;;
  ret (uploaded_parts ++
         [{| number := part_number; last_modified := EmptyString;
             size := this_part_size self part_index;
             etag := upload_response_ETag |}]).

Definition _upload_parts (self : Uploader) (start_index : Z) (upload_id : string)
: M (list UploadedPart) :=
with_ProgressMeter start_index (part_count self)
  (for_each (range start_index (part_count self))
     (upload_one_part self upload_id) []).

(** *** Resuming *)

(** [sorted(upload.parts, key=lambda part: part.number)]: a stable sort. *)
Fixpoint insert_by_number (p : UploadedPart) (l : list UploadedPart)
: list UploadedPart :=
match l with
| [] => [p]
| q :: rest =>
    if number q <=? number p then q :: insert_by_number p rest
    else p :: l
end.

Definition sorted_by_number (l : list UploadedPart) : list UploadedPart :=
fold_left (fun acc p => insert_by_number p acc) l [].

(** The sanity check of [_continue_upload]:
  [for index, part in enumerate(existing_parts)]. *)
Fixpoint sanity_check (self : Uploader) (total : nat) (index : nat)
  (existing_parts : list UploadedPart) : M unit :=
match existing_parts with
| [] => ret tt
| part :: rest =>
    let expected_part_number := Z.of_nat index + 1 in
    if negb (number part =? expected_part_number)
    then LOG (ErrIncorrectPartNumber (number part)) ;;; exit 3
    else if negb (size part =? part_size_in_bytes self)
              && negb (Z.of_nat index =? Z.of_nat total - 1)
    then LOG (ErrIncorrectPartSize (number part) (size part)
                (part_size_in_bytes self)) ;;; exit 3
    else sanity_check self total (S index) rest
end.

Definition _continue_upload (self : Uploader) (upload : MultipartUploadInProgress)
: M unit :=
match parts upload with
| None => raise TypeError
| Some upload_parts =>
    let existing_parts := sorted_by_number upload_parts in
    sanity_check self (List.length existing_parts) 0 existing_parts ;;;
    let start_index := len existing_parts in
    let upload_id_ := upload_id upload in
    new_uploaded_parts <- _upload_parts self start_index upload_id_ ;;
    let all_parts := existing_parts ++ new_uploaded_parts in
    _finalize_upload self all_parts upload_id_
end.

(** *** [upload] *)

Definition input (prompt : string) : M string := local_call (env_input E prompt).

Definition upload (fuel : nat) (self : Uploader) : M unit :=
existing <- _is_existing_in_s3 self ;;
if existing then ret tt
else
  found <- check_existing_uploads fuel self ;;
  start_new <-
    match found with
    | Some upload_ =>
        answer <- input "Continue existing upload [yN]? " ;;
        if String.eqb answer "y"
        then _continue_upload self upload_ ;;; ret false
        else
          answer2 <- input "Delete existing multi-part upload [yN]? " ;;
          if String.eqb answer2 "y" then raise NotYetImplemented
          else
            answer3 <- input "Re-start multi-part upload from scratch [yN]? " ;;
            if negb (String.eqb answer3 "y") then ret false else ret true
    | None => ret true
    end ;;
  if start_new : bool then
    upload_id_ <- _create_multipart_upload self ;;
    uploaded_parts <- _upload_parts self 0 upload_id_ ;;
    _finalize_upload self uploaded_parts upload_id_
  else ret tt.

(** *** [abort] *)

(** The listing mode and the bulk mode list the uploads of the bucket and
  keep those of the destination key ([dest_key] is a string here, never
  [None]); the bulk mode then aborts each of them.  Without [--all] and
  [--list] the upload named by [--upload_id] is aborted unseen. *)
Definition abort (self : Uploader) : M unit :=
if args_all self || args_list self then
  response <- s3_call (ListMultipartUploads (bucket self))
                (env_list_multipart_uploads E (bucket self)) ;;
  let matching := uploads_matching_key self response in
  if args_all self then
    for_each matching
      (fun mpupload (_ : unit) =>
         s3_call (AbortMultipartUpload (bucket self) (dest_key self)
                    (upload_id mpupload))
           (env_abort_multipart_upload E (bucket self) (dest_key self)
              (upload_id mpupload)))
      tt
  else ret tt
else
  s3_call (AbortMultipartUpload (bucket self) (dest_key self) (args_upload_id self))
    (env_abort_multipart_upload E (bucket self) (dest_key self)
       (args_upload_id self)).

End Program.

Arguments World E : clear implicits.
Arguments out_of_fuel {E A}.
Arguments M E A : clear implicits.

(** ** A scripted environment

    A test double for concrete runs: every operation answers with the next
    reply of its own queue, and the last reply of a queue is repeated. *)

Module Scripted.

Record Script : Type := {
  s_head_object : list (Reply unit);
  s_list_multipart_uploads : list (Reply ListUploadsResponse);
  s_list_parts : list (Reply ListPartsResponse);
  s_create_multipart_upload : list (Reply string);
  s_upload_part : list (Reply string);
  s_complete_multipart_upload : list (Reply unit);
  s_abort_multipart_upload : list (Reply unit);
  s_open_file : list (Reply (list Byte.byte));
  s_input : list (Reply string);
  s_status_due : list bool
}.

Definition next {A} (default : A) (queue : list A) : A * list A :=
  match queue with
  | [] => (default, [])
  | [x] => (x, [x])
  | x :: rest => (x, rest)
  end.

Definition unscripted {A} : Reply A := Raised (EnvError "unscripted").

Definition set_head_object (q : list (Reply unit)) (s : Script) : Script :=
  {| s_head_object := q;
     s_list_multipart_uploads := s_list_multipart_uploads s;
     s_list_parts := s_list_parts s;
     s_create_multipart_upload := s_create_multipart_upload s;
     s_upload_part := s_upload_part s;
     s_complete_multipart_upload := s_complete_multipart_upload s;
     s_abort_multipart_upload := s_abort_multipart_upload s;
     s_open_file := s_open_file s;
     s_input := s_input s;
     s_status_due := s_status_due s |}.

Definition set_list_multipart_uploads (q : list (Reply ListUploadsResponse)) (s : Script) : Script :=
  {| s_head_object := s_head_object s;
     s_list_multipart_uploads := q;
     s_list_parts := s_list_parts s;
     s_create_multipart_upload := s_create_multipart_upload s;
     s_upload_part := s_upload_part s;
     s_complete_multipart_upload := s_complete_multipart_upload s;
     s_abort_multipart_upload := s_abort_multipart_upload s;
     s_open_file := s_open_file s;
     s_input := s_input s;
     s_status_due := s_status_due s |}.

Definition set_list_parts (q : list (Reply ListPartsResponse)) (s : Script) : Script :=
  {| s_head_object := s_head_object s;
     s_list_multipart_uploads := s_list_multipart_uploads s;
     s_list_parts := q;
     s_create_multipart_upload := s_create_multipart_upload s;
     s_upload_part := s_upload_part s;
     s_complete_multipart_upload := s_complete_multipart_upload s;
     s_abort_multipart_upload := s_abort_multipart_upload s;
     s_open_file := s_open_file s;
     s_input := s_input s;
     s_status_due := s_status_due s |}.

Definition set_create_multipart_upload (q : list (Reply string)) (s : Script) : Script :=
  {| s_head_object := s_head_object s;
     s_list_multipart_uploads := s_list_multipart_uploads s;
     s_list_parts := s_list_parts s;
     s_create_multipart_upload := q;
     s_upload_part := s_upload_part s;
     s_complete_multipart_upload := s_complete_multipart_upload s;
     s_abort_multipart_upload := s_abort_multipart_upload s;
     s_open_file := s_open_file s;
     s_input := s_input s;
     s_status_due := s_status_due s |}.

Definition set_upload_part (q : list (Reply string)) (s : Script) : Script :=
  {| s_head_object := s_head_object s;
     s_list_multipart_uploads := s_list_multipart_uploads s;
     s_list_parts := s_list_parts s;
     s_create_multipart_upload := s_create_multipart_upload s;
     s_upload_part := q;
     s_complete_multipart_upload := s_complete_multipart_upload s;
     s_abort_multipart_upload := s_abort_multipart_upload s;
     s_open_file := s_open_file s;
     s_input := s_input s;
     s_status_due := s_status_due s |}.

Definition set_complete_multipart_upload (q : list (Reply unit)) (s : Script) : Script :=
  {| s_head_object := s_head_object s;
     s_list_multipart_uploads := s_list_multipart_uploads s;
     s_list_parts := s_list_parts s;
     s_create_multipart_upload := s_create_multipart_upload s;
     s_upload_part := s_upload_part s;
     s_complete_multipart_upload := q;
     s_abort_multipart_upload := s_abort_multipart_upload s;
     s_open_file := s_open_file s;
     s_input := s_input s;
     s_status_due := s_status_due s |}.

Definition set_abort_multipart_upload (q : list (Reply unit)) (s : Script) : Script :=
  {| s_head_object := s_head_object s;
     s_list_multipart_uploads := s_list_multipart_uploads s;
     s_list_parts := s_list_parts s;
     s_create_multipart_upload := s_create_multipart_upload s;
     s_upload_part := s_upload_part s;
     s_complete_multipart_upload := s_complete_multipart_upload s;
     s_abort_multipart_upload := q;
     s_open_file := s_open_file s;
     s_input := s_input s;
     s_status_due := s_status_due s |}.

Definition set_open_file (q : list (Reply (list Byte.byte))) (s : Script) : Script :=
  {| s_head_object := s_head_object s;
     s_list_multipart_uploads := s_list_multipart_uploads s;
     s_list_parts := s_list_parts s;
     s_create_multipart_upload := s_create_multipart_upload s;
     s_upload_part := s_upload_part s;
     s_complete_multipart_upload := s_complete_multipart_upload s;
     s_abort_multipart_upload := s_abort_multipart_upload s;
     s_open_file := q;
     s_input := s_input s;
     s_status_due := s_status_due s |}.

Definition set_input (q : list (Reply string)) (s : Script) : Script :=
  {| s_head_object := s_head_object s;
     s_list_multipart_uploads := s_list_multipart_uploads s;
     s_list_parts := s_list_parts s;
     s_create_multipart_upload := s_create_multipart_upload s;
     s_upload_part := s_upload_part s;
     s_complete_multipart_upload := s_complete_multipart_upload s;
     s_abort_multipart_upload := s_abort_multipart_upload s;
     s_open_file := s_open_file s;
     s_input := q;
     s_status_due := s_status_due s |}.

Definition set_status_due (q : list bool) (s : Script) : Script :=
  {| s_head_object := s_head_object s;
     s_list_multipart_uploads := s_list_multipart_uploads s;
     s_list_parts := s_list_parts s;
     s_create_multipart_upload := s_create_multipart_upload s;
     s_upload_part := s_upload_part s;
     s_complete_multipart_upload := s_complete_multipart_upload s;
     s_abort_multipart_upload := s_abort_multipart_upload s;
     s_open_file := s_open_file s;
     s_input := s_input s;
     s_status_due := q |}.

Definition env : Environment := {|
  env_state := Script;
  env_head_object := fun _ _ s =>
    let (r, q) := next unscripted (s_head_object s) in (r, set_head_object q s);
  env_list_multipart_uploads := fun _ s =>
    let (r, q) := next unscripted (s_list_multipart_uploads s) in (r, set_list_multipart_uploads q s);
  env_list_parts := fun _ _ _ _ _ s =>
    let (r, q) := next unscripted (s_list_parts s) in (r, set_list_parts q s);
  env_create_multipart_upload := fun _ _ _ s =>
    let (r, q) := next unscripted (s_create_multipart_upload s) in (r, set_create_multipart_upload q s);
  env_upload_part := fun _ _ _ _ _ _ s =>
    let (r, q) := next unscripted (s_upload_part s) in (r, set_upload_part q s);
  env_complete_multipart_upload := fun _ _ _ _ s =>
    let (r, q) := next unscripted (s_complete_multipart_upload s) in (r, set_complete_multipart_upload q s);
  env_abort_multipart_upload := fun _ _ _ s =>
    let (r, q) := next unscripted (s_abort_multipart_upload s) in (r, set_abort_multipart_upload q s);
  env_open_file := fun s =>
    let (r, q) := next unscripted (s_open_file s) in (r, set_open_file q s);
  env_input := fun _ s =>
    let (r, q) := next unscripted (s_input s) in (r, set_input q s);
  env_status_due := fun s =>
    let (r, q) := next false (s_status_due s) in (r, set_status_due q s)
|}.

(** The world a run starts in. *)
Definition world (s : Script) : World env :=
  {| w_env := s : env_state env; w_trace := []; w_log := [];
     w_meter := {| pm_limit := 0; pm_initial := 0; pm_current := 0 |} |}.

Definition not_found : Reply unit := Raised (ClientError "404").

Definition part (n sz : Z) (tag : string) : UploadedPart :=
  {| number := n; last_modified := "t"; size := sz; etag := tag |}.

End Scripted.

(** ** Events, requests and what they list *)

(** The record that the comprehension of [check_existing_uploads] builds
    from one listed upload. *)
Definition in_progress (upload : UploadEntry) : MultipartUploadInProgress :=
  {| started_at := u_Initiated upload; upload_id := u_UploadId upload;
     initiator := u_InitiatorID upload; parts := None |}.

(** What [_load_parts] makes of a [list_parts] response. *)
Definition page_of (response : ListPartsResponse)
  : list UploadedPart * bool * option Z :=
  (match r_Parts response with Some ps => ps | None => [] end,
   match r_IsTruncated response with Some b => b | None => false end,
   r_NextPartNumberMarker response).

(** No event of the list is an error. *)
Definition quiet (evs : list Event) : Prop :=
  Forall (fun ev => ev_raised ev = None) evs.

(** Every error among the events is the last event and is the exception
    that the run raises. *)
Inductive fatal_errors {A} : list Event -> Outcome A -> Prop :=
| fatal_none evs out : quiet evs -> fatal_errors evs out
| fatal_last pre ev e :
    quiet pre -> ev_raised ev = Some e -> fatal_errors (pre ++ [ev]) (Raise e).

Arguments fatal_none {A} evs out _.
Arguments fatal_last {A} pre ev e _ _.

(** The part number of an [UploadPart] request. *)
Definition part_number_sent (ev : Event) : option Z :=
  match ev_request ev with
  | UploadPart _ _ _ n _ _ => Some n
  | _ => None
  end.

(** The part numbers that a [CompleteMultipartUpload] request lists. *)
Definition parts_listed (ev : Event) : option (list Z) :=
  match ev_request ev with
  | CompleteMultipartUpload _ _ _ listed => Some (map fst listed)
  | _ => None
  end.

(** The part numbers of the [UploadPart] requests among the events, in
    order. *)
Definition sent_numbers (evs : list Event) : list Z :=
  flat_map (fun ev => match part_number_sent ev with
                      | Some n => [n]
                      | None => []
                      end) evs.

(** The part lists of the [CompleteMultipartUpload] requests among the
    events. *)
Definition completions (evs : list Event) : list (list Z) :=
  flat_map (fun ev => match parts_listed ev with
                      | Some l => [l]
                      | None => []
                      end) evs.

(** The numbers [1..n]. *)
Definition one_to (n : nat) : list Z := map Z.of_nat (seq 1 n).

(** The event is a [ListParts] request. *)
Definition is_ListParts (ev : Event) : Prop :=
  match ev_request ev with
  | ListParts _ _ _ _ _ => True
  | _ => False
  end.

(** The event is a listing request. *)
Definition is_listing (ev : Event) : Prop :=
  match ev_request ev with
  | ListMultipartUploads _ | ListParts _ _ _ _ _ => True
  | _ => False
  end.

(** Every completion request among the events lists the part numbers
    [1..n], in this order. *)
Definition well_listed (evs : list Event) : Prop :=
  Forall (fun l => l = one_to (List.length l)) (completions evs).

(** The record that [_upload_parts] appends for a part. *)
Definition acknowledged (self : Uploader) (part_index : Z) (tag : string)
  : UploadedPart :=
  {| number := part_index + 1; last_modified := EmptyString;
     size := this_part_size self part_index; etag := tag |}.

(** The event of sending the part of index [part_index]. *)
Definition sending (self : Uploader) (upload_id : string) (part_index : Z)
    (body : list Byte.byte) (err : option Exn) : Event :=
  {| ev_request := UploadPart (bucket self) (dest_key self) upload_id
                     (part_index + 1) (this_part_size self part_index) body;
     ev_raised := err |}.

(** The finalize request for [parts_]. *)
Definition completing (self : Uploader) (upload_id : string)
    (parts_ : list UploadedPart) (err : option Exn) : Event :=
  {| ev_request := CompleteMultipartUpload (bucket self) (dest_key self) upload_id
                     (map (fun part => (number part, etag part)) parts_);
     ev_raised := err |}.

(** The event of the existence probe. *)
Definition probing (self : Uploader) (err : option Exn) : Event :=
  {| ev_request := HeadObject (bucket self) (dest_key self); ev_raised := err |}.

(** The exceptions that [except botocore.exceptions.ClientError] catches. *)
Definition is_ClientError (x : Exn) : bool :=
  match x with ClientError _ => true | _ => false end.

(** The outcome of a call, from the reply. *)
Definition outcome_of_reply {A} (r : Reply A) : Outcome A :=
  match r with Returned a => Ok a | Raised x => Raise x end.

(** The error that the trace records for a reply. *)
Definition error_of_reply {A} (r : Reply A) : option Exn :=
  match r with Returned _ => None | Raised x => Some x end.

(** The log after the size comparison of [_finalize_upload]. *)
Definition log_after_size_check (self : Uploader) (parts_ : list UploadedPart)
    (log : list LogMsg) : list LogMsg :=
  if filesize self =? sum_sizes parts_ then log else log ++ [ErrSizeMismatch].

(** The progress meter of a loop that has started: the limit is positive
    and the count lies between 0 and the limit. *)
Definition meter_ok (pm : ProgressMeter) : Prop :=
  0 < pm_limit pm /\ 0 <= pm_current pm <= pm_limit pm.

(** The meter that [_upload_parts] creates. *)
Definition fresh_meter (self : Uploader) (start_index : Z) : ProgressMeter :=
  {| pm_limit := part_count self; pm_initial := start_index;
     pm_current := start_index |}.

(** A double that is a number: a zero or a finite value. *)
Definition is_finite_or_zero (f : spec_float) : Prop :=
  match f with
  | S754_zero _ | S754_finite _ _ _ => True
  | _ => False
  end.

(** [math.ceil] of the double [m * 2^e], [m] positive. *)
Definition ceil_of (m e : Z) : Z :=
  if 0 <=? e then m * 2 ^ e else - ((- m) / 2 ^ (- e)).

(** ** The specification's reading of the operations *)

(** SessionResolver, steps 1 and 2: the sessions of the bucket whose key
    is the destination key and, when an explicit session id was given,
    whose id is that id. *)
Definition matching_sessions (dest_key explicit_id : string)
    (sessions : list UploadEntry) : list UploadEntry :=
  filter (fun s => String.eqb (u_Key s) dest_key
                   && (if truthy explicit_id
                       then String.eqb (u_UploadId s) explicit_id
                       else true))
         sessions.

(** The sessions of a listing, none when the response has no ["Uploads"]. *)
Definition listed_sessions (response : ListUploadsResponse) : list UploadEntry :=
  match r_Uploads response with Some us => us | None => [] end.

(** The ChunkPlan invariant of the specification: the chunk size is at
    least the minimum, the chunk count at most the maximum, and the count
    is the ceiling of file size over chunk size. *)
Definition valid_plan (file_size chunk_size chunk_count : Z) : Prop :=
  MIN_REQUIRED_PART_SIZE_S3 <= chunk_size
  /\ chunk_count <= MAX_ALLOWED_PART_COUNT_S3
  /\ chunk_count = PyNum.exact_ceil file_size chunk_size.

(** TransferEngine: the byte range of the chunk of 0-based index [index],
    [start = index*chunk_size], [end = min((index+1)*chunk_size, file_size) - 1]. *)
Definition spec_start (chunk_size index : Z) : Z := index * chunk_size.

Definition spec_end (file_size chunk_size index : Z) : Z :=
  Z.min ((index + 1) * chunk_size) file_size - 1.

(** The sum of the sizes of the chunks. *)
Definition total_size (sizes : list Z) : Z := fold_right Z.add 0 sizes.

(** ConsistencyValidator, in the words of the specification: in the
    sequence sorted by number the chunk of 0-based index [i] has number
    [i+1], and every chunk except the last of the sequence has size
    exactly [chunk_size]. *)
Definition accepted_prefix (chunk_size : Z) (chunks : list UploadedPart) : Prop :=
  map number chunks = one_to (List.length chunks)
  /\ Forall (fun c => size c = chunk_size) (removelast chunks).

(** The same from the 0-based index [index] on. *)
Definition accepted_from (chunk_size : Z) (index : nat) (chunks : list UploadedPart)
  : Prop :=
  map number chunks = map Z.of_nat (seq (S index) (List.length chunks))
  /\ Forall (fun c => size c = chunk_size) (removelast chunks).

(** The order of the sort. *)
Definition number_le (p q : UploadedPart) : Prop := number p <= number q.

(** The two errors of the sanity check (the specification's
    [ConsistencyError]). *)
Definition is_consistency_error (msg : LogMsg) : Prop :=
  match msg with
  | ErrIncorrectPartNumber _ | ErrIncorrectPartSize _ _ _ => True
  | _ => False
  end.

(** SessionResolver, step 5: from the state [e] the service answers the
    part listing of session [id] with the pages [pages], one per request,
    the first request carrying the marker [marker] and each later one the
    marker that the previous page named; every page but the last carries
    the truncation flag. *)
Inductive serves_pages (E : Environment) (self : Uploader) (id : string)
  : option Z -> env_state E -> list (list UploadedPart) -> env_state E -> Prop :=
| serves_last marker e response e' :
    env_list_parts E (bucket self) (dest_key self) id 1000 marker e
      = (Returned response, e') ->
    snd (fst (page_of response)) = false ->
    serves_pages E self id marker e [fst (fst (page_of response))] e'
| serves_more marker e response e1 pages e' :
    env_list_parts E (bucket self) (dest_key self) id 1000 marker e
      = (Returned response, e1) ->
    snd (fst (page_of response)) = true ->
    serves_pages E self id (snd (page_of response)) e1 pages e' ->
    serves_pages E self id marker e (fst (fst (page_of response)) :: pages) e'.

Arguments serves_last {E self id} marker e response e' _ _.
Arguments serves_more {E self id} marker e response e1 pages e' _ _ _.

(** The specification's claim on errors, for the events and the outcome of
    one run: every error of a remote request is the last event of the run
    and is the exception with which the run ends. *)
Definition every_error_propagates {A} (evs : list Event) (out : Outcome A) : Prop :=
  forall pre ev post x,
    evs = pre ++ ev :: post -> ev_raised ev = Some x -> post = [] /\ out = Raise x.

(** ** Specifications of runs

    [sat m w Q]: the run of [m] from [w] only appends events to the trace,
    and its outcome, final world and appended events satisfy [Q]. *)

Section RunSpec.

Variable E : Environment.

(** A postcondition: on the outcome, the final world and the events added. *)
Definition post (A : Type) : Type := Outcome A -> World E -> list Event -> Prop.

Definition sat {A} (m : M E A) (w : World E) (Q : post A) : Prop :=
  exists evs, w_trace (snd (m w)) = w_trace w ++ evs
              /\ Q (fst (m w)) (snd (m w)) evs.

(** The continuation of a postcondition after the events [evs1]. *)
Definition after {A} (evs1 : list Event) (Q : post A) : post A :=
  fun out w evs2 => Q out w (evs1 ++ evs2).

(** An outcome that is not a value, at another type. *)
Definition stopped {A B} (out : Outcome A) : Outcome B :=
  match out with
  | Ok _ => OutOfFuel
  | Raise e => Raise e
  | Exit c => Exit c
  | OutOfFuel => OutOfFuel
  end.

(** The run ended with a value. *)
Definition is_Ok {A} (out : Outcome A) : bool :=
  match out with Ok _ => true | _ => false end.

End RunSpec.

(** ** Postconditions of the methods *)

(** What one turn of the transfer loop, for the part of index [i], leaves
    behind. *)
Definition part_step_post (E : Environment) (self : Uploader) (upload_id : string)
    (i : Z) (acc : list UploadedPart) (w : World E) : post E (list UploadedPart) :=
  fun out w' evs =>
    fatal_errors evs out
    /\ w_log w' = w_log w
    /\ pm_limit (w_meter w') = pm_limit (w_meter w)
    /\ (meter_ok (w_meter w) -> meter_ok (w_meter w'))
    /\ ((evs = [] /\ is_Ok out = false)
        \/ exists err body,
             evs = [sending self upload_id i body err]
             /\ forall acc', out = Ok acc' ->
                  err = None /\ exists tag, acc' = acc ++ [acknowledged self i tag]).

(** What the transfer loop over the indexes [idxs] leaves behind: the
    parts of a prefix [sent] of the indexes were sent, in order, and a
    normal end means that all of them were. *)
Definition loop_post (E : Environment) (self : Uploader) (upload_id : string)
    (idxs : list Z) (acc : list UploadedPart) (w : World E)
  : post E (list UploadedPart) :=
  fun out w' evs =>
    fatal_errors evs out
    /\ w_log w' = w_log w
    /\ pm_limit (w_meter w') = pm_limit (w_meter w)
    /\ (meter_ok (w_meter w) -> meter_ok (w_meter w'))
    /\ exists sent rest,
         idxs = sent ++ rest
         /\ map part_number_sent evs = map (fun i => Some (i + 1)) sent
         /\ forall acc', out = Ok acc' ->
              rest = []
              /\ map number acc' = map number acc ++ map (fun i => i + 1) idxs
              /\ map size acc' = map size acc ++ map (this_part_size self) idxs.

(** What [_upload_parts] from [start_index] leaves behind. *)
Definition upload_parts_post (E : Environment) (self : Uploader)
    (start_index : Z) (w : World E) : post E (list UploadedPart) :=
  fun out w' evs =>
    (0 <= start_index -> fatal_errors evs out)
    /\ w_log w' = w_log w
    /\ exists k,
         0 <= k /\ (k = 0 \/ start_index + k <= part_count self)
         /\ map part_number_sent evs =
              map Some (range (start_index + 1) (start_index + 1 + k))
         /\ forall acc', out = Ok acc' ->
              map number acc' = range (start_index + 1) (part_count self + 1)
              /\ map size acc' =
                   map (this_part_size self) (range start_index (part_count self)).

(** What a resume after [n] accepted parts leaves behind: the parts sent
    are numbered [n+1, n+2, ...]. *)
Definition resume_post (E : Environment) (n : nat) : post E unit :=
  fun out _ evs =>
    fatal_errors evs out
    /\ well_listed evs
    /\ exists k, 0 <= k
                 /\ sent_numbers evs = range (Z.of_nat n + 1) (Z.of_nat n + 1 + k).

Arguments resume_post E n _ _ _ : clear implicits.

(** What [_is_existing_in_s3] leaves behind. *)
Definition probe_post (E : Environment) (self : Uploader) : post E bool :=
  fun out _ evs =>
    exists err,
      evs = [probing self err]
      /\ match err with
         | None => out = Ok true
         | Some x => if is_ClientError x then out = Ok false else out = Raise x
         end.

Arguments probe_post E self _ _ _ : clear implicits.

(** What [upload] leaves behind: the probe comes first; an error of the
    probe other than a [ClientError], and any error of a later request, is
    the last event and the exception of the run. *)
Definition upload_post (E : Environment) (self : Uploader) : post E unit :=
  fun out _ evs =>
    well_listed evs
    /\ exists err rest,
         evs = probing self err :: rest
         /\ match err with
            | None => rest = [] /\ out = Ok tt
            | Some x =>
                if is_ClientError x then fatal_errors rest out
                else rest = [] /\ out = Raise x
            end.

Arguments upload_post E self _ _ _ : clear implicits.

(** ** Concrete inputs *)

Definition small_uploader : Uploader :=
  {| bucket := "b"; dest_key := "k"; part_size_in_bytes := 4; filesize := 10;
     part_count := 3; args_upload_id := ""; args_all := false; args_list := false |}.

Definition four_part_uploader : Uploader :=
  {| bucket := "b"; dest_key := "k"; part_size_in_bytes := 4; filesize := 14;
     part_count := 4; args_upload_id := ""; args_all := false; args_list := false |}.

(** A 12 000 000 byte file with the automatic plan of three 5 MiB parts. *)
Definition scenario_A_uploader : Uploader :=
  {| bucket := "b"; dest_key := "k"; part_size_in_bytes := 5242880;
     filesize := 12000000; part_count := 3; args_upload_id := "";
     args_all := false; args_list := false |}.

Definition empty_file_uploader : Uploader :=
  {| bucket := "b"; dest_key := "k"; part_size_in_bytes := 5242880; filesize := 0;
     part_count := 0; args_upload_id := ""; args_all := false; args_list := false |}.

(** A file of [10000 * 2^40 + 1] bytes. *)
Definition huge_file_size : Z := 10995116277760001.

(** Scenario B: the accepted parts are numbered 1, 2 and 4. *)
Definition MiB5 : Z := 5242880.

(** A run on a 10-byte file in parts of 4 bytes in which the probe raises
    a [ClientError] that is not a 404 and every later call succeeds. *)
Definition ten_bytes : list Byte.byte := repeat Byte.x61 10.

(** Scenario C in small: three accepted parts of a four-part plan (a file
    of 14 bytes in parts of 4). *)
Definition fourteen_bytes : list Byte.byte := repeat Byte.x61 14.

Definition existing_object_script : Scripted.Script :=
  {| Scripted.s_head_object := [Returned tt];
     Scripted.s_list_multipart_uploads := [];
     Scripted.s_list_parts := [];
     Scripted.s_create_multipart_upload := [];
     Scripted.s_upload_part := [];
     Scripted.s_complete_multipart_upload := [];
     Scripted.s_abort_multipart_upload := [];
     Scripted.s_open_file := [];
     Scripted.s_input := [];
     Scripted.s_status_due := [] |}.

Definition session (key id : string) : UploadEntry :=
  {| u_Key := key; u_UploadId := id; u_Initiated := "2024-01-01";
     u_InitiatorID := "me" |}.

Definition two_sessions_response : ListUploadsResponse :=
  {| r_Uploads := Some [session "k" "id1"; session "other" "id2"; session "k" "id3"] |}.

Definition two_sessions_script : Scripted.Script :=
  {| Scripted.s_head_object := [Scripted.not_found];
     Scripted.s_list_multipart_uploads := [Returned two_sessions_response];
     Scripted.s_list_parts := [];
     Scripted.s_create_multipart_upload := [];
     Scripted.s_upload_part := [];
     Scripted.s_complete_multipart_upload := [];
     Scripted.s_abort_multipart_upload := [];
     Scripted.s_open_file := [];
     Scripted.s_input := [];
     Scripted.s_status_due := [] |}.

(** A listing of five parts in three pages, and the same in one page. *)
Definition five_parts : list UploadedPart :=
  [Scripted.part 1 4 "e1"; Scripted.part 2 4 "e2"; Scripted.part 3 4 "e3";
   Scripted.part 4 4 "e4"; Scripted.part 5 2 "e5"].

Definition page_response (ps : list UploadedPart) (truncated : bool) (next : Z)
  : ListPartsResponse :=
  {| r_NextPartNumberMarker := Some next; r_IsTruncated := Some truncated;
     r_Parts := Some ps |}.

Definition listing_script (pages : list (Reply ListPartsResponse)) : Scripted.Script :=
  {| Scripted.s_head_object := [Scripted.not_found];
     Scripted.s_list_multipart_uploads := [];
     Scripted.s_list_parts := pages;
     Scripted.s_create_multipart_upload := [];
     Scripted.s_upload_part := [];
     Scripted.s_complete_multipart_upload := [];
     Scripted.s_abort_multipart_upload := [];
     Scripted.s_open_file := [];
     Scripted.s_input := [];
     Scripted.s_status_due := [] |}.

Definition three_pages : list (Reply ListPartsResponse) :=
  [Returned (page_response (firstn 2 five_parts) true 2);
   Returned (page_response (firstn 2 (skipn 2 five_parts)) true 4);
   Returned (page_response (skipn 4 five_parts) false 5)].

Definition one_page : list (Reply ListPartsResponse) :=
  [Returned (page_response five_parts false 5)].

Definition throttled_probe_script : Scripted.Script :=
  {| Scripted.s_head_object := [Raised (ClientError "503 SlowDown")];
     Scripted.s_list_multipart_uploads := [Returned {| r_Uploads := None |}];
     Scripted.s_list_parts := [];
     Scripted.s_create_multipart_upload := [Returned "id1"%string];
     Scripted.s_upload_part := [Returned "e1"%string; Returned "e2"%string; Returned "e3"%string];
     Scripted.s_complete_multipart_upload := [Returned tt];
     Scripted.s_abort_multipart_upload := [];
     Scripted.s_open_file := [Returned ten_bytes];
     Scripted.s_input := [];
     Scripted.s_status_due := [true] |}.

(** The same file with a connection failure while the second part is
    sent. *)
Definition broken_connection_script : Scripted.Script :=
  {| Scripted.s_head_object := [Scripted.not_found];
     Scripted.s_list_multipart_uploads := [Returned {| r_Uploads := None |}];
     Scripted.s_list_parts := [];
     Scripted.s_create_multipart_upload := [Returned "id1"%string];
     Scripted.s_upload_part :=
       [Returned "e1"%string; Raised (EnvError "EndpointConnectionError")];
     Scripted.s_complete_multipart_upload := [Returned tt];
     Scripted.s_abort_multipart_upload := [];
     Scripted.s_open_file := [Returned ten_bytes];
     Scripted.s_input := [];
     Scripted.s_status_due := [true] |}.

(** Scenario D: the parts sum to 11 999 999 bytes, the file has
    12 000 000. *)
Definition scenario_D_parts : list UploadedPart :=
  [Scripted.part 1 5242880 "e1"; Scripted.part 2 5242880 "e2";
   Scripted.part 3 1514239 "e3"].

Definition scenario_D_script : Scripted.Script :=
  {| Scripted.s_head_object := [];
     Scripted.s_list_multipart_uploads := [];
     Scripted.s_list_parts := [];
     Scripted.s_create_multipart_upload := [];
     Scripted.s_upload_part := [];
     Scripted.s_complete_multipart_upload := [Returned tt];
     Scripted.s_abort_multipart_upload := [];
     Scripted.s_open_file := [];
     Scripted.s_input := [];
     Scripted.s_status_due := [] |}.

Definition scenario_B_upload : MultipartUploadInProgress :=
  {| started_at := "2024-01-01"; upload_id := "id1"; initiator := "me";
     parts := Some [Scripted.part 4 MiB5 "e4"; Scripted.part 1 MiB5 "e1";
                    Scripted.part 2 MiB5 "e2"] |}.

Definition scenario_C_upload : MultipartUploadInProgress :=
  {| started_at := "2024-01-01"; upload_id := "id1"; initiator := "me";
     parts := Some [Scripted.part 2 4 "e2"; Scripted.part 1 4 "e1";
                    Scripted.part 3 4 "e3"] |}.

Definition scenario_C_script : Scripted.Script :=
  {| Scripted.s_head_object := [];
     Scripted.s_list_multipart_uploads := [];
     Scripted.s_list_parts := [];
     Scripted.s_create_multipart_upload := [];
     Scripted.s_upload_part := [Returned "e4"%string];
     Scripted.s_complete_multipart_upload := [Returned tt];
     Scripted.s_abort_multipart_upload := [];
     Scripted.s_open_file := [Returned fourteen_bytes];
     Scripted.s_input := [];
     Scripted.s_status_due := [false] |}.

(** The 10-byte file is cut to 6 bytes after the first part was read. *)
Definition shrinking_file_script : Scripted.Script :=
  {| Scripted.s_head_object := [];
     Scripted.s_list_multipart_uploads := [];
     Scripted.s_list_parts := [];
     Scripted.s_create_multipart_upload := [];
     Scripted.s_upload_part := [Returned "e1"%string; Returned "e2"%string];
     Scripted.s_complete_multipart_upload := [Returned tt];
     Scripted.s_abort_multipart_upload := [];
     Scripted.s_open_file := [Returned ten_bytes; Returned (firstn 6 ten_bytes)];
     Scripted.s_input := [];
     Scripted.s_status_due := [false] |}.

(** An empty file that is neither in the bucket nor being uploaded. *)
Definition empty_file_script : Scripted.Script :=
  {| Scripted.s_head_object := [Scripted.not_found];
     Scripted.s_list_multipart_uploads := [Returned {| r_Uploads := None |}];
     Scripted.s_list_parts := [];
     Scripted.s_create_multipart_upload := [Returned "id1"%string];
     Scripted.s_upload_part := [];
     Scripted.s_complete_multipart_upload := [Returned tt];
     Scripted.s_abort_multipart_upload := [];
     Scripted.s_open_file := [Returned []];
     Scripted.s_input := [];
     Scripted.s_status_due := [false] |}.

(** ** Hashing and the command line

    [compute_md5], and [S3MultiPartCli] with the namespace that
    [parse_args] hands to it. *)

Definition BLOCKSIZE_FOR_HASHING : Z := 1024 * 1024.

(** [hashlib.md5()]: a running hash, fed by [update] and read by
    [hexdigest]. *)
Record Hasher : Type := {
  h_state : Type;
  h_new : h_state;
  h_update : h_state -> list Byte.byte -> h_state;
  h_hexdigest : h_state -> string
}.

(** The names under which the [upload] sub-command can be called. *)
Inductive UploadAlias : Type := Alias_upload | Alias_up | Alias_u.

Definition alias_name (a : UploadAlias) : string :=
  match a with
  | Alias_upload => "upload"
  | Alias_up => "up"
  | Alias_u => "u"
  end.

(** The [Namespace] of [parse_args].  It holds [operation] and the
    arguments of the sub-command that was called, and no attribute of the
    other sub-command: [part_size] exists for [upload] only, [all] and
    [list] for [abort] only.  Without a sub-command [operation] is [None]
    and there is no other attribute. *)
Inductive Namespace : Type :=
| NoCommand
| UploadArgs (operation : UploadAlias) (upload_id file bucket : string)
             (key : option string) (part_size : option Z)
| AbortArgs (all list_ : bool) (file bucket key upload_id : string).

(** An entry of [iterdir()]: its name, whether it is a regular file, and
    the size that [stat()] reports. *)
Record DirEntry : Type := {
  de_name : string;
  de_is_file : bool;
  de_st_size : Z
}.

(** What [Path(args.file)] names: a directory with its entries, a regular
    file with its name and size, or neither. *)
Inductive PathKind : Type :=
| Directory (entries : list DirEntry)
| RegularFile (name : string) (st_size : Z)
| Neither.

(** [sorted(filepath.iterdir())]: the entries of one directory, ordered by
    name. *)
Fixpoint insert_by_name (p : DirEntry) (l : list DirEntry) : list DirEntry :=
  match l with
  | [] => [p]
  | q :: rest =>
      if String.ltb (de_name p) (de_name q) then p :: l
      else q :: insert_by_name p rest
  end.

Definition sorted_by_name (l : list DirEntry) : list DirEntry :=
  fold_left (fun acc p => insert_by_name p acc) l [].

Section CommandLine.

Variable E : Environment.

Notation "x <- m ;; k" := (bind m (fun x => k))
(at level 61, m at next level, right associativity).
Notation "m ;;; k" := (bind m (fun _ => k))
(at level 61, right associativity).

(** *** [compute_md5] *)

(** [while r: hasher.update(r); progress.increment(BLOCKSIZE_FOR_HASHING);
    r = file.read(BLOCKSIZE_FOR_HASHING)], on the bytes [unread] that the
    open file still holds; every turn takes one unit of [fuel]. *)
Fixpoint hash_blocks (fuel : nat) (H : Hasher) (unread r : list Byte.byte)
  (hasher : h_state H) : M E (h_state H) :=
match r with
| [] => ret hasher
| _ :: _ =>
    match fuel with
    | O => out_of_fuel
    | S fuel' =>
        let hasher' := h_update H hasher r in
        increment BLOCKSIZE_FOR_HASHING ;;;
        hash_blocks fuel' H
          (skipn (Z.to_nat BLOCKSIZE_FOR_HASHING) unread)
          (firstn (Z.to_nat BLOCKSIZE_FOR_HASHING) unread) hasher'
    end
end.

(** [st_size] is the size that [filepath_to_upload.stat()] reports. *)
Definition compute_md5 (fuel : nat) (H : Hasher) (st_size : Z) : M E string :=
let hasher := h_new H in
let file_size := st_size in
content <- local_call (env_open_file E) ;;
hasher' <- with_ProgressMeter 0 file_size
             (hash_blocks fuel H
                (skipn (Z.to_nat BLOCKSIZE_FOR_HASHING) content)
                (firstn (Z.to_nat BLOCKSIZE_FOR_HASHING) content) hasher) ;;
ret (h_hexdigest H hasher').

(** *** [S3MultiPartCli] *)

(** Reading an attribute that the namespace does not hold. *)
Definition AttributeError : Exn := EnvError "AttributeError".

Definition get_file (args : Namespace) : M E string :=
match args with
| NoCommand => raise AttributeError
| UploadArgs _ _ file _ _ _ => ret file
| AbortArgs _ _ file _ _ _ => ret file
end.

Definition get_bucket (args : Namespace) : M E string :=
match args with
| NoCommand => raise AttributeError
| UploadArgs _ _ _ bucket _ _ => ret bucket
| AbortArgs _ _ _ bucket _ _ => ret bucket
end.

(** [args.key]: optional for [upload], required for [abort]. *)
Definition get_key (args : Namespace) : M E (option string) :=
match args with
| NoCommand => raise AttributeError
| UploadArgs _ _ _ _ key _ => ret key
| AbortArgs _ _ _ _ key _ => ret (Some key)
end.

Definition get_part_size (args : Namespace) : M E (option Z) :=
match args with
| UploadArgs _ _ _ _ _ part_size => ret part_size
| _ => raise AttributeError
end.

Definition get_operation (args : Namespace) : option string :=
match args with
| NoCommand => None
| UploadArgs operation _ _ _ _ _ => Some (alias_name operation)
| AbortArgs _ _ _ _ _ _ => Some "abort"%string
end.

(** The fields of [self.args] that the methods of the uploader read;
    [upload] reads [upload_id] only. *)
Definition stored_upload_id (args : Namespace) : string :=
match args with
| NoCommand => EmptyString
| UploadArgs _ upload_id _ _ _ _ => upload_id
| AbortArgs _ _ _ _ _ upload_id => upload_id
end.

Definition stored_all (args : Namespace) : bool :=
match args with AbortArgs all _ _ _ _ _ => all | _ => false end.

Definition stored_list (args : Namespace) : bool :=
match args with AbortArgs _ list_ _ _ _ _ => list_ | _ => false end.

(** The truth value of [args.key]. *)
Definition key_given (key : option string) : bool :=
match key with Some k => truthy k | None => false end.

(** [_upload_file]; [st_size] is the size of [filepath_to_upload]. *)
Definition _upload_file (fuel : nat) (st_size : Z) (dest_key : string)
  (args : Namespace) : M E unit :=
part_size <- get_part_size args ;;
bucket_ <- get_bucket args ;;
s3_multipart_uploader <-
  __init__ bucket_ dest_key part_size (stored_upload_id args) (stored_all args)
    (stored_list args) st_size ;;
match get_operation args with
| None => raise TypeError
| Some operation =>
    let operation :=
      if existsb (String.eqb operation) ["upload"; "up"; "u"]%string
      then "upload"%string else operation in
    if String.eqb operation "upload" then upload fuel s3_multipart_uploader
    else if String.eqb operation "abort" then abort s3_multipart_uploader
    else raise AttributeError
end.

(** [run], once [parse_args] has returned [args] and with what
    [Path(args.file)] names. *)
Definition run (fuel : nat) (args : Namespace) (path : PathKind) : M E unit :=
get_file args ;;;
match path with
| Directory entries =>
    key <- get_key args ;;
    if negb (key_given key) then exit 2
    else
      let prefix := match key with Some k => k | None => "None"%string end in
      for_each (sorted_by_name entries)
        (fun filepath (_ : unit) =>
           if negb (de_is_file filepath) then ret tt
           else
             let dest_key := (prefix ++ "/" ++ de_name filepath)%string in
             _upload_file fuel (de_st_size filepath) dest_key args)
        tt
| RegularFile name st_size =>
    key <- get_key args ;;
    let dest_key := match key with
                    | Some k => if truthy k then k else name
                    | None => name
                    end in
    if negb (truthy dest_key) then exit 2
    else _upload_file fuel st_size dest_key args
| Neither => exit 2
end.

End CommandLine.

(** ** Requests of a run *)

(** The place of a request in the protocol of an upload. *)
Definition phase (ev : Event) : Z :=
  match ev_request ev with
  | HeadObject _ _ => 0
  | ListMultipartUploads _ => 1
  | ListParts _ _ _ _ _ => 2
  | CreateMultipartUpload _ _ _ => 3
  | UploadPart _ _ _ _ _ _ => 4
  | CompleteMultipartUpload _ _ _ _ => 5
  | AbortMultipartUpload _ _ _ => 6
  end.

(** [ev2] may come after [ev1]: a later phase, or one more request of a
    phase that repeats (listing the parts, sending the parts). *)
Definition follows (ev1 ev2 : Event) : Prop :=
  phase ev1 < phase ev2
  \/ (phase ev1 = phase ev2 /\ (phase ev1 = 2 \/ phase ev1 = 4)).

(** The events come in the order of the protocol: every event follows all
    the events before it. *)
Definition in_protocol_order (evs : list Event) : Prop :=
  StronglySorted follows evs.

(** The request names the bucket and the key of the uploader, lists parts
    by pages of 1000, creates without metadata, and is no abort. *)
Definition own_request (self : Uploader) (ev : Event) : Prop :=
  match ev_request ev with
  | HeadObject b k => b = bucket self /\ k = dest_key self
  | ListMultipartUploads b => b = bucket self
  | ListParts b k _ max_parts _ =>
      b = bucket self /\ k = dest_key self /\ max_parts = 1000
  | CreateMultipartUpload b k metadata =>
      b = bucket self /\ k = dest_key self /\ metadata = []
  | UploadPart b k _ _ _ _ => b = bucket self /\ k = dest_key self
  | CompleteMultipartUpload b k _ _ => b = bucket self /\ k = dest_key self
  | AbortMultipartUpload _ _ _ => False
  end.

(** Events of an upload between the phases [lo] and [hi]: in the order of
    the protocol, and each a request of the uploader's own. *)
Definition in_protocol (self : Uploader) (lo hi : Z) (evs : list Event) : Prop :=
  in_protocol_order evs
  /\ Forall (fun ev => lo <= phase ev <= hi) evs
  /\ Forall (own_request self) evs.

(** The outcome and the events of every run of [m] satisfy [P]. *)
Definition emits (E : Environment) (A : Type) (m : M E A)
    (P : Outcome A -> list Event -> Prop) : Prop :=
  forall w, sat m w (fun out _ evs => P out evs).

(** The event of listing the uploads of the bucket. *)
Definition listing_uploads (self : Uploader) (err : option Exn) : Event :=
  {| ev_request := ListMultipartUploads (bucket self); ev_raised := err |}.

(** The event of listing one page of the parts of [upload_id]. *)
Definition listing_parts (self : Uploader) (upload_id : string)
    (marker : option Z) (err : option Exn) : Event :=
  {| ev_request := ListParts (bucket self) (dest_key self) upload_id 1000 marker;
     ev_raised := err |}.

(** The event of creating the upload. *)
Definition creating (self : Uploader) (err : option Exn) : Event :=
  {| ev_request := CreateMultipartUpload (bucket self) (dest_key self) [];
     ev_raised := err |}.

(** The event of aborting [upload_id]. *)
Definition aborting (self : Uploader) (upload_id : string) (err : option Exn)
  : Event :=
  {| ev_request := AbortMultipartUpload (bucket self) (dest_key self) upload_id;
     ev_raised := err |}.

(** The upload ids of the listed uploads of the destination key, in the
    order of the listing. *)
Definition ids_for_key (self : Uploader) (response : ListUploadsResponse)
  : list string :=
  map u_UploadId
      (filter (fun u => String.eqb (u_Key u) (dest_key self))
              (listed_sessions response)).

(** The bytes of the part of index [part_index] in [content]. *)
Definition slice (self : Uploader) (content : list Byte.byte) (part_index : Z)
  : list Byte.byte :=
  read_at content (start_offset self part_index) (part_size_in_bytes self).

(** The bodies of the [UploadPart] requests among the events, in order. *)
Definition bodies_sent (evs : list Event) : list (list Byte.byte) :=
  flat_map (fun ev => match ev_request ev with
                      | UploadPart _ _ _ _ _ body => [body]
                      | _ => []
                      end) evs.

(** The keys of the [HeadObject] requests among the events, in order. *)
Definition keys_probed (evs : list Event) : list string :=
  flat_map (fun ev => match ev_request ev with
                      | HeadObject _ k => [k]
                      | _ => []
                      end) evs.

(** The bucket that a request names. *)
Definition bucket_of (ev : Event) : string :=
  match ev_request ev with
  | HeadObject b _ => b
  | ListMultipartUploads b => b
  | ListParts b _ _ _ _ => b
  | CreateMultipartUpload b _ _ => b
  | UploadPart b _ _ _ _ _ => b
  | CompleteMultipartUpload b _ _ _ => b
  | AbortMultipartUpload b _ _ => b
  end.

(** The order of [sorted] on the entries of a directory. *)
Definition name_le (p q : DirEntry) : Prop :=
  String.leb (de_name p) (de_name q) = true.

(** The local file holds [content] whenever it is opened and the service
    accepts every part of the uploader, as long as the environment is in
    a state of [Inv]. *)
Record cooperative (E : Environment) (self : Uploader) (content : list Byte.byte)
    (Inv : env_state E -> Prop) : Prop := {
  coop_open : forall e, Inv e ->
    exists e', env_open_file E e = (Returned content, e') /\ Inv e';
  coop_send : forall id n sz body e, Inv e ->
    exists tag e',
      env_upload_part E (bucket self) (dest_key self) id n sz body e
        = (Returned tag, e') /\ Inv e';
  coop_clock : forall e, Inv e -> Inv (snd (env_status_due E e))
}.

(** The service answers every request for a page of the parts of [id]
    with a page that carries the truncation flag. *)
Definition always_truncated (E : Environment) (self : Uploader) (id : string)
  : Prop :=
  forall marker e, exists response e',
    env_list_parts E (bucket self) (dest_key self) id 1000 marker e
      = (Returned response, e')
    /\ r_IsTruncated response = Some true.

(** A hasher is streaming when feeding two blocks in turn is feeding their
    concatenation. *)
Definition streaming (H : Hasher) : Prop :=
  forall s a b, h_update H (h_update H s a) b = h_update H s (a ++ b).

(** ** More concrete inputs *)

(** A 10-byte file sent as a single part. *)
Definition one_part_uploader : Uploader :=
  {| bucket := "b"; dest_key := "k"; part_size_in_bytes := 5242880;
     filesize := 10; part_count := 1; args_upload_id := "";
     args_all := false; args_list := false |}.

(** A service that accepts everything and a file that stays as it is. *)
Definition steady_script : Scripted.Script :=
  {| Scripted.s_head_object := [Scripted.not_found];
     Scripted.s_list_multipart_uploads := [Returned {| r_Uploads := None |}];
     Scripted.s_list_parts := [];
     Scripted.s_create_multipart_upload := [Returned "id1"%string];
     Scripted.s_upload_part := [Returned "e1"%string];
     Scripted.s_complete_multipart_upload := [Returned tt];
     Scripted.s_abort_multipart_upload := [];
     Scripted.s_open_file := [Returned ten_bytes];
     Scripted.s_input := [];
     Scripted.s_status_due := [true] |}.

Definition steady (s : Scripted.Script) : Prop :=
  Scripted.s_open_file s = [Returned ten_bytes]
  /\ Scripted.s_upload_part s = [Returned "e1"%string]
  /\ Scripted.s_complete_multipart_upload s = [Returned tt].

(** An upload in progress without any part yet. *)
Definition started_upload : MultipartUploadInProgress :=
  {| started_at := "2024-01-01"; upload_id := "id1"; initiator := "me";
     parts := Some [] |}.

(** An upload in progress that has the three parts of the 10-byte file in
    parts of 4 bytes. *)
Definition complete_upload : MultipartUploadInProgress :=
  {| started_at := "2024-01-01"; upload_id := "id1"; initiator := "me";
     parts := Some [Scripted.part 3 2 "e3"; Scripted.part 1 4 "e1";
                    Scripted.part 2 4 "e2"] |}.

(** One upload of the key among those of the bucket, its parts in one
    page, and a user who answers "n" and then "y". *)
Definition one_session_response : ListUploadsResponse :=
  {| r_Uploads := Some [session "other" "id2"; session "k" "id1"] |}.

Definition one_session_script : Scripted.Script :=
  {| Scripted.s_head_object := [Scripted.not_found];
     Scripted.s_list_multipart_uploads := [Returned one_session_response];
     Scripted.s_list_parts := one_page;
     Scripted.s_create_multipart_upload := [];
     Scripted.s_upload_part := [];
     Scripted.s_complete_multipart_upload := [];
     Scripted.s_abort_multipart_upload := [];
     Scripted.s_open_file := [];
     Scripted.s_input := [Returned "n"%string; Returned "y"%string];
     Scripted.s_status_due := [] |}.

(** A service that lists one upload of the key "k" and flags every page
    of its part listing as truncated. *)
Definition stubborn_env : Environment :=
  {| env_state := unit;
     env_head_object := fun _ _ s => (Scripted.not_found, s);
     env_list_multipart_uploads := fun _ s => (Returned one_session_response, s);
     env_list_parts := fun _ _ _ _ _ s =>
       (Returned {| r_NextPartNumberMarker := None; r_IsTruncated := Some true;
                    r_Parts := Some [Scripted.part 1 4 "e1"] |}, s);
     env_create_multipart_upload := fun _ _ _ s => (Scripted.unscripted, s);
     env_upload_part := fun _ _ _ _ _ _ s => (Scripted.unscripted, s);
     env_complete_multipart_upload := fun _ _ _ _ s => (Scripted.unscripted, s);
     env_abort_multipart_upload := fun _ _ _ s => (Scripted.unscripted, s);
     env_open_file := fun s => (Scripted.unscripted, s);
     env_input := fun _ s => (Scripted.unscripted, s);
     env_status_due := fun s => (false, s) |}.

Definition stubborn_world : World stubborn_env :=
  {| w_env := tt : env_state stubborn_env; w_trace := []; w_log := [];
     w_meter := {| pm_limit := 0; pm_initial := 0; pm_current := 0 |} |}.

(** A hasher that keeps what it is fed. *)
Definition keeping_hasher : Hasher :=
  {| h_state := list Byte.byte; h_new := [];
     h_update := fun s block => s ++ block;
     h_hexdigest := string_of_list_byte |}.

Definition three_bytes : list Byte.byte := [Byte.x61; Byte.x62; Byte.x63].

Definition hashing_script (content : list Byte.byte) : Scripted.Script :=
  {| Scripted.s_head_object := [];
     Scripted.s_list_multipart_uploads := [];
     Scripted.s_list_parts := [];
     Scripted.s_create_multipart_upload := [];
     Scripted.s_upload_part := [];
     Scripted.s_complete_multipart_upload := [];
     Scripted.s_abort_multipart_upload := [];
     Scripted.s_open_file := [Returned content];
     Scripted.s_input := [];
     Scripted.s_status_due := [true] |}.

(** Two uploads of the key "k" and one of another key, and a service that
    refuses the second abort. *)
Definition refusing_abort_script : Scripted.Script :=
  {| Scripted.s_head_object := [];
     Scripted.s_list_multipart_uploads := [Returned two_sessions_response];
     Scripted.s_list_parts := [];
     Scripted.s_create_multipart_upload := [];
     Scripted.s_upload_part := [];
     Scripted.s_complete_multipart_upload := [];
     Scripted.s_abort_multipart_upload :=
       [Returned tt; Raised (ClientError "AccessDenied")];
     Scripted.s_open_file := [];
     Scripted.s_input := [];
     Scripted.s_status_due := [] |}.

Definition abort_all_uploader : Uploader :=
  {| bucket := "b"; dest_key := "k"; part_size_in_bytes := 5242880;
     filesize := 10; part_count := 1; args_upload_id := "id3";
     args_all := true; args_list := false |}.

(** A directory with two regular files and a sub-directory. *)
Definition some_directory : list DirEntry :=
  [{| de_name := "b.bin"; de_is_file := true; de_st_size := 10 |};
   {| de_name := "sub"; de_is_file := false; de_st_size := 4096 |};
   {| de_name := "a.txt"; de_is_file := true; de_st_size := 20 |}].

(** * Verification *)

Unset Implicit Arguments.

(** ** The monad *)

Section MonadFacts.

Variable E : Environment.

Lemma bind_Ok {A B} (m : M E A) (k : A -> M E B) w a w' :
  m w = (Ok a, w') -> bind m k w = k a w'.
Proof. intros H. unfold bind. rewrite H. reflexivity. Qed.

Lemma bind_Raise {A B} (m : M E A) (k : A -> M E B) w e w' :
  m w = (Raise e, w') -> bind m k w = (Raise e, w').
Proof. intros H. unfold bind. rewrite H. reflexivity. Qed.

Lemma bind_Exit {A B} (m : M E A) (k : A -> M E B) w c w' :
  m w = (Exit c, w') -> bind m k w = (Exit c, w').
Proof. intros H. unfold bind. rewrite H. reflexivity. Qed.

Lemma bind_ret {A B} (a : A) (k : A -> M E B) w : bind (ret a) k w = k a w.
Proof. reflexivity. Qed.

Lemma s3_call_Returned {A} req (h : env_state E -> Reply A * env_state E) w a e' :
  h (w_env w) = (Returned a, e') ->
  s3_call req h w =
    (Ok a, record {| ev_request := req; ev_raised := None |} (set_env e' w)).
Proof. intros H. unfold s3_call. rewrite H. reflexivity. Qed.

Lemma s3_call_Raised {A} req (h : env_state E -> Reply A * env_state E) w x e' :
  h (w_env w) = (Raised x, e') ->
  s3_call req h w =
    (Raise x, record {| ev_request := req; ev_raised := Some x |} (set_env e' w)).
Proof. intros H. unfold s3_call. rewrite H. reflexivity. Qed.

End MonadFacts.

(** ** The existence probe gates [upload] *)

Section ExistenceProbe.

Variable E : Environment.

Lemma is_existing_when_head_returns (self : Uploader) (w : World E) e' :
  env_head_object E (bucket self) (dest_key self) (w_env w) = (Returned tt, e') ->
  _is_existing_in_s3 self w =
    (Ok true, record {| ev_request := HeadObject (bucket self) (dest_key self);
                        ev_raised := None |} (set_env e' w)).
Proof.
  intros H. unfold _is_existing_in_s3.
  rewrite (s3_call_Returned _ _ _ _ _ _ H). reflexivity.
Qed.

(** C7. When [head_object] returns (the destination object exists),
    [upload] returns at once: the only request it adds to the trace is
    that [HeadObject]; no listing, creation, part or completion request
    is made, the log is untouched, and the environment is left in the
    state in which the probe left it. *)
Theorem upload_skips_existing_object (fuel : nat) (self : Uploader) (w : World E) e' :
  env_head_object E (bucket self) (dest_key self) (w_env w) = (Returned tt, e') ->
  upload fuel self w =
    (Ok tt,
     {| w_env := e';
        w_trace := w_trace w ++ [{| ev_request := HeadObject (bucket self) (dest_key self);
                                    ev_raised := None |}];
        w_log := w_log w;
        w_meter := w_meter w |}).
Proof.
  intros H. unfold upload.
  rewrite (bind_Ok _ _ _ _ _ _ (is_existing_when_head_returns self w e' H)).
  reflexivity.
Qed.

End ExistenceProbe.

Lemma upload_skips_existing_object_witness :
  upload 1 small_uploader (Scripted.world existing_object_script) =
    (Ok tt,
     {| w_env := existing_object_script : env_state Scripted.env;
        w_trace := [{| ev_request := HeadObject "b" "k"; ev_raised := None |}];
        w_log := [];
        w_meter := {| pm_limit := 0; pm_initial := 0; pm_current := 0 |} |}).
Proof.
  apply (upload_skips_existing_object Scripted.env 1 small_uploader
           (Scripted.world existing_object_script)).
  reflexivity.
Defined.

(** ** Rules for runs *)

Section RunRules.

Variable E : Environment.

Lemma sat_ret {A} (a : A) (w : World E) (Q : post E A) :
  Q (Ok a) w [] -> sat (ret a) w Q.
Proof. intros H. exists []. rewrite app_nil_r. split; [reflexivity|exact H]. Qed.

Lemma sat_raise {A} (e : Exn) (w : World E) (Q : post E A) :
  Q (Raise e) w [] -> sat (raise e) w Q.
Proof. intros H. exists []. rewrite app_nil_r. split; [reflexivity|exact H]. Qed.

Lemma sat_exit {A} (c : Z) (w : World E) (Q : post E A) :
  Q (Exit c) w [] -> sat (exit c) w Q.
Proof. intros H. exists []. rewrite app_nil_r. split; [reflexivity|exact H]. Qed.

Lemma sat_out_of_fuel {A} (w : World E) (Q : post E A) :
  Q OutOfFuel w [] -> sat out_of_fuel w Q.
Proof. intros H. exists []. rewrite app_nil_r. split; [reflexivity|exact H]. Qed.

Lemma sat_LOG (msg : LogMsg) (w : World E) (Q : post E unit) :
  Q (Ok tt) (log_line msg w) [] -> sat (LOG msg) w Q.
Proof. intros H. exists []. simpl. rewrite app_nil_r. split; [reflexivity|exact H]. Qed.

Lemma sat_conseq {A} (m : M E A) (w : World E) (Q Q' : post E A) :
  sat m w Q -> (forall out w' evs, Q out w' evs -> Q' out w' evs) -> sat m w Q'.
Proof. intros [evs [Ht HQ]] Himp. exists evs. split; [exact Ht|apply Himp, HQ]. Qed.

Lemma sat_bind {A B} (m : M E A) (k : A -> M E B) (w : World E)
    (Q1 : post E A) (Q : post E B) :
  sat m w Q1 ->
  (forall a w1 evs1, Q1 (Ok a) w1 evs1 -> sat (k a) w1 (after evs1 Q)) ->
  (forall out w1 evs1, is_Ok out = false -> Q1 out w1 evs1 ->
                       Q (stopped out) w1 evs1) ->
  sat (bind m k) w Q.
Proof.
  intros [evs1 [Ht1 HQ1]] Hok Hstop. unfold sat, bind.
  destruct (m w) as [[a|e|c|] w1] eqn:Hm; simpl in *.
  - destruct (Hok a w1 evs1 HQ1) as [evs2 [Ht2 HQ2]].
    exists (evs1 ++ evs2). rewrite Ht2, Ht1, app_assoc.
    split; [reflexivity|exact HQ2].
  - exists evs1. split; [exact Ht1|]. apply (Hstop (Raise e)); auto.
  - exists evs1. split; [exact Ht1|]. apply (Hstop (Exit c)); auto.
  - exists evs1. split; [exact Ht1|]. apply (Hstop OutOfFuel); auto.
Qed.

Lemma sat_s3_call {A} (req : Request) (h : env_state E -> Reply A * env_state E)
    (w : World E) (Q : post E A) :
  (forall a e', h (w_env w) = (Returned a, e') ->
     Q (Ok a) (record {| ev_request := req; ev_raised := None |} (set_env e' w))
       [{| ev_request := req; ev_raised := None |}]) ->
  (forall x e', h (w_env w) = (Raised x, e') ->
     Q (Raise x) (record {| ev_request := req; ev_raised := Some x |} (set_env e' w))
       [{| ev_request := req; ev_raised := Some x |}]) ->
  sat (s3_call req h) w Q.
Proof.
  intros Hr Hx. unfold sat, s3_call.
  destruct (h (w_env w)) as [[a|x] e'] eqn:Hh; simpl.
  - eexists. split; [reflexivity|]. apply Hr. reflexivity.
  - eexists. split; [reflexivity|]. apply Hx. reflexivity.
Qed.

Lemma sat_local_call {A} (h : env_state E -> Reply A * env_state E)
    (w : World E) (Q : post E A) :
  (forall a e', h (w_env w) = (Returned a, e') -> Q (Ok a) (set_env e' w) []) ->
  (forall x e', h (w_env w) = (Raised x, e') -> Q (Raise x) (set_env e' w) []) ->
  sat (local_call h) w Q.
Proof.
  intros Hr Hx. unfold sat, local_call.
  destruct (h (w_env w)) as [[a|x] e'] eqn:Hh; simpl;
    exists []; rewrite app_nil_r; (split; [reflexivity|]); auto.
Qed.

Lemma sat_run {A} (m : M E A) (w : World E) (Q : post E A) out w' :
  m w = (out, w') -> sat m w Q ->
  exists evs, w_trace w' = w_trace w ++ evs /\ Q out w' evs.
Proof. intros Hm [evs H]. rewrite Hm in H. exists evs. exact H. Qed.

End RunRules.

(** ** Facts on event lists *)

Lemma quiet_app (evs1 evs2 : list Event) :
  quiet evs1 -> quiet evs2 -> quiet (evs1 ++ evs2).
Proof. intros H1 H2. apply Forall_app. split; assumption. Qed.

Lemma fatal_errors_Ok_quiet {A} (evs : list Event) (a : A) :
  fatal_errors evs (Ok a) -> quiet evs.
Proof. intros H. inversion H; subst; assumption. Qed.

Lemma fatal_errors_app {A} (evs1 evs2 : list Event) (out : Outcome A) :
  quiet evs1 -> fatal_errors evs2 out -> fatal_errors (evs1 ++ evs2) out.
Proof.
  intros H1 H2. destruct H2 as [evs out Hq|pre ev e Hq He].
  - apply fatal_none. apply quiet_app; assumption.
  - rewrite app_assoc. apply fatal_last; [apply quiet_app; assumption|exact He].
Qed.

Lemma fatal_errors_stopped {A B} (evs : list Event) (out : Outcome A) :
  is_Ok out = false -> fatal_errors evs out ->
  fatal_errors evs (stopped out : Outcome B).
Proof.
  intros Hn H. destruct H as [evs out Hq|pre ev e Hq He].
  - apply fatal_none. exact Hq.
  - simpl. apply fatal_last; assumption.
Qed.

(** ** The paginated listing of parts *)

Section Listing.

Variable E : Environment.

Lemma load_parts_Returned (self : Uploader) (id : string) (marker : option Z)
    (w : World E) response e' :
  env_list_parts E (bucket self) (dest_key self) id 1000 marker (w_env w)
    = (Returned response, e') ->
  _load_parts self id marker w =
    (Ok (page_of response),
     record {| ev_request := ListParts (bucket self) (dest_key self) id 1000 marker;
               ev_raised := None |} (set_env e' w)).
Proof.
  intros H. unfold _load_parts.
  rewrite (bind_Ok _ _ _ _ _ _ (s3_call_Returned _ _ _ _ _ _ H)). reflexivity.
Qed.

Lemma load_parts_Raised (self : Uploader) (id : string) (marker : option Z)
    (w : World E) x e' :
  env_list_parts E (bucket self) (dest_key self) id 1000 marker (w_env w)
    = (Raised x, e') ->
  _load_parts self id marker w =
    (Raise x,
     record {| ev_request := ListParts (bucket self) (dest_key self) id 1000 marker;
               ev_raised := Some x |} (set_env e' w)).
Proof.
  intros H. unfold _load_parts.
  rewrite (bind_Raise _ _ _ _ _ _ (s3_call_Raised _ _ _ _ _ _ H)). reflexivity.
Qed.

(** One call of [_load_parts] is one [ListParts] request, and its error
    is the error of the call. *)
Lemma load_parts_sat (self : Uploader) (id : string) (marker : option Z)
    (w : World E) :
  sat (_load_parts self id marker) w
    (fun out _ evs =>
       fatal_errors evs out /\
       exists err,
         evs = [{| ev_request := ListParts (bucket self) (dest_key self) id 1000 marker;
                   ev_raised := err |}]).
Proof.
  unfold sat.
  destruct (env_list_parts E (bucket self) (dest_key self) id 1000 marker (w_env w))
    as [[response|x] e'] eqn:H.
  - rewrite (load_parts_Returned _ _ _ _ _ _ H). simpl.
    eexists. split; [reflexivity|]. split; [|eexists; reflexivity].
    apply fatal_none. repeat constructor.
  - rewrite (load_parts_Raised _ _ _ _ _ _ H). simpl.
    eexists. split; [reflexivity|]. split; [|eexists; reflexivity].
    apply (fatal_last [] _ x); [constructor|reflexivity].
Qed.

Lemma load_remaining_parts_sat (fuel : nat) (self : Uploader) (id : string) :
  forall (is_truncated : bool) (marker : option Z) (acc : list UploadedPart)
         (w : World E),
    sat (load_remaining_parts fuel self id is_truncated marker acc) w
      (fun out _ evs => fatal_errors evs out /\ Forall is_ListParts evs).
Proof.
  induction fuel as [|fuel IH]; intros [|] marker acc w; simpl.
  - apply sat_out_of_fuel. split; [apply fatal_none|]; constructor.
  - apply sat_ret. split; [apply fatal_none|]; constructor.
  - eapply sat_bind; [apply load_parts_sat| |].
    + intros [[new_parts trunc] next] w1 evs1 [Hf [err Hev]].
      eapply sat_conseq; [apply IH|].
      intros out w' evs [Hf' Hl]. unfold after. split.
      * apply fatal_errors_app; [|exact Hf'].
        apply (fatal_errors_Ok_quiet _ _ Hf).
      * apply Forall_app. split; [|exact Hl].
        subst evs1. repeat constructor.
    + intros out w1 evs1 Hn [Hf [err Hev]]. split.
      * apply fatal_errors_stopped; assumption.
      * subst evs1. repeat constructor.
  - apply sat_ret. split; [apply fatal_none|]; constructor.
Qed.

Lemma load_all_parts_sat (fuel : nat) (self : Uploader) (id : string) (w : World E) :
  sat (load_all_parts fuel self id) w
    (fun out _ evs =>
       fatal_errors evs out /\
       exists err rest,
         evs = {| ev_request := ListParts (bucket self) (dest_key self) id 1000 None;
                  ev_raised := err |} :: rest
         /\ Forall is_ListParts rest).
Proof.
  unfold load_all_parts.
  eapply sat_bind; [apply load_parts_sat| |].
  - intros [[new_parts trunc] next] w1 evs1 [Hf [err Hev]].
    eapply sat_conseq; [apply load_remaining_parts_sat|].
    intros out w' evs [Hf' Hl]. unfold after. split.
    + apply fatal_errors_app; [|exact Hf'].
      apply (fatal_errors_Ok_quiet _ _ Hf).
    + subst evs1. exists err, evs. auto.
  - intros out w1 evs1 Hn [Hf [err Hev]]. split.
    + apply fatal_errors_stopped; assumption.
    + subst evs1. exists err, []. auto.
Qed.

End Listing.

(** ** Disambiguation of the upload in progress *)

Section Disambiguation.

Variable E : Environment.

Lemma filter_map_in_progress (f : string -> bool) (l : list UploadEntry) :
  filter (fun mp => f (upload_id mp)) (map in_progress l) =
  map in_progress (filter (fun u => f (u_UploadId u)) l).
Proof.
  induction l as [|u l IH]; simpl; [reflexivity|].
  destruct (f (u_UploadId u)); simpl; rewrite IH; reflexivity.
Qed.

Lemma filter_filter {A} (f g : A -> bool) (l : list A) :
  filter g (filter f l) = filter (fun x => f x && g x) l.
Proof.
  induction l as [|x l IH]; simpl; [reflexivity|].
  destruct (f x); simpl; [destruct (g x); rewrite IH|]; auto.
Qed.

(** The list that the code calls [matching] after both filters is the
    specification's list of matching sessions. *)
Lemma matching_refines (self : Uploader) (response : ListUploadsResponse) :
  (if truthy (args_upload_id self)
   then filter (fun mpupload => String.eqb (upload_id mpupload) (args_upload_id self))
          (uploads_matching_key self response)
   else uploads_matching_key self response) =
  map in_progress
    (matching_sessions (dest_key self) (args_upload_id self) (listed_sessions response)).
Proof.
  unfold uploads_matching_key, matching_sessions, listed_sessions.
  fold in_progress.
  destruct (truthy (args_upload_id self)).
  - rewrite (filter_map_in_progress (fun i => String.eqb i (args_upload_id self))).
    rewrite filter_filter. reflexivity.
  - f_equal. apply filter_ext. intros a. rewrite andb_true_r. reflexivity.
Qed.

(** C5. Let [matches] be the sessions of the listing that match the
    destination key (and the explicit id, when one is given).
    (a) No match and an explicit id: the run ends with [exit(1)] after the
        "no upload found for upload_id" error.
    (b) No match and no id: the result is [None] (fresh upload).
    (c) More than one match: the run ends with [exit(1)] after the
        "several uploads" error.
    In (a), (b) and (c) the listing of the sessions is the only request
    made.  (d) Exactly one match: the next request is the first page of
    that session's parts. *)
Theorem check_existing_uploads_disambiguates (fuel : nat) (self : Uploader)
    (w : World E) (response : ListUploadsResponse) (e' : env_state E) :
  env_list_multipart_uploads E (bucket self) (w_env w) = (Returned response, e') ->
  let matches := matching_sessions (dest_key self) (args_upload_id self)
                   (listed_sessions response) in
  let w1 := record {| ev_request := ListMultipartUploads (bucket self);
                      ev_raised := None |} (set_env e' w) in
  (matches = [] -> truthy (args_upload_id self) = true ->
     exists n, check_existing_uploads fuel self w =
                 (Exit 1, log_line (ErrNoUploadForId (args_upload_id self) n) w1))
  /\ (matches = [] -> truthy (args_upload_id self) = false ->
        check_existing_uploads fuel self w = (Ok None, w1))
  /\ ((1 < List.length matches)%nat ->
        check_existing_uploads fuel self w =
          (Exit 1,
           log_line (if truthy (args_upload_id self)
                     then ErrSeveralForId (List.length matches)
                     else ErrSeveralInProgress (List.length matches)) w1))
  /\ (forall m, matches = [m] ->
        exists out w' err rest,
          check_existing_uploads fuel self w = (out, w')
          /\ w_trace w' =
               w_trace w1 ++
               {| ev_request := ListParts (bucket self) (dest_key self)
                                  (u_UploadId m) 1000 None;
                  ev_raised := err |} :: rest
          /\ Forall is_ListParts rest).
Proof.
  intros Hlist matches w1.
  unfold check_existing_uploads.
  rewrite (bind_Ok _ _ _ _ _ _ (s3_call_Returned _ _ _ _ _ _ Hlist)).
  fold w1. cbv zeta. rewrite (matching_refines self response). fold matches.
  rewrite length_map.
  repeat split.
  - intros Hm Hid. rewrite Hm, Hid. simpl. eexists. reflexivity.
  - intros Hm Hid. rewrite Hm, Hid. reflexivity.
  - intros Hlen.
    destruct (Nat.eqb_spec (List.length matches) 0) as [H0|H0]; [lia|].
    destruct (Nat.ltb_spec 1 (List.length matches)) as [_|H1]; [|lia].
    destruct (truthy (args_upload_id self)); reflexivity.
  - intros m Hm. rewrite Hm. simpl.
    match goal with
    | |- context [bind ?a ?b w1] =>
        assert (Hs : sat (bind a b) w1
                       (fun _ _ evs => exists err rest,
                          evs = {| ev_request := ListParts (bucket self) (dest_key self)
                                                   (u_UploadId m) 1000 None;
                                   ev_raised := err |} :: rest
                          /\ Forall is_ListParts rest));
        [|destruct (bind a b w1) as [out w'] eqn:Hrun]
    end.
    + eapply sat_bind; [apply load_all_parts_sat| |].
      * intros ps w2 evs1 [_ [err [rest [Hev Hl]]]]. apply sat_ret.
        unfold after. rewrite app_nil_r. exists err, rest. auto.
      * intros out w2 evs1 _ [_ [err [rest [Hev Hl]]]]. exists err, rest. auto.
    + destruct Hs as [evs [Ht [err [rest [Hev Hl]]]]]. rewrite Hrun in Ht.
      simpl in Ht. exists out, w', err, rest. subst evs. auto.
Qed.

End Disambiguation.

Lemma check_existing_uploads_disambiguates_witness :
  check_existing_uploads 1 small_uploader (Scripted.world two_sessions_script) =
    (Exit 1,
     {| w_env := two_sessions_script : env_state Scripted.env;
        w_trace := [{| ev_request := ListMultipartUploads "b"; ev_raised := None |}];
        w_log := [ErrSeveralInProgress 2];
        w_meter := {| pm_limit := 0; pm_initial := 0; pm_current := 0 |} |}).
Proof.
  apply (check_existing_uploads_disambiguates Scripted.env 1 small_uploader
           (Scripted.world two_sessions_script) two_sessions_response
           two_sessions_script).
  - reflexivity.
  - simpl. lia.
Defined.

(** ** Pagination merging *)

Section Pagination.

Variable E : Environment.

Lemma load_remaining_parts_serves (self : Uploader) (id : string) :
  forall (fuel : nat) (marker : option Z) (e : env_state E)
         (pages : list (list UploadedPart)) (e' : env_state E),
    serves_pages E self id marker e pages e' ->
    forall (acc : list UploadedPart) (w : World E),
      w_env w = e ->
      (List.length pages <= fuel)%nat ->
      exists w',
        load_remaining_parts fuel self id true marker acc w
          = (Ok (acc ++ List.concat pages), w')
        /\ w_env w' = e'
        /\ List.length (w_trace w') = (List.length (w_trace w) + List.length pages)%nat.
Proof.
  intros fuel marker e pages e' Hs. revert fuel.
  induction Hs as [marker e response e' Hr Ht
                  |marker e response e1 pages e' Hr Ht Hs IH];
    intros fuel acc w He Hf; subst e.
  - destruct fuel as [|fuel]; [simpl in Hf; lia|]. cbn [load_remaining_parts].
    rewrite (bind_Ok _ _ _ _ _ _ (load_parts_Returned E _ _ _ _ _ _ Hr)).
    destruct (page_of response) as [[new_parts trunc] next] eqn:Hp.
    simpl in Ht. subst trunc.
    destruct fuel; simpl; rewrite app_nil_r;
      (eexists; split; [reflexivity|]; split; [reflexivity|]);
      simpl; rewrite length_app; simpl; lia.
  - destruct fuel as [|fuel]; [simpl in Hf; lia|]. cbn [load_remaining_parts].
    rewrite (bind_Ok _ _ _ _ _ _ (load_parts_Returned E _ _ _ _ _ _ Hr)).
    destruct (page_of response) as [[new_parts trunc] next] eqn:Hp.
    simpl in Ht, Hs, IH |- *. subst trunc.
    destruct (IH fuel (acc ++ new_parts)
                (record {| ev_request := ListParts (bucket self) (dest_key self)
                                           id 1000 marker;
                           ev_raised := None |} (set_env e1 w)))
      as [w' [Hrun [He' Hlen]]]; [reflexivity|simpl in Hf; lia|].
    exists w'. rewrite Hrun, <- app_assoc. split; [reflexivity|].
    split; [exact He'|]. rewrite Hlen. simpl. rewrite length_app. simpl. lia.
Qed.

(** The accumulation over the pages that the service serves is the
    concatenation of the pages, after one request per page. *)
Lemma load_all_parts_serves (self : Uploader) (id : string) (fuel : nat)
    (w : World E) (pages : list (list UploadedPart)) (e' : env_state E) :
  serves_pages E self id None (w_env w) pages e' ->
  (List.length pages <= S fuel)%nat ->
  exists w',
    load_all_parts fuel self id w = (Ok (List.concat pages), w')
    /\ w_env w' = e'
    /\ List.length (w_trace w') = (List.length (w_trace w) + List.length pages)%nat.
Proof.
  intros Hs Hf. unfold load_all_parts.
  inversion Hs as [marker e response e2 Hr Ht|marker e response e1 rest e2 Hr Ht Hs'];
    subst; rewrite (bind_Ok _ _ _ _ _ _ (load_parts_Returned E _ _ _ _ _ _ Hr));
    destruct (page_of response) as [[new_parts trunc] next] eqn:Hp;
    simpl in Ht; subst trunc; simpl.
  - destruct fuel; simpl; rewrite app_nil_r;
      (eexists; split; [reflexivity|]; split; [reflexivity|]);
      simpl; rewrite length_app; simpl; lia.
  - simpl in Hs'.
    destruct (load_remaining_parts_serves self id fuel next e1 rest e' Hs' new_parts
                (record {| ev_request := ListParts (bucket self) (dest_key self)
                                           id 1000 None;
                           ev_raised := None |} (set_env e1 w)))
      as [w' [Hrun [He' Hlen]]]; [reflexivity|simpl in Hf; lia|].
    exists w'. split; [exact Hrun|]. split; [exact He'|].
    rewrite Hlen. simpl. rewrite length_app. simpl. lia.
Qed.

(** C4. Whatever the split of a session's parts into pages (every page
    but the last flagged as truncated, each request carrying the marker
    of the page before), the accumulation loop returns, after one request
    per page, the concatenation of the pages in order; this is the
    sequence it returns when the service answers with the whole listing
    in one page. *)
Theorem pagination_merging (self : Uploader) (id : string) (fuel : nat)
    (w w1 : World E) (pages : list (list UploadedPart)) (e' e1' : env_state E) :
  serves_pages E self id None (w_env w) pages e' ->
  serves_pages E self id None (w_env w1) [List.concat pages] e1' ->
  (List.length pages <= S fuel)%nat ->
  fst (load_all_parts fuel self id w) = Ok (List.concat pages)
  /\ fst (load_all_parts fuel self id w) = fst (load_all_parts 0 self id w1)
  /\ List.length (w_trace (snd (load_all_parts fuel self id w)))
     = (List.length (w_trace w) + List.length pages)%nat.
Proof.
  intros Hs Hs1 Hf.
  destruct (load_all_parts_serves self id fuel w pages e' Hs Hf) as [w' [Hrun [_ Hlen]]].
  destruct (load_all_parts_serves self id 0 w1 [List.concat pages] e1' Hs1)
    as [w1' [Hrun1 _]]; [simpl; lia|].
  rewrite Hrun, Hrun1. simpl. rewrite app_nil_r. auto.
Qed.

End Pagination.

Lemma three_pages_served :
  serves_pages Scripted.env small_uploader "id1" None
    (listing_script three_pages)
    [firstn 2 five_parts; firstn 2 (skipn 2 five_parts); skipn 4 five_parts]
    (listing_script [Returned (page_response (skipn 4 five_parts) false 5)]).
Proof.
  apply (serves_more (E := Scripted.env) None (listing_script three_pages)
           (page_response (firstn 2 five_parts) true 2)
           (listing_script (tl three_pages))); [reflexivity|reflexivity|].
  apply (serves_more (E := Scripted.env) (Some 2) (listing_script (tl three_pages))
           (page_response (firstn 2 (skipn 2 five_parts)) true 4)
           (listing_script (tl (tl three_pages)))); [reflexivity|reflexivity|].
  apply (serves_last (E := Scripted.env) (Some 4) (listing_script (tl (tl three_pages)))
           (page_response (skipn 4 five_parts) false 5)); reflexivity.
Defined.

Lemma one_page_served :
  serves_pages Scripted.env small_uploader "id1" None
    (listing_script one_page) [five_parts] (listing_script one_page).
Proof.
  apply (serves_last (E := Scripted.env) None (listing_script one_page)
           (page_response five_parts false 5)); reflexivity.
Defined.

Lemma pagination_merging_witness :
  fst (load_all_parts 2 small_uploader "id1"
         (Scripted.world (listing_script three_pages))) = Ok five_parts
  /\ fst (load_all_parts 2 small_uploader "id1"
            (Scripted.world (listing_script three_pages)))
     = fst (load_all_parts 0 small_uploader "id1"
              (Scripted.world (listing_script one_page)))
  /\ List.length (w_trace (snd (load_all_parts 2 small_uploader "id1"
                                  (Scripted.world (listing_script three_pages)))))
     = 3%nat.
Proof.
  apply (pagination_merging Scripted.env small_uploader "id1" 2
           (Scripted.world (listing_script three_pages))
           (Scripted.world (listing_script one_page))
           [firstn 2 five_parts; firstn 2 (skipn 2 five_parts); skipn 4 five_parts]
           _ _ three_pages_served one_page_served).
  simpl. lia.
Defined.

(** ** Chunk geometry *)

Section Geometry.

Lemma exact_ceil_bounds (a b : Z) :
  0 < b -> (PyNum.exact_ceil a b - 1) * b < a <= PyNum.exact_ceil a b * b.
Proof.
  intros Hb. unfold PyNum.exact_ceil.
  pose proof (Z.mul_div_le (- a) b Hb).
  pose proof (Z.mul_succ_div_gt (- a) b Hb).
  nia.
Qed.

Lemma exact_ceil_unique (a b c : Z) :
  0 < b -> (c - 1) * b < a <= c * b -> PyNum.exact_ceil a b = c.
Proof.
  intros Hb Hc. pose proof (exact_ceil_bounds a b Hb). nia.
Qed.

Lemma range_S (start : Z) (n : nat) :
  range start (start + Z.of_nat (S n)) =
  range start (start + Z.of_nat n) ++ [start + Z.of_nat n].
Proof.
  unfold range.
  replace (start + Z.of_nat (S n) - start) with (Z.of_nat (S n)) by lia.
  replace (start + Z.of_nat n - start) with (Z.of_nat n) by lia.
  rewrite !Nat2Z.id, seq_S, map_app. reflexivity.
Qed.

Lemma range_cons (a : Z) (k : nat) :
  range a (a + Z.of_nat (S k)) = a :: range (a + 1) (a + 1 + Z.of_nat k).
Proof.
  unfold range.
  replace (a + Z.of_nat (S k) - a) with (Z.of_nat (S k)) by lia.
  replace (a + 1 + Z.of_nat k - (a + 1)) with (Z.of_nat k) by lia.
  rewrite !Nat2Z.id. cbn [seq map]. f_equal; [lia|].
  rewrite <- seq_shift, map_map. apply map_ext. intros i. lia.
Qed.

Lemma range_empty (start stop : Z) : stop <= start -> range start stop = [].
Proof.
  intros H. unfold range.
  replace (Z.to_nat (stop - start)) with O by lia. reflexivity.
Qed.

Lemma in_range (start stop i : Z) : In i (range start stop) <-> start <= i < stop.
Proof.
  unfold range. rewrite in_map_iff. split.
  - intros [n [Hn Hin]]. apply in_seq in Hin. lia.
  - intros H. exists (Z.to_nat (i - start)). split; [lia|].
    apply in_seq. lia.
Qed.

Lemma total_size_app (l1 l2 : list Z) :
  total_size (l1 ++ l2) = total_size l1 + total_size l2.
Proof.
  unfold total_size. induction l1 as [|x l1 IH]; simpl; [reflexivity|lia].
Qed.

Variable self : Uploader.

Local Abbreviation F := (filesize self).
Local Abbreviation S_ := (part_size_in_bytes self).
Local Abbreviation N := (part_count self).

Hypothesis file_not_empty : 0 < F.
Hypothesis plan : valid_plan F S_ N.

Lemma plan_facts : 0 < S_ /\ (N - 1) * S_ < F <= N * S_ /\ 0 < N.
Proof.
  destruct plan as [Hmin [_ Hc]].
  assert (Hs : 0 < S_) by (unfold MIN_REQUIRED_PART_SIZE_S3 in Hmin; lia).
  pose proof (exact_ceil_bounds F S_ Hs) as Hb. rewrite <- Hc in Hb.
  split; [exact Hs|]. split; [exact Hb|]. nia.
Qed.

Lemma offsets_in_plan (i : Z) :
  0 <= i < N ->
  start_offset self i = spec_start S_ i
  /\ end_offset self i = spec_end F S_ i
  /\ start_offset self i <= end_offset self i.
Proof.
  intros Hi. destruct plan_facts as [Hs [Hb HN]].
  unfold start_offset, end_offset, spec_start, spec_end. nia.
Qed.

Lemma full_parts (i : Z) :
  0 <= i < N - 1 ->
  this_part_size self i = S_ /\ start_offset self (i + 1) = end_offset self i + 1.
Proof.
  intros Hi. destruct plan_facts as [Hs [Hb HN]].
  unfold this_part_size, start_offset, end_offset. nia.
Qed.

Lemma last_part :
  end_offset self (N - 1) = F - 1
  /\ this_part_size self (N - 1) = F - (N - 1) * S_
  /\ 0 < this_part_size self (N - 1) <= S_.
Proof.
  destruct plan_facts as [Hs [Hb HN]].
  unfold this_part_size, start_offset, end_offset. nia.
Qed.

Lemma sizes_of_full_parts (n : nat) :
  Z.of_nat n <= N - 1 ->
  total_size (map (this_part_size self) (range 0 (0 + Z.of_nat n))) = Z.of_nat n * S_.
Proof.
  induction n as [|n IH]; intros Hn.
  - reflexivity.
  - rewrite range_S, map_app, total_size_app, IH by lia.
    destruct (full_parts (0 + Z.of_nat n)) as [Hsz _]; [lia|].
    cbn [map]. unfold total_size at 1. cbn [fold_right].
    rewrite Hsz. lia.
Qed.

Lemma sizes_sum_to_filesize :
  total_size (map (this_part_size self) (range 0 N)) = F.
Proof.
  destruct plan_facts as [Hs [Hb HN]].
  assert (HNeq : N = 0 + Z.of_nat (S (Z.to_nat (N - 1)))) by lia.
  rewrite HNeq at 1.
  rewrite range_S, map_app, total_size_app, sizes_of_full_parts by lia.
  cbn [map]. unfold total_size. cbn [fold_right].
  replace (0 + Z.of_nat (Z.to_nat (N - 1))) with (N - 1) by lia.
  destruct last_part as [_ [Hl _]]. rewrite Hl. lia.
Qed.

Lemma byte_in_one_part (b : Z) :
  0 <= b < F ->
  exists i, (0 <= i < N /\ start_offset self i <= b <= end_offset self i)
            /\ forall j, 0 <= j < N ->
                         start_offset self j <= b <= end_offset self j -> j = i.
Proof.
  intros Hb. destruct plan_facts as [Hs [Hbd HN]].
  exists (b / S_).
  pose proof (Z.mul_div_le b S_ Hs) as H1.
  pose proof (Z.mul_succ_div_gt b S_ Hs) as H2.
  assert (Hq : 0 <= b / S_) by (apply Z.div_pos; lia).
  assert (HqN : b / S_ < N) by nia.
  split.
  - split; [lia|].
    destruct (offsets_in_plan (b / S_)) as [Hst [Hen _]]; [lia|].
    rewrite Hst, Hen. unfold spec_start, spec_end. lia.
  - intros j Hj Hin.
    destruct (offsets_in_plan j Hj) as [Hst [Hen _]].
    rewrite Hst, Hen in Hin. unfold spec_start, spec_end in Hin. nia.
Qed.

End Geometry.

(** C3. For a file of size [F > 0] and a valid plan, the byte ranges that
    [_upload_parts] computes for the part indexes [0 .. part_count - 1]
    are those of the specification, [start = index*chunk_size] and
    [end = min((index+1)*chunk_size, F) - 1]; they start at 0, each begins
    where the one before ended, the last ends at [F - 1], every byte of
    [0 .. F-1] lies in exactly one of them, their sizes sum to [F], and
    every part but the last has size [chunk_size]. *)
Theorem chunk_ranges_partition_file (self : Uploader) :
  0 < filesize self ->
  valid_plan (filesize self) (part_size_in_bytes self) (part_count self) ->
  let F := filesize self in
  let S_ := part_size_in_bytes self in
  let N := part_count self in
  (forall i, 0 <= i < N ->
     start_offset self i = spec_start S_ i
     /\ end_offset self i = spec_end F S_ i
     /\ this_part_size self i = end_offset self i - start_offset self i + 1
     /\ 0 < this_part_size self i)
  /\ start_offset self 0 = 0
  /\ (forall i, 0 <= i < N - 1 ->
        start_offset self (i + 1) = end_offset self i + 1
        /\ this_part_size self i = S_)
  /\ end_offset self (N - 1) = F - 1
  /\ (forall b, 0 <= b < F ->
        exists i, (0 <= i < N /\ start_offset self i <= b <= end_offset self i)
                  /\ forall j, 0 <= j < N ->
                               start_offset self j <= b <= end_offset self j -> j = i)
  /\ total_size (map (this_part_size self) (range 0 N)) = F.
Proof.
  intros HF Hplan F S_ N.
  destruct (plan_facts self HF Hplan) as [Hs [Hb HN]].
  repeat split.
  - apply (offsets_in_plan self HF Hplan i); assumption.
  - apply (offsets_in_plan self HF Hplan i); assumption.
  - destruct (offsets_in_plan self HF Hplan i) as [_ [_ Hle]]; [assumption|].
    unfold this_part_size. lia.
  - destruct (offsets_in_plan self HF Hplan 0) as [H0 _]; [lia|].
    rewrite H0. unfold spec_start. lia.
  - apply (full_parts self HF Hplan i); assumption.
  - apply (full_parts self HF Hplan i); assumption.
  - apply (last_part self HF Hplan).
  - intros b Hb'. apply (byte_in_one_part self HF Hplan b Hb').
  - apply (sizes_sum_to_filesize self HF Hplan).
Qed.

Lemma chunk_ranges_partition_file_witness :
  start_offset scenario_A_uploader 0 = 0
  /\ end_offset scenario_A_uploader 2 = 12000000 - 1
  /\ total_size (map (this_part_size scenario_A_uploader) (range 0 3)) = 12000000.
Proof.
  assert (HF : 0 < filesize scenario_A_uploader) by (simpl; lia).
  assert (Hplan : valid_plan (filesize scenario_A_uploader)
                    (part_size_in_bytes scenario_A_uploader)
                    (part_count scenario_A_uploader)).
  { unfold valid_plan. simpl. repeat split; try (vm_compute; congruence). }
  destruct (chunk_ranges_partition_file scenario_A_uploader HF Hplan)
    as [_ [H0 [_ [Hlast [_ Hsum]]]]].
  split; [exact H0|]. split; [exact Hlast|exact Hsum].
Defined.

(** ** Floating-point facts *)

Section Binary64.

Lemma digits2_pos_size (p : positive) : digits2_pos p = Pos.size p.
Proof. induction p as [p IH|p IH|]; simpl; congruence. Qed.

Lemma Zdigits2_log2 (p : positive) : Zdigits2 (Zpos p) = Z.log2 (Zpos p) + 1.
Proof.
  unfold Zdigits2. rewrite digits2_pos_size.
  destruct p as [p|p|]; simpl; try rewrite Pos.add_1_r; reflexivity.
Qed.

Lemma Zdigits2_bounds (m : Z) :
  0 < m -> 2 ^ (Zdigits2 m - 1) <= m < 2 ^ Zdigits2 m.
Proof.
  intros Hm. destruct m as [|p|p]; try lia.
  rewrite Zdigits2_log2.
  replace (Z.log2 (Zpos p) + 1 - 1) with (Z.log2 (Zpos p)) by lia.
  apply (Z.log2_spec (Zpos p)). lia.
Qed.

Lemma Zdigits2_nonneg (m : Z) : 0 <= Zdigits2 m.
Proof. destruct m; simpl; lia. Qed.

Lemma Zdigits2_le (m k : Z) : 0 <= k -> 0 <= m <= 2 ^ k -> Zdigits2 m <= k + 1.
Proof.
  intros Hk [H0 Hm]. destruct m as [|p|p]; try lia.
  - simpl. lia.
  - rewrite Zdigits2_log2.
    assert (Z.log2 (Zpos p) <= k); [|lia].
    rewrite <- (Z.log2_pow2 k Hk). apply Z.log2_le_mono. exact Hm.
Qed.

Lemma shr_1_m (mrs : shr_record) :
  0 <= shr_m mrs -> shr_m (shr_1 mrs) = shr_m mrs / 2.
Proof.
  destruct mrs as [m r s]. simpl. intros Hm.
  destruct m as [|[p|p|]|p]; try lia; simpl.
  - reflexivity.
  - rewrite Pos2Z.inj_xI. apply (Z.div_unique _ 2 _ 1); lia.
  - rewrite Pos2Z.inj_xO. apply (Z.div_unique _ 2 _ 0); lia.
  - reflexivity.
Qed.

Lemma iter_shr_1_m (p : positive) :
  forall mrs, 0 <= shr_m mrs ->
              shr_m (iter_pos shr_1 p mrs) = shr_m mrs / 2 ^ Zpos p.
Proof.
  assert (Hdiv : forall m k, 0 <= m -> 0 <= k -> 0 <= m / 2 ^ k).
  { intros m k Hm Hk. apply Z.div_pos; [exact Hm|]. apply Z.pow_pos_nonneg; lia. }
  induction p as [p IH|p IH|]; intros mrs Hm; simpl iter_pos.
  - rewrite IH, IH, shr_1_m by
      (try rewrite IH; try rewrite shr_1_m; try apply Hdiv;
       try apply Z.div_pos; lia).
    rewrite !Z.div_div by (try apply Z.pow_pos_nonneg; lia).
    f_equal. replace (Zpos p~1) with (Z.succ (Zpos p + Zpos p)) by lia.
    rewrite Z.pow_succ_r, Z.pow_add_r by lia. ring.
  - rewrite IH, IH by (try rewrite IH; try apply Hdiv; lia).
    rewrite !Z.div_div by (try apply Z.pow_pos_nonneg; lia).
    f_equal. replace (Zpos p~0) with (Zpos p + Zpos p) by lia.
    rewrite Z.pow_add_r by lia. ring.
  - rewrite shr_1_m by exact Hm. reflexivity.
Qed.

Lemma shr_m_e (mrs : shr_record) (e n : Z) :
  0 <= shr_m mrs ->
  shr_m (fst (shr mrs e n)) = shr_m mrs / 2 ^ Z.max n 0
  /\ snd (shr mrs e n) = e + Z.max n 0.
Proof.
  intros Hm. unfold shr. destruct n as [|p|p]; cbn [fst snd].
  - rewrite Z.div_1_r. split; [reflexivity|lia].
  - rewrite iter_shr_1_m by exact Hm. rewrite Z.max_l by lia. auto.
  - rewrite Z.max_r by lia. rewrite Z.div_1_r. split; [reflexivity|lia].
Qed.

Lemma shr_record_of_loc_m (m : Z) (l : location) :
  shr_m (shr_record_of_loc m l) = m.
Proof. destruct l as [|[| |]]; reflexivity. Qed.

Lemma round_nearest_even_bounds (m : Z) (l : location) :
  m <= round_nearest_even m l <= m + 1.
Proof.
  unfold round_nearest_even. destruct l as [|[| |]]; try lia.
  destruct (Z.even m); lia.
Qed.

Lemma fexp_binary64 (e : Z) : fexp 53 1024 e = Z.max (e - 53) (-1074).
Proof. reflexivity. Qed.

Lemma div_pow2_lt (m d t : Z) :
  0 <= t <= d -> 0 <= m < 2 ^ d -> m / 2 ^ t < 2 ^ (d - t).
Proof.
  intros Ht Hm. apply Z.div_lt_upper_bound; [apply Z.pow_pos_nonneg; lia|].
  rewrite <- Z.pow_add_r by lia. replace (t + (d - t)) with d by lia. lia.
Qed.

Lemma div_pow2_small (m d t : Z) :
  0 <= d <= t -> 0 <= m < 2 ^ d -> m / 2 ^ t = 0.
Proof.
  intros Ht Hm. apply Z.div_small. split; [lia|].
  apply Z.lt_le_trans with (2 ^ d); [lia|].
  apply Z.pow_le_mono_r; lia.
Qed.

(** The exponent and the digits after the first shift of
    [binary_round_aux]. *)
Lemma shifted_digits (m e t : Z) :
  0 <= m -> 0 <= t ->
  Zdigits2 (m / 2 ^ t + 1) + (e + t) <= Z.max (Zdigits2 m + e + 1) (e + t + 1).
Proof.
  intros Hm Ht.
  destruct (Z.eq_dec m 0) as [->|Hne].
  - rewrite Z.div_0_l by (apply Z.pow_nonzero; lia).
    change (Zdigits2 (0 + 1)) with 1. change (Zdigits2 0) with 0. lia.
  - pose proof (Zdigits2_bounds m ltac:(lia)) as Hb.
    pose proof (Zdigits2_nonneg m) as Hd.
    destruct (Z_le_gt_dec t (Zdigits2 m)) as [Hle|Hgt].
    + pose proof (div_pow2_lt m (Zdigits2 m) t ltac:(lia) ltac:(lia)) as Hlt.
      assert (H0 : 0 <= m / 2 ^ t)
        by (apply Z.div_pos; [lia|apply Z.pow_pos_nonneg; lia]).
      pose proof (Zdigits2_le (m / 2 ^ t + 1) (Zdigits2 m - t) ltac:(lia)
                    ltac:(lia)).
      lia.
    + rewrite (div_pow2_small m (Zdigits2 m) t) by lia.
      change (Zdigits2 (0 + 1)) with 1. lia.
Qed.

Lemma binary_round_aux_finite (sx : bool) (mx ex : Z) (lx : location) :
  0 <= mx -> ex <= 0 -> Zdigits2 mx + ex <= 1000 ->
  is_finite_or_zero (binary_round_aux 53 1024 sx mx ex lx).
Proof.
  intros Hm Hex Hd. unfold binary_round_aux, shr_fexp.
  set (n1 := fexp 53 1024 (Zdigits2 mx + ex) - ex).
  destruct (shr_m_e (shr_record_of_loc mx lx) ex n1) as [Hm1 He1];
    [rewrite shr_record_of_loc_m; exact Hm|].
  rewrite shr_record_of_loc_m in Hm1.
  destruct (shr (shr_record_of_loc mx lx) ex n1) as [mrs' e'].
  cbn [fst snd] in Hm1, He1.
  set (m1 := round_nearest_even (shr_m mrs') (loc_of_shr_record mrs')).
  pose proof (round_nearest_even_bounds (shr_m mrs') (loc_of_shr_record mrs'))
    as Hr. fold m1 in Hr.
  assert (H0 : 0 <= shr_m mrs').
  { rewrite Hm1. apply Z.div_pos; [exact Hm|apply Z.pow_pos_nonneg; lia]. }
  set (n2 := fexp 53 1024 (Zdigits2 m1 + e') - e').
  destruct (shr_m_e (shr_record_of_loc m1 loc_Exact) e' n2) as [Hm2 He2];
    [rewrite shr_record_of_loc_m; lia|].
  rewrite shr_record_of_loc_m in Hm2.
  destruct (shr (shr_record_of_loc m1 loc_Exact) e' n2) as [mrs'' e''].
  cbn [fst snd] in Hm2, He2.
  assert (H2 : 0 <= shr_m mrs'').
  { rewrite Hm2. apply Z.div_pos; [lia|apply Z.pow_pos_nonneg; lia]. }
  assert (Hn1 : n1 = Z.max (Zdigits2 mx + ex - 53) (-1074) - ex) by reflexivity.
  assert (Hn2 : n2 = Z.max (Zdigits2 m1 + e' - 53) (-1074) - e') by reflexivity.
  assert (Hdm1 : Zdigits2 m1 + e' <= Z.max (Zdigits2 mx + ex + 1) (e' + 1)).
  { assert (Hmono : Zdigits2 m1 <= Zdigits2 (shr_m mrs' + 1)).
    { destruct (Z.eq_dec m1 (shr_m mrs' + 1)) as [->|Hne]; [lia|].
      assert (Heq : m1 = shr_m mrs') by lia. rewrite Heq.
      destruct (Z.eq_dec (shr_m mrs') 0) as [->|Hnz]; [simpl; lia|].
      pose proof (Zdigits2_bounds (shr_m mrs') ltac:(lia)).
      pose proof (Zdigits2_bounds (shr_m mrs' + 1) ltac:(lia)).
      destruct (Z_le_gt_dec (Zdigits2 (shr_m mrs')) (Zdigits2 (shr_m mrs' + 1)))
        as [Hle|Hgt]; [exact Hle|].
      assert (2 ^ Zdigits2 (shr_m mrs' + 1) <= 2 ^ (Zdigits2 (shr_m mrs') - 1))
        by (apply Z.pow_le_mono_r; lia).
      lia. }
    pose proof (shifted_digits mx ex (Z.max n1 0) Hm ltac:(lia)) as Hs.
    rewrite <- Hm1, <- He1 in Hs. lia. }
  destruct (shr_m mrs'') as [|p|p]; cbn; try exact I; [|lia].
  destruct (Z.leb_spec e'' 971); [exact I|]. lia.
Qed.

Lemma SFdiv_core_binary_bounds (a b : positive) (k : Z) :
  0 <= k -> Zpos a <= 2 ^ k * Zpos b ->
  let '(q, e', _) := SFdiv_core_binary 53 1024 (Zpos a) 0 (Zpos b) 0 in
  0 <= q /\ e' <= 0 /\ Zdigits2 q + e' <= k + 1.
Proof.
  intros Hk Hab. unfold SFdiv_core_binary.
  set (e' := Z.min (fexp 53 1024 (Zdigits2 (Zpos a) + 0 - (Zdigits2 (Zpos b) + 0)))
               (0 - 0)).
  assert (He : e' <= 0) by (unfold e'; lia).
  set (s := 0 - 0 - e').
  set (m' := match s with
             | Zpos _ => Z.shiftl (Zpos a) s
             | Z0 => Zpos a
             | Zneg _ => 0
             end).
  assert (Hm' : m' = Zpos a * 2 ^ s).
  { unfold m'. assert (Hs : 0 <= s) by (unfold s; lia).
    destruct s as [|p|p] eqn:Hsp; [lia| |lia].
    rewrite Z.shiftl_mul_pow2 by lia. reflexivity. }
  assert (Hq : fst (Z.div_eucl m' (Zpos b)) = m' / Zpos b) by reflexivity.
  destruct (Z.div_eucl m' (Zpos b)) as [q r]. cbn [fst] in Hq.
  assert (Hpow : 0 < 2 ^ s) by (apply Z.pow_pos_nonneg; unfold s; lia).
  assert (Hq0 : 0 <= q) by (rewrite Hq; apply Z.div_pos; nia).
  assert (Hqk : q <= 2 ^ (k + s)).
  { rewrite Hq, Z.pow_add_r by (unfold s; lia).
    apply Z.div_le_upper_bound; [lia|]. rewrite Hm'. nia. }
  split; [exact Hq0|]. split; [exact He|].
  pose proof (Zdigits2_le q (k + s) ltac:(unfold s; lia) ltac:(lia)).
  unfold s in *. lia.
Qed.

(** The quotient of a non-negative integer by a positive one that is at
    most [2^k] times smaller is a double: no overflow. *)
Lemma true_div_defined (a b k : Z) :
  0 <= a -> 0 < b -> 0 <= k <= 990 -> a <= 2 ^ k * b ->
  exists f, PyNum.true_div a b = Ok f /\ is_finite_or_zero f.
Proof.
  intros Ha Hb Hk Hab. unfold PyNum.true_div.
  destruct (Z.eqb_spec b 0) as [->|_]; [lia|].
  destruct b as [|pb|pb]; try lia.
  destruct a as [|pa|pa]; try lia.
  - exists (S754_zero false). split; reflexivity.
  - cbn [PyNum.Z2SF SFdiv xorb].
    pose proof (SFdiv_core_binary_bounds pa pb k ltac:(lia) Hab) as Hcore.
    unfold PyNum.prec, PyNum.emax.
    destruct (SFdiv_core_binary 53 1024 (Zpos pa) 0 (Zpos pb) 0) as [[q e'] l].
    destruct Hcore as [Hq [He Hd]].
    pose proof (binary_round_aux_finite false q e' l Hq He ltac:(lia)) as Hfin.
    destruct (binary_round_aux 53 1024 false q e' l) as [s|s| |s m e];
      try contradiction; eexists; split; reflexivity.
Qed.

Lemma true_div_within_100 (c l : Z) :
  0 < l -> 0 <= c <= l -> exists f, PyNum.true_div (100 * c) l = Ok f.
Proof.
  intros Hl Hc.
  destruct (true_div_defined (100 * c) l 7 ltac:(lia) Hl ltac:(lia))
    as [f [Hf _]]; [change (2 ^ 7) with 128; lia|].
  exists f. exact Hf.
Qed.

End Binary64.

(** [math.ceil(a / b)] on some integers, as CPython computes it: exact
    below [2^53], rounded above, with both signs. *)
Example ceil_div_samples :
  map (fun p => PyNum.ceil_div (fst p) (snd p))
      [(1, 3); (12000000, 5242880); (7, -2); (-7, 2); (2 ^ 53 + 1, 3);
       (10 ^ 18 + 7, 10 ^ 9 + 9); (10 ^ 30, 7); (3, 2 ^ 60)]
  = [Ok 1; Ok 3; Ok (-3); Ok (-3); Ok 3002399751580331; Ok 999999992;
     Ok 142857142857142852444009529344; Ok 1].
Proof. vm_compute. reflexivity. Qed.

Example true_div_errors :
  PyNum.true_div 1 0 = Raise ZeroDivisionError
  /\ PyNum.true_div (2 ^ 2000) 1 = Raise OverflowError
  /\ PyNum.true_div 1 (2 ^ 2000) = Ok (S754_zero false).
Proof. vm_compute. auto. Qed.

(** ** Exact ceilings below [2^53] *)

Section Exact.

Lemma ceil_of_nonpos (m e : Z) :
  e <= 0 -> ceil_of m e = PyNum.exact_ceil m (2 ^ (- e)).
Proof.
  intros He. unfold ceil_of, PyNum.exact_ceil.
  destruct (Z.leb_spec 0 e) as [H0|Hlt]; [|reflexivity].
  assert (e = 0) by lia. subst e. simpl. rewrite Z.div_1_r. lia.
Qed.

Lemma ceil_of_double (m e : Z) : ceil_of (2 * m) e = ceil_of m (e + 1).
Proof.
  unfold ceil_of.
  destruct (Z.leb_spec 0 e) as [H0|H0].
  - destruct (Z.leb_spec 0 (e + 1)) as [_|H1]; [|lia].
    rewrite Z.pow_add_r by lia. change (2 ^ 1) with 2. lia.
  - destruct (Z.leb_spec 0 (e + 1)) as [H1|H1].
    + assert (e = -1) by lia. subst e.
      change (2 ^ (- (-1))) with 2. change (2 ^ (-1 + 1)) with 1.
      replace (- (2 * m)) with ((- m) * 2) by lia.
      rewrite Z.div_mul by lia. lia.
    + replace (- e) with (1 + (- (e + 1))) by lia.
      rewrite Z.pow_add_r by lia. change (2 ^ 1) with 2.
      replace (- (2 * m)) with (2 * (- m)) by lia.
      rewrite Z.div_mul_cancel_l; [reflexivity| |lia].
      apply Z.pow_nonzero; lia.
Qed.

Lemma math_ceil_finite (m : positive) (e : Z) :
  PyNum.math_ceil (S754_finite false m e) = Ok (ceil_of (Zpos m) e).
Proof. reflexivity. Qed.

Lemma new_location_exact (b : Z) : new_location b 0 = loc_Exact.
Proof. unfold new_location. destruct (Z.even b); reflexivity. Qed.

Lemma new_location_inexact (b r : Z) :
  r <> 0 -> exists c, new_location b r = loc_Inexact c.
Proof.
  intros Hr. apply Z.eqb_neq in Hr. unfold new_location.
  destruct (Z.even b); unfold new_location_even, new_location_odd;
    rewrite Hr; eexists; reflexivity.
Qed.

(** One shift of an even mantissa with nothing lost stays exact; one
    shift of an odd mantissa with something lost is above the half. *)
Lemma shr_1_exact (q : Z) :
  0 < q -> Z.even q = true ->
  shr_1 (shr_record_of_loc q loc_Exact)
  = {| shr_m := q / 2; shr_r := false; shr_s := false |}.
Proof.
  intros Hq He. destruct q as [|[p|p|]|p]; try lia; try discriminate.
  cbn. f_equal. rewrite Pos2Z.inj_xO. apply (Z.div_unique _ 2 _ 0); lia.
Qed.

Lemma shr_1_above_half (q : Z) (c : comparison) :
  0 < q -> Z.odd q = true ->
  loc_of_shr_record (shr_1 (shr_record_of_loc q (loc_Inexact c)))
  = loc_Inexact Gt.
Proof.
  intros Hq Ho. destruct q as [|[p|p|]|p]; try lia; try discriminate;
    destruct c; reflexivity.
Qed.

Lemma Zdigits2_eq (q k : Z) : 0 < k -> 2 ^ (k - 1) <= q < 2 ^ k -> Zdigits2 q = k.
Proof.
  intros Hk Hq.
  assert (Hpos : 0 < q).
  { assert (0 < 2 ^ (k - 1)) by (apply Z.pow_pos_nonneg; lia). lia. }
  pose proof (Zdigits2_bounds q Hpos) as Hd.
  pose proof (Zdigits2_nonneg q) as Hn.
  destruct (Z.lt_trichotomy (Zdigits2 q) k) as [Hlt|[Heq|Hgt]]; [|exact Heq|].
  - assert (2 ^ Zdigits2 q <= 2 ^ (k - 1)) by (apply Z.pow_le_mono_r; lia). lia.
  - assert (2 ^ k <= 2 ^ (Zdigits2 q - 1)) by (apply Z.pow_le_mono_r; lia). lia.
Qed.

Lemma loc_of_shr_record_of_loc (m : Z) (l : location) :
  loc_of_shr_record (shr_record_of_loc m l) = l.
Proof. destruct l as [|[| |]]; reflexivity. Qed.

(** The second normalisation of [binary_round_aux] keeps the value. *)
Lemma renormalise (m1 e1 : Z) :
  2 ^ 52 <= m1 <= 2 ^ 53 -> -1000 <= e1 <= 0 ->
  exists p e2,
    shr_m (fst (shr_fexp 53 1024 m1 e1 loc_Exact)) = Zpos p
    /\ snd (shr_fexp 53 1024 m1 e1 loc_Exact) = e2
    /\ e2 <= 971
    /\ ceil_of (Zpos p) e2 = ceil_of m1 e1.
Proof.
  intros Hm He. unfold shr_fexp. rewrite fexp_binary64.
  destruct (Z.eq_dec m1 (2 ^ 53)) as [->|Hne].
  - change (Zdigits2 (2 ^ 53)) with 54.
    replace (Z.max (54 + e1 - 53) (-1074) - e1) with 1 by lia.
    exists (2 ^ 52)%positive, (e1 + 1). cbn [shr fst snd iter_pos].
    split; [reflexivity|]. split; [reflexivity|]. split; [lia|].
    rewrite <- ceil_of_double. reflexivity.
  - rewrite (Zdigits2_eq m1 53) by lia.
    replace (Z.max (53 + e1 - 53) (-1074) - e1) with 0 by lia.
    cbn [shr fst snd shr_record_of_loc shr_m].
    assert (Hpos : 0 < m1) by (change (2 ^ 52) with 4503599627370496 in Hm; lia).
    destruct m1 as [|p|p]; try lia.
    exists p, e1. repeat split; lia.
Qed.

Lemma binary_round_aux_value (q e e1 m1 : Z) (l : location) (mrs' : shr_record) :
  shr_fexp 53 1024 q e l = (mrs', e1) ->
  m1 = round_nearest_even (shr_m mrs') (loc_of_shr_record mrs') ->
  2 ^ 52 <= m1 <= 2 ^ 53 -> -1000 <= e1 <= 0 ->
  exists p e2,
    binary_round_aux 53 1024 false q e l = S754_finite false p e2
    /\ ceil_of (Zpos p) e2 = ceil_of m1 e1.
Proof.
  intros Hshr Hm1 Hm He. unfold binary_round_aux. rewrite Hshr, <- Hm1.
  destruct (renormalise m1 e1 Hm He) as [p [e2 [Hp [He2 [Hle Hceil]]]]].
  destruct (shr_fexp 53 1024 m1 e1 loc_Exact) as [mrs'' e''].
  cbn [fst snd] in Hp, He2. subst e''. rewrite Hp.
  exists p, e2. split; [|exact Hceil].
  change (1024 - 53) with 971.
  destruct (Z.leb_spec e2 971); [reflexivity|lia].
Qed.

(** A quotient of 53 digits is rounded where it stands. *)
Lemma round_53 (q e : Z) (l : location) :
  2 ^ 52 <= q < 2 ^ 53 -> -1000 <= e <= 0 ->
  exists p e2,
    binary_round_aux 53 1024 false q e l = S754_finite false p e2
    /\ ceil_of (Zpos p) e2 = ceil_of (round_nearest_even q l) e.
Proof.
  intros Hq He.
  apply (binary_round_aux_value q e e (round_nearest_even q l) l
           (shr_record_of_loc q l)).
  - unfold shr_fexp. rewrite fexp_binary64, (Zdigits2_eq q 53) by lia.
    replace (Z.max (53 + e - 53) (-1074) - e) with 0 by lia. reflexivity.
  - rewrite shr_record_of_loc_m, loc_of_shr_record_of_loc. reflexivity.
  - pose proof (round_nearest_even_bounds q l). lia.
  - exact He.
Qed.

(** A quotient of 54 digits is shifted by one bit and then rounded. *)
Lemma round_54 (q e : Z) (l : location) :
  2 ^ 53 <= q < 2 ^ 54 -> -1000 <= e <= -1 ->
  exists p e2,
    binary_round_aux 53 1024 false q e l = S754_finite false p e2
    /\ ceil_of (Zpos p) e2
       = ceil_of (round_nearest_even (q / 2)
                    (loc_of_shr_record (shr_1 (shr_record_of_loc q l))))
           (e + 1).
Proof.
  intros Hq He.
  assert (Hhalf : 2 ^ 52 <= q / 2 < 2 ^ 53).
  { change (2 ^ 53) with (2 * 2 ^ 52) in Hq. change (2 ^ 54) with (2 * 2 ^ 53) in Hq.
    split; [apply Z.div_le_lower_bound; lia|apply Z.div_lt_upper_bound; lia]. }
  assert (Hm : shr_m (shr_1 (shr_record_of_loc q l)) = q / 2).
  { rewrite shr_1_m; rewrite shr_record_of_loc_m; [reflexivity|].
    change (2 ^ 53) with 9007199254740992 in Hq. lia. }
  apply (binary_round_aux_value q e (e + 1) _ l (shr_1 (shr_record_of_loc q l))).
  - unfold shr_fexp. rewrite fexp_binary64, (Zdigits2_eq q 54) by lia.
    replace (Z.max (54 + e - 53) (-1074) - e) with 1 by lia. reflexivity.
  - rewrite Hm. reflexivity.
  - pose proof (round_nearest_even_bounds (q / 2)
                  (loc_of_shr_record (shr_1 (shr_record_of_loc q l)))).
    lia.
  - lia.
Qed.

Lemma quotient_facts (a b c P q r : Z) :
  0 < b -> b < P -> (c - 1) * b < a <= c * b ->
  a * P = q * b + r -> 0 <= r < b ->
  (a = c * b -> q = c * P /\ r = 0)
  /\ (a < c * b ->
      (c - 1) * P + 1 <= q <= c * P - 1 /\ (q = (c - 1) * P + 1 -> r <> 0)).
Proof.
  intros Hb HP Hc Hdiv Hr. split.
  - intros ->. assert (q = c * P) by nia. split; [assumption|nia].
  - intros Hlt. split; [split|]; nia.
Qed.

Lemma digits_below_2p53 (a : Z) : 0 < a < 2 ^ 53 -> 1 <= Zdigits2 a <= 53.
Proof.
  intros Ha. pose proof (Zdigits2_bounds a ltac:(lia)) as Hb.
  pose proof (Zdigits2_nonneg a) as Hn.
  split.
  - destruct a; simpl in *; lia.
  - destruct (Z_le_gt_dec (Zdigits2 a) 53) as [Hle|Hgt]; [exact Hle|].
    assert (2 ^ 53 <= 2 ^ (Zdigits2 a - 1)) by (apply Z.pow_le_mono_r; lia). lia.
Qed.

(** The first step of the division of two integers below [2^53]. *)
Lemma SFdiv_core_binary_small (a b : Z) :
  0 < a < 2 ^ 53 -> 0 < b < 2 ^ 53 ->
  let s := 53 + Zdigits2 b - Zdigits2 a in
  SFdiv_core_binary 53 1024 a 0 b 0
  = (a * 2 ^ s / b, - s, new_location b ((a * 2 ^ s) mod b))
  /\ 1 <= s <= 105
  /\ b < 2 ^ s
  /\ 2 ^ 52 <= a * 2 ^ s / b < 2 ^ 54.
Proof.
  intros Ha Hb s.
  pose proof (digits_below_2p53 a Ha) as Hd1.
  pose proof (digits_below_2p53 b Hb) as Hd2.
  pose proof (Zdigits2_bounds a ltac:(lia)) as Ha2.
  pose proof (Zdigits2_bounds b ltac:(lia)) as Hb2.
  assert (Hs : 1 <= s <= 105) by (unfold s; lia).
  split; [|split; [exact Hs|]].
  - unfold SFdiv_core_binary. rewrite fexp_binary64.
    replace (Z.min (Z.max (Zdigits2 a + 0 - (Zdigits2 b + 0) - 53) (-1074)) (0 - 0))
      with (- s) by (unfold s; lia).
    replace (0 - 0 - - s) with s by lia.
    destruct s as [|ps|ps] eqn:Hsp; try lia.
    rewrite Z.shiftl_mul_pow2 by lia.
    unfold Z.div, Z.modulo.
    destruct (Z.div_eucl (a * 2 ^ Zpos ps) b) as [q r]. reflexivity.
  - assert (HP1 : 2 ^ s * 2 ^ (Zdigits2 a - 1) = 2 ^ 52 * 2 ^ Zdigits2 b).
    { rewrite <- !Z.pow_add_r by lia. f_equal. unfold s. lia. }
    assert (HP2 : 2 ^ s * 2 ^ Zdigits2 a = 2 ^ 54 * 2 ^ (Zdigits2 b - 1)).
    { rewrite <- !Z.pow_add_r by lia. f_equal. unfold s. lia. }
    assert (HP3 : 2 ^ s = 2 ^ (53 - Zdigits2 a) * 2 ^ Zdigits2 b).
    { rewrite <- Z.pow_add_r by lia. f_equal. unfold s. lia. }
    assert (Hone : 1 <= 2 ^ (53 - Zdigits2 a))
      by (assert (0 < 2 ^ (53 - Zdigits2 a)) by (apply Z.pow_pos_nonneg; lia); lia).
    assert (HPpos : 0 < 2 ^ s) by (apply Z.pow_pos_nonneg; lia).
    split; [nia|]. split.
    + apply Z.div_le_lower_bound; [lia|]. nia.
    + apply Z.div_lt_upper_bound; [lia|]. nia.
Qed.

(** [math.ceil(a / b)] is the exact ceiling for integers below [2^53]. *)
Lemma ceil_div_exact (a b : Z) :
  0 <= a < 2 ^ 53 -> 0 < b < 2 ^ 53 ->
  PyNum.ceil_div a b = Ok (PyNum.exact_ceil a b).
Proof.
  intros Ha Hb. unfold PyNum.ceil_div, PyNum.true_div.
  destruct (Z.eqb_spec b 0) as [->|_]; [lia|].
  destruct (Z.eq_dec a 0) as [->|Hnz].
  - destruct b as [|pb|pb]; try lia. reflexivity.
  - assert (Ha' : 0 < a < 2 ^ 53) by lia.
    destruct (SFdiv_core_binary_small a b Ha' Hb) as [Hcore [Hs [HP Hq]]].
    set (s := 53 + Zdigits2 b - Zdigits2 a) in *.
    set (q := a * 2 ^ s / b) in *. set (r := (a * 2 ^ s) mod b) in *.
    set (c := PyNum.exact_ceil a b).
    pose proof (exact_ceil_bounds a b ltac:(lia)) as Hc. fold c in Hc.
    assert (Hdiv : a * 2 ^ s = q * b + r).
    { unfold q, r. pose proof (Z.div_mod (a * 2 ^ s) b ltac:(lia)). lia. }
    assert (Hr : 0 <= r < b) by (apply Z.mod_pos_bound; lia).
    destruct (quotient_facts a b c (2 ^ s) q r ltac:(lia) HP Hc Hdiv Hr)
      as [Hexact Hinexact].
    assert (Hresult : exists p e2,
               binary_round_aux 53 1024 false q (- s) (new_location b r)
               = S754_finite false p e2
               /\ ceil_of (Zpos p) e2 = c).
    { destruct (Z_lt_ge_dec q (2 ^ 53)) as [H53|H54].
      - destruct (round_53 q (- s) (new_location b r) ltac:(lia) ltac:(lia))
          as [p [e2 [Hres Hceil]]].
        exists p, e2. split; [exact Hres|]. rewrite Hceil.
        rewrite ceil_of_nonpos by lia. replace (- - s) with s by lia.
        apply exact_ceil_unique; [apply Z.pow_pos_nonneg; lia|].
        pose proof (round_nearest_even_bounds q (new_location b r)) as Hrne.
        destruct (Z.eq_dec a (c * b)) as [Heq|Hneq].
        + destruct (Hexact Heq) as [Hq' Hr']. rewrite Hr', new_location_exact.
          cbn [round_nearest_even]. nia.
        + destruct Hinexact as [Hq' _]; [lia|]. nia.
      - destruct (round_54 q (- s) (new_location b r) ltac:(lia) ltac:(lia))
          as [p [e2 [Hres Hceil]]].
        exists p, e2. split; [exact Hres|]. rewrite Hceil.
        rewrite ceil_of_nonpos by lia.
        replace (- (- s + 1)) with (s - 1) by lia.
        assert (HPs : 2 ^ s = 2 * 2 ^ (s - 1)).
        { replace s with (1 + (s - 1)) at 1 by lia.
          rewrite Z.pow_add_r by lia. reflexivity. }
        assert (HPpos : 0 < 2 ^ (s - 1)) by (apply Z.pow_pos_nonneg; lia).
        apply exact_ceil_unique; [exact HPpos|].
        set (l' := loc_of_shr_record (shr_1 (shr_record_of_loc q (new_location b r)))).
        pose proof (round_nearest_even_bounds (q / 2) l') as Hrne.
        pose proof (Z.div_mod q 2 ltac:(lia)) as Hq2.
        pose proof (Z.mod_pos_bound q 2 ltac:(lia)) as Hq2b.
        assert (Hqpos : 0 < q) by (change (2 ^ 53) with 9007199254740992 in H54; lia).
        destruct (Z.eq_dec a (c * b)) as [Heq|Hneq].
        + destruct (Hexact Heq) as [Hq' Hr'].
          assert (Heven : Z.even q = true).
          { rewrite Hq', HPs. replace (c * (2 * 2 ^ (s - 1))) with (2 * (c * 2 ^ (s - 1)))
              by lia. rewrite Z.even_mul. reflexivity. }
          unfold l'. rewrite Hr', new_location_exact, (shr_1_exact q Hqpos Heven).
          cbn [loc_of_shr_record round_nearest_even]. nia.
        + destruct Hinexact as [Hq' Hodd]; [lia|].
          destruct (Z.eq_dec q ((c - 1) * 2 ^ s + 1)) as [Hq1|Hq1].
          * assert (Ho : Z.odd q = true).
            { rewrite Hq1, HPs.
              replace ((c - 1) * (2 * 2 ^ (s - 1)) + 1)
                with (1 + 2 * ((c - 1) * 2 ^ (s - 1))) by lia.
              rewrite Z.odd_add_mul_2. reflexivity. }
            destruct (new_location_inexact b r (Hodd Hq1)) as [c0 Hloc].
            unfold l'. rewrite Hloc, (shr_1_above_half q c0 Hqpos Ho).
            cbn [round_nearest_even]. nia.
          * nia. }
    destruct Hresult as [p [e2 [Hres Hceil]]].
    destruct a as [|pa|pa]; try lia. destruct b as [|pb|pb]; try lia.
    cbn [PyNum.Z2SF SFdiv xorb]. unfold PyNum.prec, PyNum.emax.
    rewrite Hcore. fold s q r. rewrite Hres. cbn [PyNum.math_ceil cond_Zopp].
    fold (ceil_of (Zpos p) e2). rewrite Hceil. reflexivity.
Qed.

End Exact.

(** ** The planner on files below [2^53] bytes *)

Section PlannerExact.

Variable E : Environment.

Lemma lift_ceil_div_exact {B} (a b : Z) (k : Z -> M E B) (w : World E) :
  0 <= a < 2 ^ 53 -> 0 < b < 2 ^ 53 ->
  bind (lift (PyNum.ceil_div a b)) k w = k (PyNum.exact_ceil a b) w.
Proof.
  intros Ha Hb. unfold bind, lift. rewrite (ceil_div_exact a b Ha Hb). reflexivity.
Qed.

Lemma auto_part_size_bounds (F : Z) :
  0 <= F < 2 ^ 53 ->
  let cs := Z.max (PyNum.exact_ceil F MAX_ALLOWED_PART_COUNT_S3)
              MIN_REQUIRED_PART_SIZE_S3 in
  MIN_REQUIRED_PART_SIZE_S3 <= cs < 2 ^ 53
  /\ PyNum.exact_ceil F cs <= MAX_ALLOWED_PART_COUNT_S3.
Proof.
  intros HF cs.
  pose proof (exact_ceil_bounds F MAX_ALLOWED_PART_COUNT_S3 ltac:(reflexivity)) as Hc.
  unfold MAX_ALLOWED_PART_COUNT_S3, MIN_REQUIRED_PART_SIZE_S3 in *.
  assert (Hcs : 5 * 1024 * 1024 <= cs < 2 ^ 53).
  { unfold cs. change (2 ^ 53) with 9007199254740992 in *. lia. }
  split; [exact Hcs|].
  pose proof (exact_ceil_bounds F cs ltac:(lia)) as Hn.
  assert (F <= cs * 10000) by (unfold cs; lia).
  nia.
Qed.

(** For a file below [2^53] bytes the planner computes the exact
    ceilings: without a part size (or with 0) it never fails and yields a
    valid plan; with a positive part size it fails exactly when the size
    is below the minimum or the count above the maximum. *)
Lemma determine_part_count_exact_below_2p53 (F : Z) (w : World E) :
  0 <= F < 2 ^ 53 ->
  let cs := Z.max (PyNum.exact_ceil F MAX_ALLOWED_PART_COUNT_S3)
              MIN_REQUIRED_PART_SIZE_S3 in
  _determine_part_count None F w = (Ok (cs, PyNum.exact_ceil F cs), w)
  /\ _determine_part_count (Some 0) F w = (Ok (cs, PyNum.exact_ceil F cs), w)
  /\ valid_plan F cs (PyNum.exact_ceil F cs)
  /\ forall ps, 0 < ps < 2 ^ 53 ->
       _determine_part_count (Some ps) F w =
         if ps <? MIN_REQUIRED_PART_SIZE_S3
         then (Exit 1, log_line (FatalPartSizeTooSmall ps) w)
         else if MAX_ALLOWED_PART_COUNT_S3 <? PyNum.exact_ceil F ps
              then (Exit 1, log_line (FatalPartCountExceeds (PyNum.exact_ceil F ps)) w)
              else (Ok (ps, PyNum.exact_ceil F ps), w).
Proof.
  intros HF cs.
  destruct (auto_part_size_bounds F HF) as [Hcs Hcount]. fold cs in Hcs, Hcount.
  assert (Hmin : 0 < MIN_REQUIRED_PART_SIZE_S3) by reflexivity.
  assert (Hmax : 0 < MAX_ALLOWED_PART_COUNT_S3 < 2 ^ 53) by (split; reflexivity).
  assert (Hauto : forall o, o = None \/ o = Some 0 ->
             _determine_part_count o F w = (Ok (cs, PyNum.exact_ceil F cs), w)).
  { intros o Ho. unfold _determine_part_count.
    assert (Hsize : forall k : Z -> M E (Z * Z),
               bind (match o with
                     | Some ps =>
                         if ps =? 0
                         then bind (lift (PyNum.ceil_div F MAX_ALLOWED_PART_COUNT_S3))
                                (fun c => ret (Z.max c MIN_REQUIRED_PART_SIZE_S3))
                         else ret ps
                     | None =>
                         bind (lift (PyNum.ceil_div F MAX_ALLOWED_PART_COUNT_S3))
                           (fun c => ret (Z.max c MIN_REQUIRED_PART_SIZE_S3))
                     end) k w = k cs w).
    { intros k. destruct Ho as [->| ->]; cbn [Z.eqb];
        unfold bind at 1; rewrite (lift_ceil_div_exact _ _ _ w HF Hmax);
        reflexivity. }
    rewrite Hsize. rewrite (lift_ceil_div_exact F cs _ w HF ltac:(lia)).
    destruct (Z.ltb_spec cs MIN_REQUIRED_PART_SIZE_S3); [lia|].
    destruct (Z.ltb_spec MAX_ALLOWED_PART_COUNT_S3 (PyNum.exact_ceil F cs)); [lia|].
    reflexivity. }
  split; [apply Hauto; auto|]. split; [apply Hauto; auto|].
  split; [unfold valid_plan; lia|].
  intros ps Hps. unfold _determine_part_count.
  destruct (Z.eqb_spec ps 0) as [->|_]; [lia|].
  rewrite bind_ret. rewrite (lift_ceil_div_exact F ps _ w HF Hps).
  destruct (ps <? MIN_REQUIRED_PART_SIZE_S3); [reflexivity|].
  destruct (MAX_ALLOWED_PART_COUNT_S3 <? PyNum.exact_ceil F ps); reflexivity.
Qed.

End PlannerExact.

(** ** The progress meter *)

Section Meter.

Variable E : Environment.

Lemma log_status_world (w : World E) : snd (log_status w) = w.
Proof.
  unfold log_status.
  destruct (PyNum.true_div _ _); reflexivity.
Qed.

Lemma log_status_meter_ok (w : World E) :
  meter_ok (w_meter w) -> log_status w = (Ok tt, w).
Proof.
  intros [Hl Hc]. unfold log_status.
  destruct (true_div_within_100 _ _ Hl Hc) as [f Hf]. rewrite Hf. reflexivity.
Qed.

Lemma log_status_no_limit (w : World E) :
  pm_limit (w_meter w) = 0 -> log_status w = (Raise ZeroDivisionError, w).
Proof. intros H. unfold log_status, PyNum.true_div. rewrite H. reflexivity. Qed.

Lemma increment_sat (w : World E) :
  sat (increment 1) w
    (fun out w' evs =>
       evs = []
       /\ w_log w' = w_log w
       /\ pm_limit (w_meter w') = pm_limit (w_meter w)
       /\ (meter_ok (w_meter w) -> meter_ok (w_meter w') /\ out = Ok tt)).
Proof.
  unfold sat, increment, bind, status_due.
  cbn [w_env set_meter].
  destruct (env_status_due E (w_env w)) as [due e'].
  match goal with
  | |- context [set_env e' ?x] => set (w1 := set_env e' x)
  end.
  assert (Hok : meter_ok (w_meter w) -> meter_ok (w_meter w1)).
  { intros [Hl Hc]. unfold meter_ok. simpl. lia. }
  destruct due.
  - pose proof (log_status_world w1) as Hw.
    destruct (log_status w1) as [out w2] eqn:Hls. simpl in Hw. subst w2.
    exists []. rewrite app_nil_r. simpl.
    split; [reflexivity|]. do 3 (split; [reflexivity|]).
    intros Hm. split; [exact (Hok Hm)|].
    pose proof (log_status_meter_ok w1 (Hok Hm)) as H.
    rewrite Hls in H. congruence.
  - exists []. rewrite app_nil_r. simpl.
    split; [reflexivity|]. do 3 (split; [reflexivity|]).
    intros Hm. split; [exact (Hok Hm)|reflexivity].
Qed.

End Meter.

(** ** The transfer loop *)

Section Transfer.

Variable E : Environment.
Variable self : Uploader.
Variable upload_id_ : string.

Lemma fatal_errors_nil {A} (out : Outcome A) : fatal_errors [] out.
Proof. apply fatal_none. constructor. Qed.

Lemma fatal_errors_one {A} (req : Request) (x : Exn) :
  fatal_errors [{| ev_request := req; ev_raised := Some x |}] (Raise x : Outcome A).
Proof. apply (fatal_last [] _ x); [constructor|reflexivity]. Qed.

Lemma quiet_one (req : Request) : quiet [{| ev_request := req; ev_raised := None |}].
Proof. repeat constructor. Qed.

Lemma upload_one_part_sat (i : Z) (acc : list UploadedPart) (w : World E) :
  sat (upload_one_part self upload_id_ i acc) w
    (part_step_post self upload_id_ i acc w).
Proof.
  unfold upload_one_part.
  apply sat_bind
    with (Q1 := fun out w1 evs =>
                  evs = [] /\ w_log w1 = w_log w /\ w_meter w1 = w_meter w).
  - apply sat_local_call; intros; simpl; auto.
  - intros content w1 evs1 [-> [Hlog Hmeter]].
    apply sat_bind with (Q1 := fun out w2 evs => evs = [] /\ w2 = w1).
    + unfold seek_read.
      destruct (start_offset self i <? 0); [apply sat_raise|apply sat_ret]; auto.
    + intros data w2 evs2 [-> ->].
      destruct (negb (len data =? this_part_size self i)).
      * apply sat_raise. unfold after, part_step_post. simpl.
        split; [apply fatal_errors_nil|]. rewrite Hlog, Hmeter. auto 6.
      * apply sat_bind
          with (Q1 := fun out w3 evs =>
                        w_log w3 = w_log w1 /\ w_meter w3 = w_meter w1
                        /\ exists err, evs = [sending self upload_id_ i data err]
                                       /\ fatal_errors evs out
                                       /\ (is_Ok out = true -> err = None)).
        -- apply sat_s3_call; intros; simpl.
           ++ split; [reflexivity|]. split; [reflexivity|]. exists None.
              split; [reflexivity|]. split; [|reflexivity].
              apply fatal_none, quiet_one.
           ++ split; [reflexivity|]. split; [reflexivity|]. exists (Some x).
              split; [reflexivity|]. split; [|discriminate].
              apply fatal_errors_one.
        -- intros tag w3 evs3 [Hlog3 [Hmeter3 [err [-> [Hf Hn]]]]].
           specialize (Hn eq_refl). subst err.
           eapply sat_bind; [apply increment_sat| |].
           ++ intros [] w4 evs4 [-> [Hlog4 [Hlim4 Hm4]]].
              apply sat_ret. unfold after, part_step_post. simpl.
              split; [apply fatal_none, quiet_one|].
              split; [congruence|]. split; [congruence|].
              split; [intros Hm; apply Hm4; rewrite Hmeter3, Hmeter; exact Hm|].
              right. exists None, data. split; [reflexivity|].
              intros acc' Hacc. inversion Hacc. split; [reflexivity|].
              exists tag. reflexivity.
           ++ intros out w4 evs4 Hn [-> [Hlog4 [Hlim4 Hm4]]].
              unfold after, part_step_post. simpl.
              split; [apply fatal_none, quiet_one|].
              split; [congruence|]. split; [congruence|].
              split; [intros Hm; apply Hm4; rewrite Hmeter3, Hmeter; exact Hm|].
              right. exists None, data. split; [reflexivity|].
              intros acc' Hacc. destruct out; discriminate.
        -- intros out w3 evs3 Hn [Hlog3 [Hmeter3 [err [-> [Hf _]]]]].
           unfold after, part_step_post. simpl.
           split; [apply fatal_errors_stopped; assumption|].
           split; [congruence|]. split; [congruence|].
           split; [rewrite Hmeter3, Hmeter; auto|].
           right. exists err, data. split; [reflexivity|].
           intros acc' Hacc. destruct out; discriminate.
    + intros out w2 evs2 Hn [-> ->]. unfold part_step_post.
      split; [apply fatal_errors_nil|]. rewrite Hlog, Hmeter.
      do 2 (split; [reflexivity|]). split; [auto|].
      left. split; [reflexivity|]. destruct out; auto.
  - intros out w1 evs1 Hn [-> [Hlog Hmeter]]. unfold part_step_post.
    split; [apply fatal_errors_nil|]. rewrite Hlog, Hmeter.
    do 2 (split; [reflexivity|]). split; [auto|].
    left. split; [reflexivity|]. destruct out; auto.
Qed.

Lemma for_each_parts_sat (idxs : list Z) :
  forall (acc : list UploadedPart) (w : World E),
    sat (for_each idxs (upload_one_part self upload_id_) acc) w
      (loop_post self upload_id_ idxs acc w).
Proof.
  induction idxs as [|i idxs IH]; intros acc w; cbn [for_each].
  - apply sat_ret. unfold loop_post.
    split; [apply fatal_errors_nil|]. do 2 (split; [reflexivity|]).
    split; [auto|]. exists [], []. split; [reflexivity|]. split; [reflexivity|].
    intros acc' Hacc. inversion Hacc. subst acc'. rewrite !app_nil_r. auto.
  - eapply sat_bind; [apply upload_one_part_sat| |].
    + intros acc1 w1 evs1 [Hf1 [Hlog1 [Hlim1 [Hm1 Hev1]]]].
      destruct Hev1 as [[_ Hno]|[err [body [-> Hacc1]]]]; [discriminate|].
      destruct (Hacc1 acc1 eq_refl) as [-> [tag ->]].
      eapply sat_conseq; [apply IH|].
      intros out w' evs2 [Hf2 [Hlog2 [Hlim2 [Hm2 [sent [rest [Hidx [Hsent Hok]]]]]]]].
      unfold after, loop_post.
      split; [apply fatal_errors_app; [apply quiet_one|exact Hf2]|].
      split; [congruence|]. split; [congruence|]. split; [auto|].
      exists (i :: sent), rest. split; [rewrite Hidx; reflexivity|].
      split; [cbn [app map]; rewrite Hsent; reflexivity|].
      intros acc' Hacc'. destruct (Hok acc' Hacc') as [Hrest [Hnum Hsz]].
      split; [exact Hrest|]. rewrite Hnum, Hsz, !map_app, <- !app_assoc.
      split; reflexivity.
    + intros out w1 evs1 Hn [Hf1 [Hlog1 [Hlim1 [Hm1 Hev1]]]].
      unfold loop_post.
      split; [apply fatal_errors_stopped; assumption|].
      split; [exact Hlog1|]. split; [exact Hlim1|]. split; [exact Hm1|].
      destruct Hev1 as [[-> _]|[err [body [-> _]]]].
      * exists [], (i :: idxs). split; [reflexivity|]. split; [reflexivity|].
        intros acc' Hacc'. destruct out; discriminate.
      * exists [i], idxs. split; [reflexivity|]. split; [reflexivity|].
        intros acc' Hacc'. destruct out; discriminate.
Qed.

Lemma firstn_seq_le (k : nat) :
  forall s n : nat, (k <= n)%nat -> firstn k (seq s n) = seq s k.
Proof.
  induction k as [|k IH]; intros s n Hk; [reflexivity|].
  destruct n as [|n]; [lia|]. simpl. rewrite IH by lia. reflexivity.
Qed.

Lemma range_prefix (a b : Z) (sent rest : list Z) :
  range a b = sent ++ rest ->
  sent = range a (a + len sent) /\ (len sent = 0 \/ a + len sent <= b).
Proof.
  intros H.
  assert (Hs : sent = firstn (List.length sent) (range a b)).
  { rewrite H, firstn_app, firstn_all, Nat.sub_diag, firstn_O, app_nil_r.
    reflexivity. }
  assert (Hlen : (List.length sent <= Z.to_nat (b - a))%nat).
  { assert (Hl : List.length (range a b) = Z.to_nat (b - a)).
    { unfold range. rewrite length_map, length_seq. reflexivity. }
    rewrite H, length_app in Hl. lia. }
  split.
  - rewrite Hs at 1. unfold range, len.
    rewrite firstn_map, firstn_seq_le by exact Hlen.
    replace (a + Z.of_nat (List.length sent) - a) with (Z.of_nat (List.length sent))
      by lia.
    rewrite Nat2Z.id. reflexivity.
  - unfold len. destruct sent; [left; reflexivity|right]. simpl in *. lia.
Qed.

Lemma range_shift (a b : Z) :
  map (fun i => i + 1) (range a b) = range (a + 1) (b + 1).
Proof.
  unfold range. rewrite map_map.
  replace (b + 1 - (a + 1)) with (b - a) by lia.
  apply map_ext. intros n. lia.
Qed.

Lemma upload_parts_sat (start_index : Z) (w : World E) :
  sat (_upload_parts self start_index upload_id_) w
    (upload_parts_post self start_index w).
Proof.
  unfold _upload_parts, with_ProgressMeter.
  set (pm := {| pm_limit := part_count self; pm_initial := start_index;
                pm_current := start_index |}).
  destruct (for_each_parts_sat (range start_index (part_count self)) []
              (set_meter pm w)) as [evs [Ht Hpost]].
  destruct (for_each (range start_index (part_count self))
              (upload_one_part self upload_id_) [] (set_meter pm w))
    as [out w1] eqn:Hloop.
  cbn [fst snd] in Ht, Hpost.
  destruct Hpost as [Hf [Hlog [Hlim [Hm [sent [rest [Hidx [Hsent Hok]]]]]]]].
  destruct (range_prefix _ _ _ _ Hidx) as [Hsent_eq Hk].
  assert (Hnum : map part_number_sent evs =
                 map Some (range (start_index + 1) (start_index + 1 + len sent))).
  { rewrite Hsent.
    replace (start_index + 1 + len sent) with (start_index + len sent + 1) by lia.
    rewrite <- range_shift, <- Hsent_eq, map_map. reflexivity. }
  assert (Hcover : forall acc', out = Ok acc' ->
            map number acc' = range (start_index + 1) (part_count self + 1)
            /\ map size acc' =
                 map (this_part_size self) (range start_index (part_count self))).
  { intros acc' Hacc'. destruct (Hok acc' Hacc') as [_ [Hn Hs]].
    rewrite Hn, Hs. cbn [map app]. rewrite range_shift. auto. }
  assert (Hmeter : evs <> [] -> 0 <= start_index -> meter_ok (w_meter w1)).
  { intros Hne Hstart. apply Hm. unfold meter_ok. simpl.
    assert (Hin : sent <> []) by (intros ->; destruct evs; simpl in *; congruence).
    assert (Hlt : start_index < part_count self).
    { destruct (Z_lt_ge_dec start_index (part_count self)) as [Hlt|Hge]; [exact Hlt|].
      rewrite range_empty in Hidx by lia.
      destruct sent; [congruence|discriminate]. }
    lia. }
  assert (Hshape : exists k,
            0 <= k /\ (k = 0 \/ start_index + k <= part_count self)
            /\ map part_number_sent evs =
                 map Some (range (start_index + 1) (start_index + 1 + k))).
  { exists (len sent). unfold len at 1. split; [lia|]. split; [exact Hk|exact Hnum]. }
  pose proof (log_status_world E w1) as Hw.
  unfold sat. rewrite Hloop.
  destruct out as [acc'| e | c |].
  - destruct (log_status w1) as [[[]|e|c|] w2] eqn:Hls; simpl in Hw; subst w2;
      cbn [fst snd]; exists evs; (split; [exact Ht|]);
      (split; [intros _; apply fatal_none; apply (fatal_errors_Ok_quiet _ _ Hf)|]);
      (split; [exact Hlog|]);
      destruct Hshape as [k [Hk0 [Hk1 Hk2]]]; exists k;
      (split; [exact Hk0|]); (split; [exact Hk1|]); (split; [exact Hk2|]);
      intros acc'' Hacc''; try discriminate.
    inversion Hacc''. subst acc''. apply Hcover. reflexivity.
  - assert (Hres : 0 <= start_index ->
              fatal_errors evs (fst (match log_status w1 with
                                     | (Ok _, w2) => (Raise e, w2)
                                     | (Raise e0, w2) => (Raise e0, w2)
                                     | (Exit c, w2) => (Exit c, w2)
                                     | (OutOfFuel, w2) =>
                                         (OutOfFuel : Outcome (list UploadedPart), w2)
                                     end))).
    { intros Hstart. inversion Hf as [evs0 out0 Hq|pre ev e0 Hq He]; subst.
      - apply fatal_none. exact Hq.
      - rewrite (log_status_meter_ok E w1).
        + exact Hf.
        + apply Hmeter; [|exact Hstart]. destruct pre; discriminate. }
    destruct (log_status w1) as [[[]|e0|c|] w2] eqn:Hls; simpl in Hw; subst w2;
      cbn [fst snd] in *; exists evs; (split; [exact Ht|]);
      (split; [exact Hres|]); (split; [exact Hlog|]);
      destruct Hshape as [k [Hk0 [Hk1 Hk2]]]; exists k;
      (split; [exact Hk0|]); (split; [exact Hk1|]); (split; [exact Hk2|]);
      intros acc'' Hacc''; discriminate.
  - assert (Hq : quiet evs) by (inversion Hf; assumption).
    destruct (log_status w1) as [[[]|e0|c0|] w2] eqn:Hls; simpl in Hw; subst w2;
      cbn [fst snd] in *; exists evs; (split; [exact Ht|]);
      (split; [intros _; apply fatal_none; exact Hq|]); (split; [exact Hlog|]);
      destruct Hshape as [k [Hk0 [Hk1 Hk2]]]; exists k;
      (split; [exact Hk0|]); (split; [exact Hk1|]); (split; [exact Hk2|]);
      intros acc'' Hacc''; discriminate.
  - cbn [fst snd]. exists evs. split; [exact Ht|].
    assert (Hq : quiet evs) by (inversion Hf; assumption).
    split; [intros _; apply fatal_none; exact Hq|]. split; [exact Hlog|].
    destruct Hshape as [k [Hk0 [Hk1 Hk2]]]. exists k.
    split; [exact Hk0|]. split; [exact Hk1|]. split; [exact Hk2|].
    intros acc'' Hacc''. discriminate.
Qed.

(** The block of the progress meter leaves the world as its body left
    it, and ends normally only when its body did. *)
Lemma with_ProgressMeter_world {A} (initial limit : Z) (body : M E A) (w : World E) :
  snd (with_ProgressMeter initial limit body w)
  = snd (body (set_meter {| pm_limit := limit; pm_initial := initial;
                            pm_current := initial |} w)).
Proof.
  unfold with_ProgressMeter.
  destruct (body _) as [out w1]. pose proof (log_status_world E w1) as Hw.
  destruct out; destruct (log_status w1) as [[[]|?|?|] w2]; simpl in *; congruence.
Qed.

Lemma with_ProgressMeter_Ok {A} (initial limit : Z) (body : M E A) (w w' : World E)
    (a : A) :
  with_ProgressMeter initial limit body w = (Ok a, w') ->
  body (set_meter {| pm_limit := limit; pm_initial := initial;
                     pm_current := initial |} w) = (Ok a, w').
Proof.
  unfold with_ProgressMeter.
  destruct (body _) as [out w1]. pose proof (log_status_world E w1) as Hw.
  destruct out; destruct (log_status w1) as [[[]|?|?|] w2]; simpl in *;
    intros H; inversion H; congruence.
Qed.

(** When the file opens and the read at the offset of the part has the
    planned length, the turn of the loop sends the part: its one request
    is the [UploadPart] of these bytes. *)
Lemma upload_one_part_sends (i : Z) (acc : list UploadedPart) (w : World E)
    (content : list Byte.byte) (e1 : env_state E) :
  env_open_file E (w_env w) = (Returned content, e1) ->
  0 <= start_offset self i ->
  len (read_at content (start_offset self i) (part_size_in_bytes self))
    = this_part_size self i ->
  exists err,
    w_trace (snd (upload_one_part self upload_id_ i acc w))
    = w_trace w
        ++ [sending self upload_id_ i
              (read_at content (start_offset self i) (part_size_in_bytes self)) err].
Proof.
  intros Hopen Hoff Hlen. unfold upload_one_part.
  assert (Hcall : local_call (env_open_file E) w = (Ok content, set_env e1 w))
    by (unfold local_call; rewrite Hopen; reflexivity).
  rewrite (bind_Ok E _ _ _ _ _ Hcall).
  assert (Hseek : seek_read (E := E) content (start_offset self i)
                    (part_size_in_bytes self) (set_env e1 w)
                  = (Ok (read_at content (start_offset self i)
                           (part_size_in_bytes self)), set_env e1 w)).
  { unfold seek_read. destruct (Z.ltb_spec (start_offset self i) 0); [lia|reflexivity]. }
  rewrite (bind_Ok E _ _ _ _ _ Hseek).
  rewrite Hlen, Z.eqb_refl. cbn [negb].
  set (data := read_at content (start_offset self i) (part_size_in_bytes self)).
  destruct (env_upload_part E (bucket self) (dest_key self) upload_id_ (i + 1)
              (this_part_size self i) data e1) as [[tag|x] e2] eqn:Hsend.
  - rewrite (bind_Ok E _ _ _ _ _ (s3_call_Returned E _ _ (set_env e1 w) _ _ Hsend)).
    match goal with
    | |- context [bind (increment 1) _ ?w1] => set (w2 := w1)
    end.
    destruct (increment_sat E w2) as [evs [Ht [-> _]]].
    exists None. unfold bind.
    destruct (increment 1 w2) as [[[]|e|c|] w3]; cbn [fst snd ret] in *;
      rewrite Ht, app_nil_r; reflexivity.
  - rewrite (bind_Raise E _ _ _ _ _ (s3_call_Raised E _ _ (set_env e1 w) _ _ Hsend)).
    exists (Some x). reflexivity.
Qed.

(** Under the same conditions the first request of [_upload_parts] from
    an index below [part_count] is the [UploadPart] of the part of that
    index. *)
Lemma upload_parts_first_request (start_index : Z) (w : World E)
    (content : list Byte.byte) (e1 : env_state E) :
  start_index < part_count self ->
  env_open_file E (w_env w) = (Returned content, e1) ->
  0 <= start_offset self start_index ->
  len (read_at content (start_offset self start_index) (part_size_in_bytes self))
    = this_part_size self start_index ->
  exists err rest,
    w_trace (snd (_upload_parts self start_index upload_id_ w))
    = w_trace w
        ++ sending self upload_id_ start_index
             (read_at content (start_offset self start_index)
                (part_size_in_bytes self)) err :: rest.
Proof.
  intros Hlt Hopen Hoff Hlen. unfold _upload_parts.
  rewrite with_ProgressMeter_world.
  set (w0 := set_meter _ w).
  replace (part_count self)
    with (start_index + Z.of_nat (S (Z.to_nat (part_count self - start_index - 1))))
    by lia.
  rewrite range_cons. cbn [for_each].
  destruct (upload_one_part_sends start_index [] w0 content e1 Hopen Hoff Hlen)
    as [err Hfirst].
  exists err. unfold bind.
  destruct (upload_one_part self upload_id_ start_index [] w0) as [[acc1|e|c|] w1];
    cbn [snd] in *; try (exists []; exact Hfirst).
  destruct (for_each_parts_sat
              (range (start_index + 1)
                 (start_index + 1
                  + Z.of_nat (Z.to_nat (part_count self - start_index - 1))))
              acc1 w1) as [evs [Ht _]].
  exists evs. rewrite Ht, Hfirst, <- app_assoc. reflexivity.
Qed.

(** A normal end of [_upload_parts] means that every part from
    [start_index + 1] to [part_count] was sent, in this order and without
    error, and that these are the parts it returns. *)
Lemma upload_parts_Ok (start_index : Z) (w w' : World E)
    (new_parts : list UploadedPart) :
  _upload_parts self start_index upload_id_ w = (Ok new_parts, w') ->
  exists evs,
    w_trace w' = w_trace w ++ evs
    /\ quiet evs
    /\ map part_number_sent evs
       = map Some (range (start_index + 1) (part_count self + 1))
    /\ map number new_parts = range (start_index + 1) (part_count self + 1)
    /\ map size new_parts
       = map (this_part_size self) (range start_index (part_count self)).
Proof.
  intros H. unfold _upload_parts in H. apply with_ProgressMeter_Ok in H.
  destruct (for_each_parts_sat (range start_index (part_count self)) []
              (set_meter {| pm_limit := part_count self; pm_initial := start_index;
                            pm_current := start_index |} w))
    as [evs [Ht Hpost]].
  rewrite H in Ht, Hpost. cbn [fst snd w_trace set_meter] in Ht, Hpost.
  destruct Hpost as [Hf [_ [_ [_ [sent [rest [Hidx [Hsent Hok]]]]]]]].
  destruct (Hok new_parts eq_refl) as [-> [Hnum Hsize]].
  rewrite app_nil_r in Hidx. subst sent.
  exists evs. split; [exact Ht|].
  split; [apply (fatal_errors_Ok_quiet _ _ Hf)|].
  split; [rewrite Hsent, <- range_shift, map_map; reflexivity|].
  split; [rewrite Hnum, range_shift; reflexivity|exact Hsize].
Qed.

End Transfer.

(** ** The sanity check before a resume *)

Section SanityCheck.

Lemma insert_by_number_perm (p : UploadedPart) (l : list UploadedPart) :
  Permutation (insert_by_number p l) (p :: l).
Proof.
  induction l as [|q l IH]; simpl; [reflexivity|].
  destruct (number q <=? number p); [|reflexivity].
  rewrite IH. apply perm_swap.
Qed.

Lemma insert_by_number_sorted (p : UploadedPart) (l : list UploadedPart) :
  StronglySorted number_le l -> StronglySorted number_le (insert_by_number p l).
Proof.
  induction l as [|q l IH]; intros Hs; simpl.
  - constructor; constructor.
  - inversion Hs as [|q' l' Hl Hq]; subst.
    destruct (Z.leb_spec (number q) (number p)) as [Hle|Hlt].
    + constructor; [apply IH; exact Hl|].
      apply (Permutation_Forall (Permutation_sym (insert_by_number_perm p l))).
      constructor; [exact Hle|exact Hq].
    + constructor; [exact Hs|].
      constructor; [unfold number_le; lia|].
      eapply Forall_impl; [|exact Hq]. unfold number_le. intros a Ha. lia.
Qed.

Lemma fold_insert_perm (l : list UploadedPart) :
  forall acc, Permutation (fold_left (fun acc p => insert_by_number p acc) l acc)
                (acc ++ l).
Proof.
  induction l as [|p l IH]; intros acc; simpl.
  - rewrite app_nil_r. reflexivity.
  - rewrite IH, insert_by_number_perm. simpl. apply Permutation_middle.
Qed.

Lemma fold_insert_sorted (l : list UploadedPart) :
  forall acc, StronglySorted number_le acc ->
              StronglySorted number_le
                (fold_left (fun acc p => insert_by_number p acc) l acc).
Proof.
  induction l as [|p l IH]; intros acc Hs; simpl; [exact Hs|].
  apply IH, insert_by_number_sorted, Hs.
Qed.

Lemma sorted_by_number_perm (l : list UploadedPart) :
  Permutation (sorted_by_number l) l.
Proof. apply (fold_insert_perm l []). Qed.

Lemma sorted_by_number_sorted (l : list UploadedPart) :
  StronglySorted number_le (sorted_by_number l).
Proof. apply fold_insert_sorted. constructor. Qed.

Lemma sorted_Z_unique (l1 : list Z) :
  forall l2, StronglySorted Z.le l1 -> StronglySorted Z.le l2 ->
             Permutation l1 l2 -> l1 = l2.
Proof.
  induction l1 as [|a l1 IH]; intros l2 H1 H2 Hp.
  - apply Permutation_nil in Hp. congruence.
  - destruct l2 as [|b l2].
    + apply Permutation_sym, Permutation_nil in Hp. discriminate.
    + inversion H1 as [|a' l1' Hs1 Ha]; subst.
      inversion H2 as [|b' l2' Hs2 Hb]; subst.
      assert (Hab : a = b).
      { assert (Hin1 : In a (b :: l2))
          by (apply (Permutation_in a Hp); left; reflexivity).
        assert (Hin2 : In b (a :: l1))
          by (apply (Permutation_in b (Permutation_sym Hp)); left; reflexivity).
        rewrite Forall_forall in Ha, Hb.
        destruct Hin1 as [Heq|Hin1]; [congruence|].
        destruct Hin2 as [Heq|Hin2]; [congruence|].
        pose proof (Hb a Hin1). pose proof (Ha b Hin2). lia. }
      subst b. f_equal. apply IH; [assumption|assumption|].
      apply (Permutation_cons_inv Hp).
Qed.

Lemma seq_sorted (n : nat) :
  forall start, StronglySorted Z.le (map Z.of_nat (seq start n)).
Proof.
  induction n as [|n IH]; intros start; cbn [seq map]; constructor.
  - apply IH.
  - apply Forall_forall. intros x Hx. apply in_map_iff in Hx.
    destruct Hx as [k [<- Hk]]. apply in_seq in Hk. lia.
Qed.

Lemma numbers_sorted (l : list UploadedPart) :
  StronglySorted number_le l -> StronglySorted Z.le (map number l).
Proof.
  induction 1 as [|p l Hs IH Hp]; cbn [map]; constructor.
  - exact IH.
  - apply Forall_forall. intros x Hx. apply in_map_iff in Hx.
    destruct Hx as [q [<- Hq]]. rewrite Forall_forall in Hp. apply (Hp q Hq).
Qed.

(** The sorted numbers are [1..N] exactly when the numbers are [1..N] in
    some order: no gap and no duplicate. *)
Lemma dense_numbers_iff (ps : list UploadedPart) :
  map number (sorted_by_number ps) = one_to (List.length (sorted_by_number ps))
  <-> Permutation (map number ps) (one_to (List.length ps)).
Proof.
  pose proof (sorted_by_number_perm ps) as Hperm.
  rewrite (Permutation_length Hperm).
  split.
  - intros H. rewrite <- H. apply Permutation_map, Permutation_sym, Hperm.
  - intros H. apply sorted_Z_unique.
    + apply numbers_sorted, sorted_by_number_sorted.
    + apply seq_sorted.
    + rewrite <- H. apply Permutation_map, Hperm.
Qed.

Lemma accepted_from_cons (chunk_size : Z) (index : nat) (p : UploadedPart)
    (rest : list UploadedPart) :
  accepted_from chunk_size index (p :: rest) <->
  number p = Z.of_nat index + 1
  /\ (rest = [] \/ size p = chunk_size)
  /\ accepted_from chunk_size (S index) rest.
Proof.
  unfold accepted_from. cbn [List.length seq map].
  replace (Z.of_nat index + 1) with (Z.of_nat (S index)) by lia.
  split.
  - intros [Hn Hs].
    assert (Hp : number p = Z.of_nat (S index)) by congruence.
    assert (Hrest : map number rest
                    = map Z.of_nat (seq (S (S index)) (List.length rest)))
      by congruence.
    split; [exact Hp|]. destruct rest as [|q rest].
    + split; [left; reflexivity|]. split; [reflexivity|constructor].
    + cbn [removelast] in Hs. inversion Hs as [|x xs Hx Hxs]; subst.
      split; [right; reflexivity|]. split; [exact Hrest|exact Hxs].
  - intros [Hp [Hsz [Hn Hs]]]. split; [rewrite Hp, Hn; reflexivity|].
    destruct rest as [|q rest]; [constructor|].
    destruct Hsz as [Hnil|Hsz]; [discriminate|].
    cbn [removelast]. constructor; assumption.
Qed.

Variable E : Environment.
Variable self : Uploader.

(** The loop of the sanity check either accepts the sequence and leaves
    the world as it is, or logs one error and ends with [exit(3)]. *)
Lemma sanity_check_cases (chunks : list UploadedPart) :
  forall (index total : nat) (w : World E),
    total = (index + List.length chunks)%nat ->
    (accepted_from (part_size_in_bytes self) index chunks
     /\ sanity_check self total index chunks w = (Ok tt, w))
    \/ (~ accepted_from (part_size_in_bytes self) index chunks
        /\ exists msg, sanity_check self total index chunks w
                       = (Exit 3, log_line msg w)
                       /\ is_consistency_error msg).
Proof.
  induction chunks as [|p rest IH]; intros index total w Htotal.
  - left. split; [|reflexivity]. split; [reflexivity|constructor].
  - cbn [sanity_check].
    destruct (Z.eqb_spec (number p) (Z.of_nat index + 1)) as [Hnum|Hnum]; cbn [negb].
    + destruct (Z.eqb_spec (size p) (part_size_in_bytes self)) as [Hsz|Hsz];
        cbn [negb andb].
      * destruct (IH (S index) total w) as [[Hacc Hrun]|[Hrej Hrun]];
          [simpl in Htotal; lia| |].
        -- left. split; [|exact Hrun]. apply accepted_from_cons. auto.
        -- right. split; [|exact Hrun].
           intros H. apply accepted_from_cons in H. tauto.
      * destruct (Z.eqb_spec (Z.of_nat index) (Z.of_nat total - 1)) as [Hlast|Hlast];
          cbn [negb].
        -- assert (Hnil : rest = []).
           { destruct rest; [reflexivity|simpl in Htotal; lia]. }
           subst rest. left. split; [|reflexivity].
           apply accepted_from_cons. split; [exact Hnum|]. split; [auto|].
           split; [reflexivity|constructor].
        -- right. split.
           ++ intros H. apply accepted_from_cons in H.
              destruct H as [_ [[Hnil|Hs] _]]; [|contradiction].
              subst rest. simpl in Htotal. lia.
           ++ eexists. split; [reflexivity|exact I].
    + right. split.
      * intros H. apply accepted_from_cons in H. tauto.
      * eexists. split; [reflexivity|exact I].
Qed.

End SanityCheck.

(** ** Requests among events *)

Section EventFacts.

Lemma sent_numbers_app (evs1 evs2 : list Event) :
  sent_numbers (evs1 ++ evs2) = sent_numbers evs1 ++ sent_numbers evs2.
Proof. apply flat_map_app. Qed.

Lemma completions_app (evs1 evs2 : list Event) :
  completions (evs1 ++ evs2) = completions evs1 ++ completions evs2.
Proof. apply flat_map_app. Qed.

Lemma well_listed_app (evs1 evs2 : list Event) :
  well_listed evs1 -> well_listed evs2 -> well_listed (evs1 ++ evs2).
Proof.
  unfold well_listed. rewrite completions_app. intros H1 H2.
  apply Forall_app. auto.
Qed.

(** Events that are the sending of the parts [l] contain no completion. *)
Lemma only_parts_sent (evs : list Event) :
  forall l, map part_number_sent evs = map Some l ->
            sent_numbers evs = l /\ completions evs = [].
Proof.
  induction evs as [|ev evs IH]; intros [|n l] H; try discriminate.
  - auto.
  - cbn [map] in H.
    assert (Hev : part_number_sent ev = Some n) by congruence.
    assert (Hrest : map part_number_sent evs = map Some l) by congruence.
    destruct (IH l Hrest) as [Hs Hc].
    unfold sent_numbers, completions in *. cbn [flat_map].
    rewrite Hs, Hc, Hev. unfold part_number_sent in Hev. unfold parts_listed.
    destruct (ev_request ev); try discriminate. auto.
Qed.

Lemma listings_complete_nothing (evs : list Event) :
  Forall is_listing evs -> sent_numbers evs = [] /\ completions evs = [].
Proof.
  induction 1 as [|ev evs Hev _ [IH1 IH2]]; [auto|].
  unfold sent_numbers, completions in *. cbn [flat_map]. rewrite IH1, IH2.
  unfold is_listing in Hev. unfold part_number_sent, parts_listed.
  destruct (ev_request ev); try contradiction; auto.
Qed.

Lemma seq_as_offsets (k : nat) :
  forall (s : nat) (a : Z),
    a = Z.of_nat s ->
    map (fun i => a + Z.of_nat i) (seq 0 k) = map Z.of_nat (seq s k).
Proof.
  induction k as [|k IH]; intros s a Ha; [reflexivity|].
  rewrite !seq_S, !map_app, (IH s a Ha). cbn [map]. subst a.
  repeat f_equal. lia.
Qed.

Lemma one_to_app_range (n : nat) (stop : Z) :
  one_to n ++ range (Z.of_nat n + 1) stop
  = one_to (n + Z.to_nat (stop - (Z.of_nat n + 1))).
Proof.
  unfold one_to, range.
  rewrite seq_app, map_app. f_equal.
  apply seq_as_offsets. lia.
Qed.

Lemma length_range (a b : Z) : List.length (range a b) = Z.to_nat (b - a).
Proof. unfold range. rewrite length_map, length_seq. reflexivity. Qed.

End EventFacts.

(** ** Finalisation *)

Section Finalisation.

Variable E : Environment.
Variable self : Uploader.

(** [_finalize_upload] always sends the completion request for the parts
    it is given, after the size comparison has logged its error or not. *)
Lemma finalize_upload_run (parts_ : list UploadedPart) (id : string) (w : World E) :
  forall reply e',
    env_complete_multipart_upload E (bucket self) (dest_key self) id
      (map (fun part => (number part, etag part)) parts_) (w_env w) = (reply, e') ->
    _finalize_upload self parts_ id w =
      (outcome_of_reply reply,
       {| w_env := e';
          w_trace := w_trace w ++ [completing self id parts_ (error_of_reply reply)];
          w_log := log_after_size_check self parts_ (w_log w);
          w_meter := w_meter w |}).
Proof.
  intros reply e' Hreply.
  unfold _finalize_upload, log_after_size_check, bind, s3_call.
  destruct (filesize self =? sum_sizes parts_); cbn [negb LOG ret log_line w_env];
    rewrite Hreply; destruct reply; reflexivity.
Qed.

Lemma finalize_upload_sat (parts_ : list UploadedPart) (id : string) (w : World E) :
  sat (_finalize_upload self parts_ id) w
    (fun out w' evs =>
       fatal_errors evs out
       /\ exists err, evs = [completing self id parts_ err]).
Proof.
  destruct (env_complete_multipart_upload E (bucket self) (dest_key self) id
              (map (fun part => (number part, etag part)) parts_) (w_env w))
    as [reply e'] eqn:Hreply.
  unfold sat. rewrite (finalize_upload_run parts_ id w reply e' Hreply).
  cbn [fst snd w_trace]. eexists. split; [reflexivity|].
  split; [|eexists; reflexivity].
  destruct reply as [[]|x]; cbn [outcome_of_reply error_of_reply].
  - apply fatal_none. repeat constructor.
  - apply (fatal_last [] _ x); [constructor|reflexivity].
Qed.

Lemma completions_completing (parts_ : list UploadedPart) (id : string)
    (err : option Exn) :
  completions [completing self id parts_ err] = [map number parts_]
  /\ sent_numbers [completing self id parts_ err] = [].
Proof.
  unfold completions, sent_numbers, completing, parts_listed, part_number_sent.
  cbn. rewrite map_map. cbn. auto.
Qed.

End Finalisation.

(** ** Runs of [_continue_upload], [check_existing_uploads] and [upload] *)

Section Runs.

Variable E : Environment.
Variable self : Uploader.

Lemma sat_bind_same {A B} (m : M E A) (k : A -> M E B) (w : World E) (a : A)
    (Q : post E B) :
  m w = (Ok a, w) -> sat (k a) w Q -> sat (bind m k) w Q.
Proof. intros Hm Hk. unfold sat. rewrite (bind_Ok E m k w a w Hm). exact Hk. Qed.

Lemma well_listed_nil : well_listed [].
Proof. constructor. Qed.

Lemma well_listed_completing (parts_ : list UploadedPart) (id : string)
    (err : option Exn) :
  map number parts_ = one_to (List.length parts_) ->
  well_listed [completing self id parts_ err].
Proof.
  intros H. unfold well_listed.
  rewrite (proj1 (completions_completing self parts_ id err)).
  constructor; [|constructor]. rewrite length_map. exact H.
Qed.

Lemma well_listed_parts (evs : list Event) (l : list Z) :
  map part_number_sent evs = map Some l -> well_listed evs.
Proof.
  intros H. unfold well_listed. rewrite (proj2 (only_parts_sent evs l H)).
  constructor.
Qed.

Lemma well_listed_listings (evs : list Event) :
  Forall is_listing evs -> well_listed evs.
Proof.
  intros H. unfold well_listed. rewrite (proj2 (listings_complete_nothing evs H)).
  constructor.
Qed.

(** The numbers of accepted parts followed by those of the parts sent
    after them are [1..n]. *)
Lemma numbers_after_resume (existing new_parts : list UploadedPart) :
  map number existing = one_to (List.length existing) ->
  map number new_parts = range (len existing + 1) (part_count self + 1) ->
  map number (existing ++ new_parts) = one_to (List.length (existing ++ new_parts)).
Proof.
  intros He Hn. rewrite map_app, He, Hn. unfold len.
  rewrite one_to_app_range, length_app. f_equal. f_equal.
  rewrite <- (length_map number new_parts), Hn, length_range. reflexivity.
Qed.

Lemma continue_upload_sat (upload_ : MultipartUploadInProgress) (w : World E) :
  sat (_continue_upload self upload_) w
    (resume_post E (List.length (match parts upload_ with
                                 | Some ps => sorted_by_number ps
                                 | None => []
                                 end))).
Proof.
  unfold _continue_upload.
  destruct (parts upload_) as [ps|].
  - set (existing := sorted_by_number ps).
    destruct (sanity_check_cases E self existing 0 (List.length existing) w eq_refl)
      as [[Hacc Hrun]|[Hrej [msg Hrun]]].
    + apply (sat_bind_same _ _ _ tt _ Hrun).
      eapply sat_bind; [apply upload_parts_sat| |].
      * intros new_parts w1 evs1 [Hf1 [_ [k [Hk0 [_ [Hsent Hcover]]]]]].
        destruct (Hcover new_parts eq_refl) as [Hnum _].
        eapply sat_conseq; [apply finalize_upload_sat|].
        intros out w' evs2 [Hf2 [err ->]]. unfold after, resume_post.
        assert (Hq : quiet evs1).
        { apply (fatal_errors_Ok_quiet evs1 new_parts). apply Hf1.
          unfold len. lia. }
        split; [apply fatal_errors_app; assumption|].
        split.
        -- apply well_listed_app; [apply (well_listed_parts _ _ Hsent)|].
           apply well_listed_completing.
           apply numbers_after_resume; [apply Hacc|exact Hnum].
        -- exists k. split; [exact Hk0|].
           rewrite sent_numbers_app.
           rewrite (proj1 (only_parts_sent _ _ Hsent)).
           rewrite (proj2 (completions_completing self _ _ err)), app_nil_r.
           reflexivity.
      * intros out w1 evs1 Hn [Hf1 [_ [k [Hk0 [_ [Hsent _]]]]]].
        unfold resume_post.
        split; [apply fatal_errors_stopped; [exact Hn|apply Hf1; unfold len; lia]|].
        split; [apply (well_listed_parts _ _ Hsent)|].
        exists k. split; [exact Hk0|]. apply (only_parts_sent _ _ Hsent).
    + destruct Hrun as [Hrun _].
      unfold sat. rewrite (bind_Exit E _ _ w 3 _ Hrun). cbn [fst snd log_line w_trace].
      exists []. rewrite app_nil_r. split; [reflexivity|].
      split; [apply fatal_none; constructor|]. split; [constructor|].
      exists 0. split; [lia|]. rewrite range_empty by lia. reflexivity.
  - apply sat_raise. unfold resume_post.
    split; [apply fatal_none; constructor|]. split; [constructor|].
    exists 0. split; [lia|]. rewrite range_empty by lia. reflexivity.
Qed.

Lemma ListParts_is_listing (evs : list Event) :
  Forall is_ListParts evs -> Forall is_listing evs.
Proof.
  apply Forall_impl. intros ev. unfold is_ListParts, is_listing.
  destruct (ev_request ev); auto.
Qed.

Lemma check_existing_uploads_sat (fuel : nat) (w : World E) :
  sat (check_existing_uploads fuel self) w
    (fun out _ evs => fatal_errors evs out /\ Forall is_listing evs).
Proof.
  unfold check_existing_uploads.
  apply sat_bind
    with (Q1 := fun out _ evs => fatal_errors evs out /\ Forall is_listing evs).
  - apply sat_s3_call; intros; (split; [|repeat constructor]).
    + apply fatal_none. repeat constructor.
    + apply (fatal_last [] _ x); [constructor|reflexivity].
  - intros response w1 evs1 [Hf1 Hl1]. cbv zeta.
    pose proof (fatal_errors_Ok_quiet _ _ Hf1) as Hq1.
    assert (Hstop : forall (out : Outcome (option MultipartUploadInProgress)) w',
               after evs1 (fun out (_ : World E) evs =>
                             fatal_errors evs out /\ Forall is_listing evs)
                 out w' []).
    { intros out w'. unfold after. rewrite app_nil_r.
      split; [apply fatal_none; exact Hq1|exact Hl1]. }
    match goal with
    | |- sat (if Nat.eqb ?n 0 then _ else _) _ _ => destruct (Nat.eqb n 0)
    end.
    + destruct (truthy (args_upload_id self)).
      * eapply sat_bind
          with (Q1 := fun (_ : Outcome unit) (_ : World E) evs => evs = []).
        -- apply sat_LOG. reflexivity.
        -- intros [] w2 evs2 ->. apply sat_exit. unfold after. apply (Hstop _ w1).
        -- intros out w2 evs2 _ ->. apply (Hstop _ w1).
      * apply sat_ret. apply (Hstop _ w1).
    + match goal with
      | |- sat (if Nat.ltb 1 ?n then _ else _) _ _ => destruct (Nat.ltb 1 n)
      end.
      * eapply sat_bind
          with (Q1 := fun (_ : Outcome unit) (_ : World E) evs => evs = []).
        -- destruct (truthy (args_upload_id self)); apply sat_LOG; reflexivity.
        -- intros [] w2 evs2 ->. apply sat_exit. unfold after. apply (Hstop _ w1).
        -- intros out w2 evs2 _ ->. apply (Hstop _ w1).
      * match goal with
        | |- sat (match ?l with [] => _ | _ => _ end) _ _ => destruct l as [|match_ l']
        end.
        -- apply sat_raise. apply (Hstop _ w1).
        -- eapply sat_bind; [apply load_all_parts_sat| |].
           ++ intros ps w2 evs2 [Hf2 [err [rest [-> Hl2]]]]. apply sat_ret.
              unfold after. rewrite app_nil_r. split.
              ** apply fatal_none. apply quiet_app; [exact Hq1|].
                 apply (fatal_errors_Ok_quiet _ _ Hf2).
              ** apply Forall_app. split; [exact Hl1|].
                 constructor; [exact I|apply ListParts_is_listing, Hl2].
           ++ intros out w2 evs2 Hn [Hf2 [err [rest [-> Hl2]]]]. split.
              ** apply fatal_errors_app; [exact Hq1|].
                 apply fatal_errors_stopped; assumption.
              ** apply Forall_app. split; [exact Hl1|].
                 constructor; [exact I|apply ListParts_is_listing, Hl2].
  - intros out w1 evs1 Hn [Hf1 Hl1]. split; [|exact Hl1].
    apply fatal_errors_stopped; assumption.
Qed.

Lemma is_existing_in_s3_sat (w : World E) :
  sat (_is_existing_in_s3 self) w (probe_post E self).
Proof.
  unfold sat, _is_existing_in_s3, s3_call, probe_post.
  destruct (env_head_object E (bucket self) (dest_key self) (w_env w))
    as [[[]|x] e'].
  - cbn [fst snd]. eexists. split; [reflexivity|]. exists None. auto.
  - destruct x; cbn [fst snd]; (eexists; split; [reflexivity|]);
      eexists (Some _); (split; [reflexivity|reflexivity]).
Qed.

Lemma input_sat (prompt : string) (w : World E) :
  sat (input prompt) w (fun _ _ evs => evs = []).
Proof. apply sat_local_call; reflexivity. Qed.

(** The transfer of a fresh upload: creation, parts, completion. *)
Lemma fresh_upload_sat (w : World E) :
  sat (bind (_create_multipart_upload self)
         (fun upload_id_ =>
            bind (_upload_parts self 0 upload_id_)
              (fun uploaded_parts =>
                 _finalize_upload self uploaded_parts upload_id_)))
    w (fun out _ evs => fatal_errors evs out /\ well_listed evs).
Proof.
  apply sat_bind
    with (Q1 := fun out _ evs => fatal_errors evs out /\ well_listed evs).
  - apply sat_s3_call; intros; (split; [|constructor]).
    + apply fatal_none. repeat constructor.
    + apply (fatal_last [] _ x); [constructor|reflexivity].
  - intros id w1 evs1 [Hf1 Hw1].
    pose proof (fatal_errors_Ok_quiet _ _ Hf1) as Hq1.
    eapply sat_bind; [apply upload_parts_sat| |].
    + intros ps w2 evs2 [Hf2 [_ [k [Hk0 [_ [Hsent Hcover]]]]]].
      destruct (Hcover ps eq_refl) as [Hnum _].
      pose proof (fatal_errors_Ok_quiet _ _ (Hf2 (Z.le_refl 0))) as Hq2.
      eapply sat_conseq; [apply finalize_upload_sat|].
      intros out w' evs3 [Hf3 [err ->]]. unfold after. split.
      * apply fatal_errors_app; [exact Hq1|].
        apply fatal_errors_app; [exact Hq2|exact Hf3].
      * apply well_listed_app; [exact Hw1|].
        apply well_listed_app; [apply (well_listed_parts _ _ Hsent)|].
        apply well_listed_completing.
        apply (numbers_after_resume [] ps); [reflexivity|exact Hnum].
    + intros out w2 evs2 Hn [Hf2 [_ [k [_ [_ [Hsent _]]]]]]. unfold after. split.
      * apply fatal_errors_app; [exact Hq1|].
        apply fatal_errors_stopped; [exact Hn|apply Hf2; lia].
      * apply well_listed_app; [exact Hw1|apply (well_listed_parts _ _ Hsent)].
  - intros out w1 evs1 Hn [Hf1 Hw1]. split; [|exact Hw1].
    apply fatal_errors_stopped; assumption.
Qed.

Lemma upload_sat (fuel : nat) (w : World E) :
  sat (upload fuel self) w (upload_post E self).
Proof.
  unfold upload.
  eapply sat_bind; [apply is_existing_in_s3_sat| |].
  - intros existing w1 evs1 [err [-> Herr]]. destruct err as [x|].
    + destruct (is_ClientError x) eqn:Hx; [|discriminate].
      inversion Herr. subst existing.
      apply sat_conseq
        with (Q := fun (out : Outcome unit) (_ : World E) evs =>
                     fatal_errors evs out /\ well_listed evs).
      * eapply sat_bind; [apply check_existing_uploads_sat| |].
        -- intros found w2 evs2 [Hf2 Hl2].
           pose proof (fatal_errors_Ok_quiet _ _ Hf2) as Hq2.
           pose proof (well_listed_listings _ Hl2) as Hw2.
           apply sat_bind
             with (Q1 := fun out (_ : World E) evs =>
                           fatal_errors (evs2 ++ evs) out
                           /\ well_listed (evs2 ++ evs)).
           ++ destruct found as [upload_|].
              ** eapply sat_bind; [apply input_sat| |].
                 --- intros answer w3 evs3 ->.
                     destruct (String.eqb answer "y").
                     +++ eapply sat_bind; [apply continue_upload_sat| |].
                         *** intros [] w4 evs4 [Hf4 [Hw4 _]]. apply sat_ret.
                             unfold after. cbn [app]. rewrite app_nil_r.
                             split; [apply fatal_none, quiet_app; [exact Hq2|]|].
                             ---- apply (fatal_errors_Ok_quiet _ _ Hf4).
                             ---- apply well_listed_app; assumption.
                         *** intros out w4 evs4 Hn [Hf4 [Hw4 _]].
                             unfold after. cbn [app].
                             split; [apply fatal_errors_app; [exact Hq2|]|].
                             ---- apply fatal_errors_stopped; assumption.
                             ---- apply well_listed_app; assumption.
                     +++ eapply sat_bind; [apply input_sat| |].
                         *** intros answer2 w4 evs4 ->.
                             destruct (String.eqb answer2 "y").
                             ---- apply sat_raise. unfold after. cbn [app].
                                  rewrite app_nil_r.
                                  split; [apply fatal_none; exact Hq2|exact Hw2].
                             ---- eapply sat_bind; [apply input_sat| |].
                                  ++++ intros answer3 w5 evs5 ->.
                                       destruct (negb (String.eqb answer3 "y"));
                                         apply sat_ret; unfold after; cbn [app];
                                         rewrite app_nil_r;
                                         (split; [apply fatal_none; exact Hq2
                                                 |exact Hw2]).
                                  ++++ intros out w5 evs5 _ ->. unfold after.
                                       cbn [app]. rewrite app_nil_r.
                                       split; [apply fatal_none; exact Hq2
                                              |exact Hw2].
                         *** intros out w4 evs4 _ ->. unfold after. cbn [app].
                             rewrite app_nil_r.
                             split; [apply fatal_none; exact Hq2|exact Hw2].
                 --- intros out w3 evs3 _ ->. rewrite app_nil_r.
                     split; [apply fatal_none; exact Hq2|exact Hw2].
              ** apply sat_ret. rewrite app_nil_r.
                 split; [apply fatal_none; exact Hq2|exact Hw2].
           ++ intros start_new w3 evs3 [Hf3 Hw3].
              pose proof (fatal_errors_Ok_quiet _ _ Hf3) as Hq3.
              destruct start_new.
              ** eapply sat_conseq; [apply fresh_upload_sat|].
                 intros out w4 evs4 [Hf4 Hw4]. unfold after.
                 rewrite (app_assoc evs2 evs3 evs4). split.
                 --- apply fatal_errors_app; assumption.
                 --- apply well_listed_app; assumption.
              ** apply sat_ret. unfold after. rewrite app_nil_r.
                 split; [apply fatal_none; exact Hq3|exact Hw3].
           ++ intros out w3 evs3 Hn [Hf3 Hw3]. unfold after.
              split; [apply fatal_errors_stopped; assumption|exact Hw3].
        -- intros out w2 evs2 Hn [Hf2 Hl2].
           split; [apply fatal_errors_stopped; assumption|].
           apply well_listed_listings, Hl2.
      * intros out w' evs [Hf Hw]. unfold after, upload_post. split.
        -- apply (well_listed_app [probing self (Some x)] evs); [constructor|exact Hw].
        -- exists (Some x), evs. split; [reflexivity|]. rewrite Hx. exact Hf.
    + inversion Herr. subst existing. apply sat_ret. unfold after, upload_post.
      split; [constructor|]. exists None, []. auto.
  - intros out w1 evs1 Hn [err [-> Herr]]. unfold upload_post.
    split; [constructor|]. exists err, []. split; [reflexivity|].
    destruct err as [x|]; [|subst out; discriminate].
    destruct (is_ClientError x); [subst out; discriminate|].
    subst out. auto.
Qed.

End Runs.

(** ** Finalisation: the size warning and the order of the parts *)

Section Completion.

Variable E : Environment.
Variable self : Uploader.

(** C6. [_finalize_upload] sends the completion request whether or not
    the sizes of the parts sum to the size of the file: the request,
    listing number and ETag of every part in the order given, is the one
    event added to the trace, the "mismatch of sizes" error is logged
    exactly when the sum differs, and the outcome is that of the request.
    Every completion request that [upload] makes, for a fresh upload and
    for a resumed one, and every one that [_continue_upload] makes, lists
    the part numbers [1..n] in ascending order. *)
Theorem finalize_warns_and_completes_in_order :
  (forall (parts_ : list UploadedPart) (id : string) (w : World E),
     _finalize_upload self parts_ id w =
       (let (reply, e') :=
          env_complete_multipart_upload E (bucket self) (dest_key self) id
            (map (fun part => (number part, etag part)) parts_) (w_env w) in
        (outcome_of_reply reply,
         {| w_env := e';
            w_trace := w_trace w ++ [completing self id parts_ (error_of_reply reply)];
            w_log := if filesize self =? sum_sizes parts_
                     then w_log w else w_log w ++ [ErrSizeMismatch];
            w_meter := w_meter w |})))
  /\ (forall (fuel : nat) (w : World E),
        exists evs, w_trace (snd (upload fuel self w)) = w_trace w ++ evs
                    /\ well_listed evs)
  /\ (forall (upload_ : MultipartUploadInProgress) (w : World E),
        exists evs, w_trace (snd (_continue_upload self upload_ w)) = w_trace w ++ evs
                    /\ well_listed evs).
Proof.
  split; [|split].
  - intros parts_ id w.
    destruct (env_complete_multipart_upload E (bucket self) (dest_key self) id
                (map (fun part => (number part, etag part)) parts_) (w_env w))
      as [reply e'] eqn:Hreply.
    apply (finalize_upload_run E self parts_ id w reply e' Hreply).
  - intros fuel w. destruct (upload_sat E self fuel w) as [evs [Ht [Hw _]]].
    exists evs. auto.
  - intros upload_ w.
    destruct (continue_upload_sat E self upload_ w) as [evs [Ht [_ [Hw _]]]].
    exists evs. auto.
Qed.

End Completion.

(** Scenario D: the warning is logged and the request is made. *)
Example scenario_D_finalize :
  let r := _finalize_upload scenario_A_uploader scenario_D_parts "id1"
             (Scripted.world scenario_D_script) in
  fst r = Ok tt
  /\ w_log (snd r) = [ErrSizeMismatch]
  /\ completions (w_trace (snd r)) = [[1; 2; 3]].
Proof. vm_compute. auto. Qed.

(** ** Errors of remote requests *)

Section Errors.

Variable E : Environment.
Variable self : Uploader.

Lemma quiet_no_error (evs : list Event) (pre post : list Event) (ev : Event) (x : Exn) :
  quiet evs -> evs = pre ++ ev :: post -> ev_raised ev = Some x -> False.
Proof.
  intros Hq -> Hx. apply Forall_app in Hq. destruct Hq as [_ Hq].
  inversion Hq as [|ev' l Hev _]; subst. congruence.
Qed.

Lemma exists_last_or_nil {A} (l : list A) :
  l = [] \/ exists l' a, l = l' ++ [a].
Proof.
  destruct l as [|x l]; [left; reflexivity|right].
  destruct (exists_last (l := x :: l)) as [l' [a H]]; [discriminate|].
  exists l', a. exact H.
Qed.

Lemma fatal_errors_propagate {A} (evs : list Event) (out : Outcome A) :
  fatal_errors evs out -> every_error_propagates evs out.
Proof.
  intros Hf pre ev post x Hevs Hx.
  destruct Hf as [evs out Hq|pre' ev' e Hq He].
  - exfalso. exact (quiet_no_error evs pre post ev x Hq Hevs Hx).
  - destruct (exists_last_or_nil post) as [->|[post' [p ->]]].
    + apply app_inj_tail in Hevs. destruct Hevs as [_ <-].
      split; [reflexivity|]. congruence.
    + exfalso.
      change (pre ++ ev :: post' ++ [p]) with (pre ++ (ev :: post') ++ [p]) in Hevs.
      rewrite app_assoc in Hevs. apply app_inj_tail in Hevs.
      destruct Hevs as [Hpre _].
      exact (quiet_no_error pre' pre post' ev x Hq Hpre Hx).
Qed.

Lemma abort_sat (w : World E) :
  sat (abort self) w (fun out _ evs => fatal_errors evs out).
Proof.
  unfold abort.
  assert (Hcall : forall id w0,
             sat (s3_call (AbortMultipartUpload (bucket self) (dest_key self) id)
                    (env_abort_multipart_upload E (bucket self) (dest_key self) id))
               w0 (fun out _ evs => fatal_errors evs out)).
  { intros id w0. apply sat_s3_call; intros.
    - apply fatal_none. repeat constructor.
    - apply (fatal_last [] _ x); [constructor|reflexivity]. }
  destruct (args_all self || args_list self); [|apply Hcall].
  eapply sat_bind
    with (Q1 := fun out (_ : World E) evs => fatal_errors evs out).
  - apply sat_s3_call; intros.
    + apply fatal_none. repeat constructor.
    + apply (fatal_last [] _ x); [constructor|reflexivity].
  - intros response w1 evs1 Hf1.
    pose proof (fatal_errors_Ok_quiet _ _ Hf1) as Hq1.
    cbv zeta. destruct (args_all self).
    + generalize (uploads_matching_key self response). intros matching.
      revert w1 evs1 Hf1 Hq1.
      induction matching as [|m matching IH]; intros w1 evs1 Hf1 Hq1; cbn [for_each].
      * apply sat_ret. unfold after. rewrite app_nil_r. apply fatal_none, Hq1.
      * eapply sat_bind; [apply Hcall| |].
        -- intros [] w2 evs2 Hf2. unfold after.
           pose proof (fatal_errors_Ok_quiet _ _ Hf2) as Hq2.
           eapply sat_conseq.
           ++ apply (IH w2 (evs1 ++ evs2)); [apply fatal_none|];
                apply quiet_app; assumption.
           ++ intros out w' evs3 H. unfold after in *.
              rewrite <- app_assoc in H. exact H.
        -- intros out w2 evs2 Hn Hf2. unfold after.
           apply fatal_errors_app; [exact Hq1|].
           apply fatal_errors_stopped; assumption.
    + apply sat_ret. unfold after. rewrite app_nil_r. apply fatal_none, Hq1.
  - intros out w1 evs1 Hn Hf1. apply fatal_errors_stopped; assumption.
Qed.

(** C8, as amended. A [ClientError] of the existence probe is caught:
    [_is_existing_in_s3] returns [False] and [upload] goes on.  Every
    other error of a remote request is the last request of the run and
    is the exception with which the run ends: the probe's errors of
    another class, and all errors of the requests that follow it in
    [upload] and of the requests of [abort]. *)
Theorem remote_errors_propagate_except_probe_client_error :
  (forall (w : World E) (msg : string) (e' : env_state E),
     env_head_object E (bucket self) (dest_key self) (w_env w)
       = (Raised (ClientError msg), e') ->
     _is_existing_in_s3 self w =
       (Ok false, record (probing self (Some (ClientError msg))) (set_env e' w)))
  /\ (forall (fuel : nat) (w : World E),
        exists err rest,
          w_trace (snd (upload fuel self w)) = w_trace w ++ probing self err :: rest
          /\ every_error_propagates rest (fst (upload fuel self w))
          /\ (forall x, err = Some x -> is_ClientError x = false ->
                        rest = [] /\ fst (upload fuel self w) = Raise x))
  /\ (forall (w : World E),
        exists evs,
          w_trace (snd (abort self w)) = w_trace w ++ evs
          /\ every_error_propagates evs (fst (abort self w))).
Proof.
  split; [|split].
  - intros w msg e' Hhead. unfold _is_existing_in_s3.
    rewrite (s3_call_Raised E _ _ _ _ _ Hhead). reflexivity.
  - intros fuel w.
    destruct (upload_sat E self fuel w) as [evs [Ht [_ [err [rest [-> Herr]]]]]].
    exists err, rest. split; [exact Ht|].
    destruct err as [x|].
    + destruct (is_ClientError x) eqn:Hx.
      * split; [apply fatal_errors_propagate, Herr|].
        intros x' Hx' Hn. inversion Hx'. subst x'. congruence.
      * destruct Herr as [-> Hout]. split.
        -- intros pre ev post x' Hnil. destruct pre; discriminate.
        -- intros x' Hx' _. inversion Hx'. subst x'. auto.
    + destruct Herr as [-> Hout]. split.
      * intros pre ev post x' Hnil. destruct pre; discriminate.
      * intros x' Hx'. discriminate.
  - intros w. destruct (abort_sat w) as [evs [Ht Hf]].
    exists evs. split; [exact Ht|]. apply fatal_errors_propagate, Hf.
Qed.

End Errors.

Lemma remote_errors_propagate_except_probe_client_error_witness :
  _is_existing_in_s3 small_uploader (Scripted.world throttled_probe_script) =
    (Ok false,
     record (probing small_uploader (Some (ClientError "503 SlowDown")))
       (set_env (throttled_probe_script : env_state Scripted.env)
          (Scripted.world throttled_probe_script))).
Proof.
  apply (proj1 (remote_errors_propagate_except_probe_client_error
                  Scripted.env small_uploader)).
  reflexivity.
Defined.

(** C8, counterexample. The specification's statement on errors fails on
    this run of [upload]: the probe raises a [ClientError], the error is
    not the last event, and the run ends normally after six more
    requests. *)
Lemma probe_client_error_is_swallowed :
  let r := upload 1 small_uploader (Scripted.world throttled_probe_script) in
  fst r = Ok tt
  /\ hd_error (w_trace (snd r))
     = Some (probing small_uploader (Some (ClientError "503 SlowDown")))
  /\ List.length (w_trace (snd r)) = 7%nat
  /\ sent_numbers (w_trace (snd r)) = [1; 2; 3]
  /\ completions (w_trace (snd r)) = [[1; 2; 3]]
  /\ ~ every_error_propagates (w_trace (snd r)) (fst r).
Proof.
  intros r. do 5 (split; [vm_compute; reflexivity|]).
  intros H.
  destruct (H [] (probing small_uploader (Some (ClientError "503 SlowDown")))
              (tl (w_trace (snd r))) (ClientError "503 SlowDown")
              eq_refl eq_refl) as [Hpost _].
  vm_compute in Hpost. discriminate.
Qed.

(** A connection failure while a part is sent ends the run at once. *)
Example connection_failure_propagates :
  let r := upload 1 small_uploader (Scripted.world broken_connection_script) in
  fst r = Raise (EnvError "EndpointConnectionError")
  /\ sent_numbers (w_trace (snd r)) = [1; 2]
  /\ completions (w_trace (snd r)) = [].
Proof. vm_compute. auto. Qed.

(** ** Resuming after the sanity check *)

Section Resume.

Variable E : Environment.
Variable self : Uploader.

(** C2. With [existing] the accepted parts sorted by number and [N] their
    count: the numbers of [existing] are [1..N] exactly when the numbers of
    the accepted parts are [1..N] in some order (no gap, no duplicate); the
    sanity check passes if and only if the numbers of [existing] are
    [1..N] and every part but the last of [existing] has size
    [part_size_in_bytes]; which of the two holds is decided.  When it does
    not pass, [_continue_upload] logs the error, makes no request and ends
    with [exit(3)].  When it passes, [_continue_upload] goes on with
    [_upload_parts] from the index [N] and then finalises [existing]
    followed by the new parts.  Of the requests [evs] of the run: the
    parts sent are numbered [N+1, N+2, ..., N+k] in this order, none
    beyond [part_count], so that no part [1..N] is sent again; when parts
    remain ([N < part_count]), the file opens and the read at the offset of
    the part of index [N] has the planned length, the first request is
    the [UploadPart] of part [N+1] with these bytes; and when the run ends
    normally, the requests are exactly the [UploadPart] requests of the
    parts [N+1 .. part_count], in this order, followed by the one
    completion request, which lists [existing] followed by the new parts,
    numbered [N+1 .. part_count]. *)
Theorem continue_upload_validates_dense_prefix
    (upload_ : MultipartUploadInProgress) (ps : list UploadedPart) (w : World E) :
  parts upload_ = Some ps ->
  let existing := sorted_by_number ps in
  let N := List.length existing in
  let chunk_size := part_size_in_bytes self in
  Permutation existing ps
  /\ StronglySorted number_le existing
  /\ (map number existing = one_to N
      <-> Permutation (map number ps) (one_to (List.length ps)))
  /\ (accepted_prefix chunk_size existing \/ ~ accepted_prefix chunk_size existing)
  /\ (sanity_check self N 0 existing w = (Ok tt, w)
      <-> accepted_prefix chunk_size existing)
  /\ (accepted_prefix chunk_size existing ->
        _continue_upload self upload_ w =
          bind (_upload_parts self (Z.of_nat N) (upload_id upload_))
            (fun new_uploaded_parts =>
               _finalize_upload self (existing ++ new_uploaded_parts)
                 (upload_id upload_)) w)
  /\ (~ accepted_prefix chunk_size existing ->
        exists msg,
          is_consistency_error msg
          /\ _continue_upload self upload_ w = (Exit 3, log_line msg w))
  /\ (exists evs k,
        0 <= k
        /\ (k = 0 \/ Z.of_nat N + k <= part_count self)
        /\ w_trace (snd (_continue_upload self upload_ w)) = w_trace w ++ evs
        /\ sent_numbers evs = range (Z.of_nat N + 1) (Z.of_nat N + 1 + k)
        /\ (forall (content : list Byte.byte) (e1 : env_state E),
              accepted_prefix chunk_size existing ->
              Z.of_nat N < part_count self ->
              env_open_file E (w_env w) = (Returned content, e1) ->
              0 <= start_offset self (Z.of_nat N) ->
              len (read_at content (start_offset self (Z.of_nat N)) chunk_size)
                = this_part_size self (Z.of_nat N) ->
              exists err rest,
                evs = sending self (upload_id upload_) (Z.of_nat N)
                        (read_at content (start_offset self (Z.of_nat N)) chunk_size)
                        err :: rest)
        /\ (fst (_continue_upload self upload_ w) = Ok tt ->
              exists sent new_parts,
                evs = sent ++ [completing self (upload_id upload_)
                                 (existing ++ new_parts) None]
                /\ quiet sent
                /\ map part_number_sent sent
                   = map Some (range (Z.of_nat N + 1) (part_count self + 1))
                /\ map number new_parts
                   = range (Z.of_nat N + 1) (part_count self + 1))).
Proof.
  intros Hparts existing N chunk_size.
  split; [apply sorted_by_number_perm|].
  split; [apply sorted_by_number_sorted|].
  split; [apply dense_numbers_iff|].
  destruct (sanity_check_cases E self existing 0 N w eq_refl)
    as [[Hacc Hrun]|[Hrej [msg [Hrun Hmsg]]]].
  - split; [left; exact Hacc|].
    split; [split; [intros _; exact Hacc|intros _; exact Hrun]|].
    assert (Heq : _continue_upload self upload_ w =
                  bind (_upload_parts self (Z.of_nat N) (upload_id upload_))
                    (fun new_uploaded_parts =>
                       _finalize_upload self (existing ++ new_uploaded_parts)
                         (upload_id upload_)) w).
    { unfold _continue_upload. rewrite Hparts. fold existing. fold N.
      rewrite (bind_Ok E _ _ w tt w Hrun). reflexivity. }
    split; [intros _; exact Heq|]. split; [intros Hn; contradiction|].
    rewrite Heq. unfold bind.
    destruct (_upload_parts self (Z.of_nat N) (upload_id upload_) w)
      as [out1 w1] eqn:Hup.
    destruct (sat_run E _ w _ out1 w1 Hup
                (upload_parts_sat E self (upload_id upload_) (Z.of_nat N) w))
      as [evs1 [Ht1 [_ [_ [k [Hk0 [Hk1 [Hsent _]]]]]]]].
    assert (Hfirst : forall (content : list Byte.byte) (e1 : env_state E),
              Z.of_nat N < part_count self ->
              env_open_file E (w_env w) = (Returned content, e1) ->
              0 <= start_offset self (Z.of_nat N) ->
              len (read_at content (start_offset self (Z.of_nat N)) chunk_size)
                = this_part_size self (Z.of_nat N) ->
              exists err rest,
                evs1 = sending self (upload_id upload_) (Z.of_nat N)
                         (read_at content (start_offset self (Z.of_nat N)) chunk_size)
                         err :: rest).
    { intros content e1 Hlt Hopen Hoff Hlen.
      destruct (upload_parts_first_request E self (upload_id upload_) (Z.of_nat N) w
                  content e1 Hlt Hopen Hoff Hlen) as [err [rest Hreq]].
      rewrite Hup in Hreq. cbn [snd] in Hreq. rewrite Ht1 in Hreq.
      apply app_inv_head in Hreq. exists err, rest. exact Hreq. }
    destruct out1 as [new_parts|e|c|].
    + destruct (env_complete_multipart_upload E (bucket self) (dest_key self)
                  (upload_id upload_)
                  (map (fun part => (number part, etag part)) (existing ++ new_parts))
                  (w_env w1)) as [reply e'] eqn:Hreply.
      rewrite (finalize_upload_run E self _ _ w1 reply e' Hreply).
      cbn [fst snd w_trace].
      exists (evs1 ++ [completing self (upload_id upload_) (existing ++ new_parts)
                         (error_of_reply reply)]), k.
      split; [exact Hk0|]. split; [exact Hk1|].
      split; [rewrite Ht1, <- app_assoc; reflexivity|].
      split.
      { rewrite sent_numbers_app, (proj1 (only_parts_sent _ _ Hsent)).
        rewrite (proj2 (completions_completing self _ _ _)), app_nil_r.
        reflexivity. }
      split.
      { intros content e1 _ Hlt Hopen Hoff Hlen.
        destruct (Hfirst content e1 Hlt Hopen Hoff Hlen) as [err [rest ->]].
        exists err. eexists. cbn [app]. reflexivity. }
      intros Hok.
      destruct (upload_parts_Ok E self (upload_id upload_) (Z.of_nat N) w w1
                  new_parts Hup) as [evs1' [Ht1' [Hq [Hall [Hnum _]]]]].
      rewrite Ht1 in Ht1'. apply app_inv_head in Ht1'. subst evs1'.
      exists evs1, new_parts.
      destruct reply as [[]|x]; [|discriminate].
      split; [reflexivity|]. split; [exact Hq|]. split; [exact Hall|exact Hnum].
    + cbn [fst snd]. exists evs1, k.
      split; [exact Hk0|]. split; [exact Hk1|]. split; [exact Ht1|].
      split; [apply (only_parts_sent _ _ Hsent)|].
      split; [intros content e1 _; apply Hfirst|discriminate].
    + cbn [fst snd]. exists evs1, k.
      split; [exact Hk0|]. split; [exact Hk1|]. split; [exact Ht1|].
      split; [apply (only_parts_sent _ _ Hsent)|].
      split; [intros content e1 _; apply Hfirst|discriminate].
    + cbn [fst snd]. exists evs1, k.
      split; [exact Hk0|]. split; [exact Hk1|]. split; [exact Ht1|].
      split; [apply (only_parts_sent _ _ Hsent)|].
      split; [intros content e1 _; apply Hfirst|discriminate].
  - split; [right; exact Hrej|].
    split; [split; [intros H; rewrite Hrun in H; discriminate
                   |intros H; contradiction]|].
    split; [intros H; contradiction|].
    assert (Hexit : _continue_upload self upload_ w = (Exit 3, log_line msg w)).
    { unfold _continue_upload. rewrite Hparts. fold existing. fold N.
      rewrite (bind_Exit E _ _ w 3 _ Hrun). reflexivity. }
    split; [intros _; exists msg; auto|].
    exists [], 0. rewrite Hexit. cbn [fst snd log_line w_trace].
    rewrite app_nil_r, range_empty by lia.
    split; [lia|]. split; [left; reflexivity|]. split; [reflexivity|].
    split; [reflexivity|].
    split; [intros content e1 Hacc; contradiction|discriminate].
Qed.

End Resume.

(** Scenario B, the parts 1, 2 and 4: the resume is refused.  Scenario C,
    the parts 1, 2 and 3 of a plan of four: the resume sends part 4, the
    last two bytes of the file, and completes the upload with the parts
    1 to 4. *)
Lemma continue_upload_validates_dense_prefix_witness :
  (exists msg,
     is_consistency_error msg
     /\ _continue_upload scenario_A_uploader scenario_B_upload
          (Scripted.world scenario_C_script)
        = (Exit 3, log_line msg (Scripted.world scenario_C_script)))
  /\ (exists evs,
        w_trace (snd (_continue_upload four_part_uploader scenario_C_upload
                        (Scripted.world scenario_C_script))) = evs
        /\ (exists err rest,
              evs = sending four_part_uploader "id1" 3 [Byte.x61; Byte.x61] err :: rest)
        /\ exists sent new_parts,
             evs = sent ++ [completing four_part_uploader "id1"
                              ([Scripted.part 1 4 "e1"; Scripted.part 2 4 "e2";
                                Scripted.part 3 4 "e3"] ++ new_parts) None]
             /\ quiet sent
             /\ map part_number_sent sent = [Some 4]
             /\ map number new_parts = [4]).
Proof.
  split.
  - apply (continue_upload_validates_dense_prefix Scripted.env scenario_A_uploader
             scenario_B_upload
             [Scripted.part 4 MiB5 "e4"; Scripted.part 1 MiB5 "e1";
              Scripted.part 2 MiB5 "e2"]
             (Scripted.world scenario_C_script) eq_refl).
    intros [Hnum _]. vm_compute in Hnum. discriminate.
  - destruct (continue_upload_validates_dense_prefix Scripted.env four_part_uploader
                scenario_C_upload
                [Scripted.part 2 4 "e2"; Scripted.part 1 4 "e1"; Scripted.part 3 4 "e3"]
                (Scripted.world scenario_C_script) eq_refl)
      as [_ [_ [_ [_ [_ [_ [_ [evs [k [_ [_ [Ht [_ [Hfirst Hok]]]]]]]]]]]]]].
    exists evs. split; [exact Ht|]. split.
    + destruct (Hfirst fourteen_bytes
                  (snd (env_open_file Scripted.env
                          (w_env (Scripted.world scenario_C_script)))))
        as [err [rest Hreq]].
      * split; [reflexivity|repeat constructor].
      * reflexivity.
      * reflexivity.
      * discriminate.
      * reflexivity.
      * exists err, rest. exact Hreq.
    + destruct (Hok eq_refl) as [sent [new_parts Hrun]].
      exists sent, new_parts. exact Hrun.
Defined.

Example scenario_B_gap :
  let r := _continue_upload scenario_A_uploader scenario_B_upload
             (Scripted.world scenario_C_script) in
  fst r = Exit 3
  /\ w_log (snd r) = [ErrIncorrectPartNumber 4]
  /\ w_trace (snd r) = [].
Proof. vm_compute. auto. Qed.

Example scenario_C_resume :
  let r := _continue_upload four_part_uploader scenario_C_upload
             (Scripted.world scenario_C_script) in
  fst r = Ok tt
  /\ sent_numbers (w_trace (snd r)) = [4]
  /\ completions (w_trace (snd r)) = [[1; 2; 3; 4]]
  /\ w_log (snd r) = [].
Proof. vm_compute. auto. Qed.

(** ** Short reads *)

Section ShortRead.

Variable E : Environment.
Variable self : Uploader.
Variable upload_id_ : string.

Lemma for_each_app {A S} (xs ys : list A) (body : A -> S -> M E S) :
  forall (acc : S) (w : World E),
    for_each (xs ++ ys) body acc w
    = bind (for_each xs body acc) (for_each ys body) w.
Proof.
  induction xs as [|x xs IH]; intros acc w; cbn [app for_each].
  - reflexivity.
  - unfold bind. destruct (body x acc w) as [[acc'| | |] w']; try reflexivity.
    rewrite IH. reflexivity.
Qed.

Lemma short_read_raises (i : Z) (acc : list UploadedPart) (w : World E)
    (content : list Byte.byte) (e1 : env_state E) :
  env_open_file E (w_env w) = (Returned content, e1) ->
  0 <= start_offset self i ->
  len (read_at content (start_offset self i) (part_size_in_bytes self))
    < this_part_size self i ->
  upload_one_part self upload_id_ i acc w =
    (Raise (ReadSizeError (this_part_size self i)
              (len (read_at content (start_offset self i)
                      (part_size_in_bytes self)))),
     set_env e1 w).
Proof.
  intros Hopen Hoff Hshort.
  unfold upload_one_part, bind, local_call, seek_read. rewrite Hopen.
  destruct (Z.ltb_spec (start_offset self i) 0) as [Hneg|_]; [lia|].
  cbn [ret].
  destruct (Z.eqb_spec
              (len (read_at content (start_offset self i) (part_size_in_bytes self)))
              (this_part_size self i)) as [Heq|_]; [lia|].
  reflexivity.
Qed.

(** C9. When the bytes read for a part are fewer than the size computed
    for it, the turn of the loop raises the read-size exception without
    sending the part; and in [_upload_parts], once the parts [before]
    were sent, the whole transfer ends with that exception in the world
    in which the failed read left it: no request for this part or a
    later one is made and the file is not read again. *)
Theorem short_read_stops_transfer :
  (forall (i : Z) (acc : list UploadedPart) (w : World E)
          (content : list Byte.byte) (e1 : env_state E),
     env_open_file E (w_env w) = (Returned content, e1) ->
     0 <= start_offset self i ->
     len (read_at content (start_offset self i) (part_size_in_bytes self))
       < this_part_size self i ->
     upload_one_part self upload_id_ i acc w =
       (Raise (ReadSizeError (this_part_size self i)
                 (len (read_at content (start_offset self i)
                         (part_size_in_bytes self)))),
        set_env e1 w))
  /\ (forall (start_index : Z) (w0 : World E) (before later : list Z) (i : Z)
             (acc : list UploadedPart) (w : World E)
             (content : list Byte.byte) (e1 : env_state E),
        0 <= start_index ->
        range start_index (part_count self) = before ++ i :: later ->
        for_each before (upload_one_part self upload_id_) []
          (set_meter (fresh_meter self start_index) w0) = (Ok acc, w) ->
        env_open_file E (w_env w) = (Returned content, e1) ->
        0 <= start_offset self i ->
        len (read_at content (start_offset self i) (part_size_in_bytes self))
          < this_part_size self i ->
        _upload_parts self start_index upload_id_ w0 =
          (Raise (ReadSizeError (this_part_size self i)
                    (len (read_at content (start_offset self i)
                            (part_size_in_bytes self)))),
           set_env e1 w)).
Proof.
  split; [exact short_read_raises|].
  intros start_index w0 before later i acc w content e1
         Hstart Hrange Hbefore Hopen Hoff Hshort.
  unfold _upload_parts, with_ProgressMeter. fold (fresh_meter self start_index).
  rewrite Hrange, for_each_app.
  rewrite (bind_Ok E _ _ _ _ _ Hbefore). cbn [for_each].
  rewrite (bind_Raise E _ _ _ _ _
             (short_read_raises i acc w content e1 Hopen Hoff Hshort)).
  assert (Hm : meter_ok (w_meter (set_env e1 w))).
  { cbn [set_env w_meter].
    destruct (sat_run E _ _ _ _ _ Hbefore
                (for_each_parts_sat E self upload_id_ before []
                   (set_meter (fresh_meter self start_index) w0)))
      as [evs [_ [_ [_ [_ [Hmeter _]]]]]].
    apply Hmeter. unfold meter_ok. cbn.
    assert (Hin : In i (range start_index (part_count self))).
    { rewrite Hrange. apply in_or_app. right. left. reflexivity. }
    apply in_range in Hin.
    assert (Hfirst : start_index < part_count self) by lia. lia. }
  rewrite (log_status_meter_ok E _ Hm). reflexivity.
Qed.

End ShortRead.

Lemma short_read_stops_transfer_witness :
  _upload_parts small_uploader 0 "id1" (Scripted.world shrinking_file_script) =
    (Raise (ReadSizeError 4 2),
     {| w_env := Scripted.set_upload_part [Returned "e2"%string]
                   (Scripted.set_open_file [Returned (firstn 6 ten_bytes)]
                      shrinking_file_script) : env_state Scripted.env;
        w_trace := [sending small_uploader "id1" 0 (firstn 4 ten_bytes) None];
        w_log := [];
        w_meter := {| pm_limit := 3; pm_initial := 0; pm_current := 1 |} |}).
Proof.
  apply (proj2 (short_read_stops_transfer Scripted.env small_uploader "id1")
           0 (Scripted.world shrinking_file_script) [0] [2] 1
           [acknowledged small_uploader 0 "e1"]
           {| w_env := Scripted.set_upload_part [Returned "e2"%string]
                         (Scripted.set_open_file [Returned (firstn 6 ten_bytes)]
                            shrinking_file_script) : env_state Scripted.env;
              w_trace := [sending small_uploader "id1" 0 (firstn 4 ten_bytes) None];
              w_log := [];
              w_meter := {| pm_limit := 3; pm_initial := 0; pm_current := 1 |} |}
           (firstn 6 ten_bytes)).
  - lia.
  - reflexivity.
  - reflexivity.
  - reflexivity.
  - vm_compute. discriminate.
  - vm_compute. reflexivity.
Defined.

(** ** The empty file *)

Section EmptyFile.

Variable E : Environment.
Variable self : Uploader.

Lemma upload_parts_without_parts (id : string) (w : World E) :
  part_count self = 0 ->
  _upload_parts self 0 id w =
    (Raise ZeroDivisionError, set_meter (fresh_meter self 0) w).
Proof.
  intros Hcount. unfold _upload_parts, with_ProgressMeter.
  fold (fresh_meter self 0). rewrite Hcount, range_empty by lia.
  cbn [for_each ret].
  rewrite (log_status_no_limit E); [reflexivity|exact Hcount].
Qed.

(** C10 on the code. The plan of an empty file has no part:
    [_determine_part_count] returns the part size 5 MiB and the count 0
    without an error.  With that plan, an object that is not in the
    bucket and no upload in progress, [upload] creates the upload, sends
    no part, and ends with [ZeroDivisionError], raised by [log_status]
    when the progress meter of limit 0 is left: the completion request is
    never made. *)
Theorem empty_file_upload_raises_before_finalize
    (fuel : nat) (w : World E) (msg : string) (e1 e2 e3 : env_state E)
    (response : ListUploadsResponse) (id : string) :
  part_count self = 0 ->
  env_head_object E (bucket self) (dest_key self) (w_env w)
    = (Raised (ClientError msg), e1) ->
  env_list_multipart_uploads E (bucket self) e1 = (Returned response, e2) ->
  matching_sessions (dest_key self) (args_upload_id self) (listed_sessions response)
    = [] ->
  truthy (args_upload_id self) = false ->
  env_create_multipart_upload E (bucket self) (dest_key self) [] e2
    = (Returned id, e3) ->
  _determine_part_count None 0 w = (Ok (MIN_REQUIRED_PART_SIZE_S3, 0), w)
  /\ upload fuel self w =
       (Raise ZeroDivisionError,
        {| w_env := e3;
           w_trace := w_trace w ++
                      [probing self (Some (ClientError msg));
                       {| ev_request := ListMultipartUploads (bucket self);
                          ev_raised := None |};
                       {| ev_request := CreateMultipartUpload (bucket self)
                                          (dest_key self) [];
                          ev_raised := None |}];
           w_log := w_log w;
           w_meter := fresh_meter self 0 |}).
Proof.
  intros Hcount Hhead Hlist Hnone Hid Hcreate.
  split; [reflexivity|].
  unfold upload.
  assert (Hprobe : _is_existing_in_s3 self w =
                   (Ok false, record (probing self (Some (ClientError msg)))
                                (set_env e1 w))).
  { unfold _is_existing_in_s3. rewrite (s3_call_Raised E _ _ _ _ _ Hhead).
    reflexivity. }
  rewrite (bind_Ok E _ _ _ _ _ Hprobe).
  set (w1 := record (probing self (Some (ClientError msg))) (set_env e1 w)).
  destruct (check_existing_uploads_disambiguates E fuel self w1 response e2 Hlist)
    as [_ [Hfresh _]].
  rewrite (bind_Ok E _ _ _ _ _ (Hfresh Hnone Hid)). cbn [bind ret].
  set (w2 := record {| ev_request := ListMultipartUploads (bucket self);
                       ev_raised := None |} (set_env e2 w1)).
  assert (Hc : _create_multipart_upload self w2 =
               (Ok id, record {| ev_request := CreateMultipartUpload (bucket self)
                                                 (dest_key self) [];
                                 ev_raised := None |} (set_env e3 w2))).
  { unfold _create_multipart_upload. apply s3_call_Returned. exact Hcreate. }
  rewrite (bind_Ok E _ _ _ _ _ Hc).
  rewrite (bind_Raise E _ _ _ _ _ (upload_parts_without_parts id _ Hcount)).
  unfold w2, w1, record, set_env, set_meter. cbn.
  rewrite <- !app_assoc. reflexivity.
Qed.

End EmptyFile.

Lemma empty_file_upload_raises_before_finalize_witness :
  _determine_part_count None 0 (Scripted.world empty_file_script)
    = (Ok (5242880, 0), Scripted.world empty_file_script)
  /\ upload 1 empty_file_uploader (Scripted.world empty_file_script) =
       (Raise ZeroDivisionError,
        {| w_env := empty_file_script : env_state Scripted.env;
           w_trace := [probing empty_file_uploader (Some (ClientError "404"));
                       {| ev_request := ListMultipartUploads "b"; ev_raised := None |};
                       {| ev_request := CreateMultipartUpload "b" "k" [];
                          ev_raised := None |}];
           w_log := [];
           w_meter := {| pm_limit := 0; pm_initial := 0; pm_current := 0 |} |}).
Proof.
  apply (empty_file_upload_raises_before_finalize Scripted.env empty_file_uploader 1
           (Scripted.world empty_file_script) "404"
           empty_file_script empty_file_script empty_file_script
           {| r_Uploads := None |} "id1");
    reflexivity.
Defined.

(** The uploader that [__init__] builds for the empty file, and its run. *)
Example empty_file_from_init :
  let r := bind (__init__ "b" "k" None "" false false 0) (upload 1)
             (Scripted.world empty_file_script) in
  fst r = Raise ZeroDivisionError
  /\ completions (w_trace (snd r)) = []
  /\ List.length (w_trace (snd r)) = 3%nat.
Proof. vm_compute. auto. Qed.

(** ** The part planner *)

(** Scenario A: 12 000 000 bytes, no part size given. *)
Example scenario_A_plan :
  fst (_determine_part_count None 12000000 (Scripted.world empty_file_script))
    = Ok (5242880, 3)
  /\ this_part_size scenario_A_uploader 2 = 12000000 mod 5242880.
Proof. vm_compute. auto. Qed.

(** C1 on the code. For the file size [10000 * 2^40 + 1] and no part size,
    [math.ceil(filesize / 10000)] is computed on doubles: the quotient
    [2^40 + 0.0001] rounds to [2^40], so the part size is [2^40] and not the
    ceiling [2^40 + 1]; the part count is then [math.ceil] of a quotient
    that rounds to 10000, where the ceiling of [filesize / 2^40] is 10001,
    above the limit.  The planner reports no error and its 10000 parts of
    [2^40] bytes do not cover the file. *)
Theorem determine_part_count_rounds_huge_file :
  fst (_determine_part_count None huge_file_size (Scripted.world empty_file_script))
    = Ok (2 ^ 40, 10000)
  /\ Z.max (PyNum.exact_ceil huge_file_size MAX_ALLOWED_PART_COUNT_S3)
           MIN_REQUIRED_PART_SIZE_S3 = 2 ^ 40 + 1
  /\ PyNum.exact_ceil huge_file_size (2 ^ 40) = 10001
  /\ MAX_ALLOWED_PART_COUNT_S3 < PyNum.exact_ceil huge_file_size (2 ^ 40)
  /\ 10000 * 2 ^ 40 < huge_file_size.
Proof. vm_compute. repeat split; congruence. Qed.

(** ** More on true division: signs and the absence of NaN *)

Section Binary64Signed.

Lemma binary_round_aux_not_nan (sx : bool) (mx ex : Z) (lx : location) :
  0 <= mx -> binary_round_aux 53 1024 sx mx ex lx <> S754_nan.
Proof.
  intros Hm. unfold binary_round_aux, shr_fexp.
  set (n1 := fexp 53 1024 (Zdigits2 mx + ex) - ex).
  destruct (shr_m_e (shr_record_of_loc mx lx) ex n1) as [Hm1 _];
    [rewrite shr_record_of_loc_m; exact Hm|].
  rewrite shr_record_of_loc_m in Hm1.
  destruct (shr (shr_record_of_loc mx lx) ex n1) as [mrs' e'].
  cbn [fst snd] in Hm1.
  set (m1 := round_nearest_even (shr_m mrs') (loc_of_shr_record mrs')).
  pose proof (round_nearest_even_bounds (shr_m mrs') (loc_of_shr_record mrs'))
    as Hr. fold m1 in Hr.
  assert (H0 : 0 <= shr_m mrs').
  { rewrite Hm1. apply Z.div_pos; [exact Hm|apply Z.pow_pos_nonneg; lia]. }
  set (n2 := fexp 53 1024 (Zdigits2 m1 + e') - e').
  destruct (shr_m_e (shr_record_of_loc m1 loc_Exact) e' n2) as [Hm2 _];
    [rewrite shr_record_of_loc_m; lia|].
  rewrite shr_record_of_loc_m in Hm2.
  destruct (shr (shr_record_of_loc m1 loc_Exact) e' n2) as [mrs'' e''].
  cbn [fst snd] in Hm2.
  assert (H2 : 0 <= shr_m mrs'').
  { rewrite Hm2. apply Z.div_pos; [lia|apply Z.pow_pos_nonneg; lia]. }
  destruct (shr_m mrs'') as [|p|p]; cbn; try discriminate; [|lia].
  destruct (e'' <=? 971); discriminate.
Qed.

Lemma SFdiv_core_binary_nonneg (a b : positive) :
  let '(q, _, _) := SFdiv_core_binary 53 1024 (Zpos a) 0 (Zpos b) 0 in 0 <= q.
Proof.
  unfold SFdiv_core_binary.
  set (e' := Z.min (fexp 53 1024 (Zdigits2 (Zpos a) + 0 - (Zdigits2 (Zpos b) + 0)))
               (0 - 0)).
  set (s := 0 - 0 - e').
  set (m' := match s with
             | Zpos _ => Z.shiftl (Zpos a) s
             | Z0 => Zpos a
             | Zneg _ => 0
             end).
  assert (Hm' : 0 <= m').
  { unfold m'. destruct s as [|p|p]; [lia| |lia].
    apply Z.shiftl_nonneg. lia. }
  assert (Hq : fst (Z.div_eucl m' (Zpos b)) = m' / Zpos b) by reflexivity.
  destruct (Z.div_eucl m' (Zpos b)) as [q r]. cbn [fst] in Hq.
  rewrite Hq. apply Z.div_pos; lia.
Qed.

(** The quotient of two integers is never a NaN. *)
Lemma true_div_not_nan (a b : Z) : PyNum.true_div a b <> Raise ValueError.
Proof.
  unfold PyNum.true_div. destruct (Z.eqb_spec b 0) as [|Hb]; [discriminate|].
  destruct a as [|pa|pa], b as [|pb|pb]; try contradiction;
    cbn [PyNum.Z2SF SFdiv xorb];
    first [ discriminate
          | unfold PyNum.prec, PyNum.emax;
            pose proof (SFdiv_core_binary_nonneg pa pb) as Hq;
            destruct (SFdiv_core_binary 53 1024 (Zpos pa) 0 (Zpos pb) 0)
              as [[q e'] l];
            match goal with
            | |- context [binary_round_aux 53 1024 ?s q e' l] =>
                pose proof (binary_round_aux_not_nan s q e' l Hq) as Hn;
                destruct (binary_round_aux 53 1024 s q e' l)
            end; congruence ].
Qed.

(** [math.ceil(a / b)] is a number, or the quotient overflows, or [b] is
    zero. *)
Lemma ceil_div_cases (a b : Z) :
  (exists c, PyNum.ceil_div a b = Ok c)
  \/ (b <> 0 /\ PyNum.ceil_div a b = Raise OverflowError)
  \/ (b = 0 /\ PyNum.ceil_div a b = Raise ZeroDivisionError).
Proof.
  unfold PyNum.ceil_div.
  pose proof (true_div_not_nan a b) as Hn.
  unfold PyNum.true_div in *.
  destruct (Z.eqb_spec b 0) as [Hb|Hb]; [right; right; auto|].
  destruct (SFdiv PyNum.prec PyNum.emax (PyNum.Z2SF a) (PyNum.Z2SF b))
    as [s|s| |s m e]; cbn [PyNum.math_ceil].
  - left. eexists. reflexivity.
  - right. left. auto.
  - congruence.
  - left. eexists. reflexivity.
Qed.

(** The quotient of two integers of any sign is a double when the
    dividend is at most [2^k] times the divisor in absolute value. *)
Lemma true_div_defined_signed (a b k : Z) :
  b <> 0 -> 0 <= k <= 990 -> Z.abs a <= 2 ^ k * Z.abs b ->
  exists f, PyNum.true_div a b = Ok f /\ is_finite_or_zero f.
Proof.
  intros Hb Hk Hab. unfold PyNum.true_div.
  destruct (Z.eqb_spec b 0) as [->|_]; [lia|].
  destruct a as [|pa|pa], b as [|pb|pb]; try lia;
    cbn [PyNum.Z2SF SFdiv xorb];
    first [ eexists; split; [reflexivity|exact I]
          | unfold PyNum.prec, PyNum.emax;
            pose proof (SFdiv_core_binary_bounds pa pb k ltac:(lia) Hab) as Hcore;
            destruct (SFdiv_core_binary 53 1024 (Zpos pa) 0 (Zpos pb) 0)
              as [[q e'] l];
            destruct Hcore as [Hq [He Hd]];
            match goal with
            | |- context [binary_round_aux 53 1024 ?s q e' l] =>
                pose proof (binary_round_aux_finite s q e' l Hq He ltac:(lia))
                  as Hfin;
                destruct (binary_round_aux 53 1024 s q e' l) as [s0|s0| |s0 m e]
            end; try contradiction; eexists; split; reflexivity ].
Qed.

Lemma ceil_div_defined_signed (a b k : Z) :
  b <> 0 -> 0 <= k <= 990 -> Z.abs a <= 2 ^ k * Z.abs b ->
  exists c, PyNum.ceil_div a b = Ok c.
Proof.
  intros Hb Hk Hab. unfold PyNum.ceil_div.
  destruct (true_div_defined_signed a b k Hb Hk Hab) as [f [Hf Hfin]].
  rewrite Hf. destruct f; try contradiction; eexists; reflexivity.
Qed.

End Binary64Signed.

(** ** The planner: totality, decisions and limits *)

Section PlannerMore.

Variable E : Environment.

Lemma init_run (bucket_ dest_key_ upload_id_ : string) (all_ list_ : bool)
    (part_size : option Z) (F : Z) (w : World E) :
  __init__ bucket_ dest_key_ part_size upload_id_ all_ list_ F w =
    match _determine_part_count part_size F w with
    | (Ok plan, w') =>
        (Ok {| bucket := bucket_; dest_key := dest_key_;
               part_size_in_bytes := fst plan; filesize := F;
               part_count := snd plan; args_upload_id := upload_id_;
               args_all := all_; args_list := list_ |}, w')
    | (Raise e, w') => (Raise e, w')
    | (Exit c, w') => (Exit c, w')
    | (OutOfFuel, w') => (OutOfFuel, w')
    end.
Proof.
  unfold __init__, bind.
  destruct (_determine_part_count part_size F w) as [[plan|e|c|] w']; reflexivity.
Qed.

(** X1. Without [--part-size] (or with [--part-size 0], which Python
    reads as unset) the constructor of the uploader never fails on a file
    below [2^53] bytes: it logs nothing and plans parts of
    [max(ceil(F / 10000), 5 MiB)] bytes, at most 10000 of them, whose
    sizes sum to the size of the file. *)
Theorem init_without_part_size_plans_whole_file
    (bucket_ dest_key_ upload_id_ : string) (all_ list_ : bool)
    (part_size : option Z) (F : Z) (w : World E) :
  0 <= F < 2 ^ 53 ->
  part_size = None \/ part_size = Some 0 ->
  exists self,
    __init__ bucket_ dest_key_ part_size upload_id_ all_ list_ F w = (Ok self, w)
    /\ bucket self = bucket_ /\ dest_key self = dest_key_ /\ filesize self = F
    /\ part_size_in_bytes self =
         Z.max (PyNum.exact_ceil F MAX_ALLOWED_PART_COUNT_S3) MIN_REQUIRED_PART_SIZE_S3
    /\ part_count self = PyNum.exact_ceil F (part_size_in_bytes self)
    /\ 0 <= part_count self <= MAX_ALLOWED_PART_COUNT_S3
    /\ total_size (map (this_part_size self) (range 0 (part_count self))) = F.
Proof.
  intros HF Hps.
  destruct (determine_part_count_exact_below_2p53 E F w HF)
    as [Hnone [Hzero [Hplan _]]].
  set (cs := Z.max (PyNum.exact_ceil F MAX_ALLOWED_PART_COUNT_S3)
               MIN_REQUIRED_PART_SIZE_S3) in *.
  set (self := {| bucket := bucket_; dest_key := dest_key_;
                  part_size_in_bytes := cs; filesize := F;
                  part_count := PyNum.exact_ceil F cs;
                  args_upload_id := upload_id_;
                  args_all := all_; args_list := list_ |}).
  exists self. rewrite init_run.
  assert (Hrun : _determine_part_count part_size F w
                 = (Ok (cs, PyNum.exact_ceil F cs), w))
    by (destruct Hps as [-> | ->]; assumption).
  rewrite Hrun. split; [reflexivity|].
  do 5 (split; [reflexivity|]).
  assert (Hcs : 0 < cs) by (unfold cs, MIN_REQUIRED_PART_SIZE_S3; lia).
  pose proof (exact_ceil_bounds F cs Hcs) as Hb.
  destruct Hplan as [_ [Hmax _]].
  split; [cbn [part_count self]; split; [nia|exact Hmax]|].
  destruct (Z.eq_dec F 0) as [HF0|HF0].
  - assert (Hc0 : PyNum.exact_ceil F cs = 0) by (apply exact_ceil_unique; lia).
    cbn [part_count self]. rewrite Hc0, HF0. reflexivity.
  - apply (sizes_sum_to_filesize self); cbn [filesize part_size_in_bytes part_count self];
      [lia|].
    destruct (determine_part_count_exact_below_2p53 E F w HF) as [_ [_ [Hp _]]].
    exact Hp.
Qed.


(** X3. Any [--part-size] other than 0 that is below 5 MiB, a negative
    one included, is refused with the FATAL line on the part size and
    [exit(1)], for every file size up to [2^990]: the count is computed
    first, but its division neither overflows nor divides by zero. *)
Theorem small_part_size_is_refused (ps F : Z) (w : World E) :
  ps <> 0 -> ps < MIN_REQUIRED_PART_SIZE_S3 -> 0 <= F <= 2 ^ 990 ->
  _determine_part_count (Some ps) F w
    = (Exit 1, log_line (FatalPartSizeTooSmall ps) w).
Proof.
  intros Hnz Hsmall HF. unfold _determine_part_count.
  destruct (Z.eqb_spec ps 0) as [|_]; [contradiction|].
  rewrite bind_ret.
  destruct (ceil_div_defined_signed F ps 990 Hnz ltac:(lia)) as [c Hc].
  { assert (0 < 2 ^ 990) by (apply Z.pow_pos_nonneg; lia). nia. }
  unfold bind at 1. unfold lift. rewrite Hc.
  destruct (Z.ltb_spec ps MIN_REQUIRED_PART_SIZE_S3); [reflexivity|lia].
Qed.

(** X4. Whatever the file size and the [--part-size], the planner makes
    no request and leaves the environment alone, and it ends in one of
    three ways: with a plan whose part size is at least 5 MiB and whose
    part count is at most 10000 (the given size, when one was given), and
    nothing logged; with [exit(1)] after exactly one FATAL line; or with
    the [OverflowError] of a quotient too large for a double.  It never
    divides by zero. *)
Theorem planner_enforces_limits (part_size : option Z) (F : Z) (w w' : World E)
    (out : Outcome (Z * Z)) :
  _determine_part_count part_size F w = (out, w') ->
  w_env w' = w_env w /\ w_trace w' = w_trace w /\ w_meter w' = w_meter w
  /\ match out with
     | Ok (ps, count) =>
         MIN_REQUIRED_PART_SIZE_S3 <= ps /\ count <= MAX_ALLOWED_PART_COUNT_S3
         /\ w_log w' = w_log w
         /\ (forall p, part_size = Some p -> p <> 0 -> ps = p)
     | Exit code =>
         code = 1
         /\ exists ps count,
              w_log w' = w_log w ++ [FatalPartSizeTooSmall ps]
              \/ w_log w' = w_log w ++ [FatalPartCountExceeds count]
     | Raise e => e = OverflowError /\ w_log w' = w_log w
     | OutOfFuel => False
     end.
Proof.
  assert (Hcheck : forall ps, ps <> 0 ->
            forall out w',
            bind (lift (PyNum.ceil_div F ps))
              (fun part_count =>
                 if ps <? MIN_REQUIRED_PART_SIZE_S3
                 then bind (LOG (FatalPartSizeTooSmall ps)) (fun _ => exit 1)
                 else if MAX_ALLOWED_PART_COUNT_S3 <? part_count
                      then bind (LOG (FatalPartCountExceeds part_count))
                             (fun _ => exit 1)
                      else ret (ps, part_count)) w = (out, w') ->
            w_env w' = w_env w /\ w_trace w' = w_trace w /\ w_meter w' = w_meter w
            /\ match out with
               | Ok (ps', count) =>
                   MIN_REQUIRED_PART_SIZE_S3 <= ps'
                   /\ count <= MAX_ALLOWED_PART_COUNT_S3
                   /\ w_log w' = w_log w /\ ps' = ps
               | Exit code =>
                   code = 1
                   /\ exists ps count,
                        w_log w' = w_log w ++ [FatalPartSizeTooSmall ps]
                        \/ w_log w' = w_log w ++ [FatalPartCountExceeds count]
               | Raise e => e = OverflowError /\ w_log w' = w_log w
               | OutOfFuel => False
               end).
  { intros ps Hps out0 w0 Hrun. unfold bind at 1 in Hrun. unfold lift in Hrun.
    destruct (ceil_div_cases F ps) as [[c Hc]|[[_ Hc]|[H0 _]]];
      [| |contradiction]; rewrite Hc in Hrun.
    - destruct (Z.ltb_spec ps MIN_REQUIRED_PART_SIZE_S3).
      + inversion Hrun; subst. simpl. repeat split.
        exists ps, c. left. reflexivity.
      + destruct (Z.ltb_spec MAX_ALLOWED_PART_COUNT_S3 c).
        * inversion Hrun; subst. simpl. repeat split.
          exists ps, c. right. reflexivity.
        * inversion Hrun; subst. simpl. repeat split; auto.
    - inversion Hrun; subst. simpl. repeat split. }
  assert (Hauto : forall out w',
            bind (bind (lift (PyNum.ceil_div F MAX_ALLOWED_PART_COUNT_S3))
                    (fun c => ret (Z.max c MIN_REQUIRED_PART_SIZE_S3)))
              (fun ps =>
                 bind (lift (PyNum.ceil_div F ps))
                   (fun part_count =>
                      if ps <? MIN_REQUIRED_PART_SIZE_S3
                      then bind (LOG (FatalPartSizeTooSmall ps)) (fun _ => exit 1)
                      else if MAX_ALLOWED_PART_COUNT_S3 <? part_count
                           then bind (LOG (FatalPartCountExceeds part_count))
                                  (fun _ => exit 1)
                           else ret (ps, part_count))) w = (out, w') ->
            w_env w' = w_env w /\ w_trace w' = w_trace w /\ w_meter w' = w_meter w
            /\ match out with
               | Ok (ps', count) =>
                   MIN_REQUIRED_PART_SIZE_S3 <= ps'
                   /\ count <= MAX_ALLOWED_PART_COUNT_S3
                   /\ w_log w' = w_log w
               | Exit code =>
                   code = 1
                   /\ exists ps count,
                        w_log w' = w_log w ++ [FatalPartSizeTooSmall ps]
                        \/ w_log w' = w_log w ++ [FatalPartCountExceeds count]
               | Raise e => e = OverflowError /\ w_log w' = w_log w
               | OutOfFuel => False
               end).
  { intros out0 w0 Hrun. unfold bind at 1 2 in Hrun. unfold lift at 1 in Hrun.
    destruct (ceil_div_cases F MAX_ALLOWED_PART_COUNT_S3)
      as [[c Hc]|[[_ Hc]|[H0 _]]]; [| |discriminate H0]; rewrite Hc in Hrun.
    - cbn [ret] in Hrun.
      assert (Hnz : Z.max c MIN_REQUIRED_PART_SIZE_S3 <> 0)
        by (unfold MIN_REQUIRED_PART_SIZE_S3; lia).
      pose proof (Hcheck _ Hnz _ _ Hrun) as [He [Ht [Hm Hout]]].
      split; [exact He|]. split; [exact Ht|]. split; [exact Hm|].
      destruct out0 as [[ps' count]|e|code|]; try exact Hout.
      destruct Hout as [H1 [H2 [H3 _]]]. auto.
    - inversion Hrun; subst. repeat split. }
  intros Hrun. unfold _determine_part_count in Hrun.
  destruct part_size as [ps|].
  - destruct (Z.eqb_spec ps 0) as [->|Hnz].
    + pose proof (Hauto _ _ Hrun) as [He [Ht [Hm Hout]]].
      split; [exact He|]. split; [exact Ht|]. split; [exact Hm|].
      destruct out as [[ps' count]|e|code|]; try exact Hout.
      destruct Hout as [H1 [H2 H3]]. repeat split; auto.
      intros p Hp Hp0. congruence.
    + rewrite bind_ret in Hrun.
      pose proof (Hcheck _ Hnz _ _ Hrun) as [He [Ht [Hm Hout]]].
      split; [exact He|]. split; [exact Ht|]. split; [exact Hm|].
      destruct out as [[ps' count]|e|code|]; try exact Hout.
      destruct Hout as [H1 [H2 [H3 H4]]]. repeat split; auto.
      intros p Hp _. congruence.
  - pose proof (Hauto _ _ Hrun) as [He [Ht [Hm Hout]]].
    split; [exact He|]. split; [exact Ht|]. split; [exact Hm|].
    destruct out as [[ps' count]|e|code|]; try exact Hout.
    destruct Hout as [H1 [H2 H3]]. repeat split; auto.
    intros p Hp. discriminate.
Qed.

End PlannerMore.

(** ** The progress meter: when a report fails *)

Section MeterMore.

Variable E : Environment.

Lemma log_status_defined (w : World E) :
  pm_limit (w_meter w) <> 0 ->
  Z.abs (pm_current (w_meter w)) <= 2 ^ 900 * Z.abs (pm_limit (w_meter w)) ->
  log_status w = (Ok tt, w).
Proof.
  intros Hl Hc. unfold log_status.
  destruct (true_div_defined_signed (100 * pm_current (w_meter w))
              (pm_limit (w_meter w)) 907 Hl ltac:(lia)) as [f [Hf _]].
  { replace 907 with (7 + 900) by lia. rewrite Z.pow_add_r by lia.
    change (2 ^ 7) with 128.
    assert (0 < 2 ^ 900) by (apply Z.pow_pos_nonneg; lia). nia. }
  rewrite Hf. reflexivity.
Qed.

Lemma increment_world (by_ : Z) (w : World E) :
  let w' := snd (increment by_ w) in
  w_trace w' = w_trace w /\ w_log w' = w_log w
  /\ w_env w' = snd (env_status_due E (w_env w))
  /\ pm_limit (w_meter w') = pm_limit (w_meter w)
  /\ pm_initial (w_meter w') = pm_initial (w_meter w)
  /\ pm_current (w_meter w') =
       Z.min (pm_current (w_meter w) + by_) (pm_limit (w_meter w)).
Proof.
  unfold increment, bind, status_due. cbn [w_env set_meter].
  destruct (env_status_due E (w_env w)) as [due e']. cbn [snd].
  destruct due.
  - match goal with
    | |- context [log_status ?x] =>
        pose proof (log_status_world E x) as Hw;
        destruct (log_status x) as [out w2]
    end.
    simpl in Hw. subst w2. destruct out; simpl; auto 10.
  - simpl. auto 10.
Qed.

Lemma increment_outcome (by_ : Z) (w : World E) :
  fst (increment by_ w) =
    if fst (env_status_due E (w_env w))
    then fst (log_status (snd (increment by_ w)))
    else Ok tt.
Proof.
  unfold increment, bind, status_due. cbn [w_env set_meter].
  destruct (env_status_due E (w_env w)) as [due e']. cbn [fst].
  destruct due; [|reflexivity].
  match goal with
  | |- context [log_status ?x] =>
      pose proof (log_status_world E x) as Hw;
      destruct (log_status x) as [out w2] eqn:Hls
  end.
  simpl in Hw. subst w2.
  destruct out; cbn [fst snd]; rewrite Hls; reflexivity.
Qed.


Lemma increment_run (by_ : Z) (w : World E) :
  meter_ok (w_meter w) -> 0 <= by_ ->
  exists w', increment by_ w = (Ok tt, w')
             /\ w_trace w' = w_trace w /\ w_log w' = w_log w
             /\ meter_ok (w_meter w')
             /\ pm_limit (w_meter w') = pm_limit (w_meter w).
Proof.
  intros [Hl Hc] Hby.
  destruct (increment_world by_ w) as [Ht [Hlog [_ [Hlim [_ Hcur]]]]].
  pose proof (increment_outcome by_ w) as Hout.
  destruct (increment by_ w) as [out w'] eqn:Hrun. cbn [fst snd] in *.
  assert (Hok : meter_ok (w_meter w')) by (unfold meter_ok; lia).
  exists w'. rewrite (log_status_meter_ok E w' Hok) in Hout. cbn [fst] in Hout.
  replace out with (Ok tt : Outcome unit)
    by (destruct (fst (env_status_due E (w_env w))); congruence).
  auto.
Qed.

Lemma increment_without_limit (by_ : Z) (w : World E) :
  pm_limit (w_meter w) = 0 ->
  exists out w', increment by_ w = (out, w')
                 /\ (out = Ok tt \/ out = Raise ZeroDivisionError)
                 /\ w_trace w' = w_trace w /\ w_log w' = w_log w
                 /\ pm_limit (w_meter w') = 0.
Proof.
  intros Hl0.
  destruct (increment_world by_ w) as [Ht [Hlog [_ [Hlim [_ _]]]]].
  pose proof (increment_outcome by_ w) as Hout.
  destruct (increment by_ w) as [out w'] eqn:Hrun. cbn [fst snd] in *.
  exists out, w'. split; [reflexivity|].
  rewrite (log_status_no_limit E w') in Hout by congruence.
  cbn [fst] in Hout.
  split; [destruct (fst (env_status_due E (w_env w))); auto|].
  split; [exact Ht|]. split; [exact Hlog|]. congruence.
Qed.

End MeterMore.

(** ** Hashing the file *)

Section Hashing.

Variable E : Environment.
Variable H : Hasher.

Local Abbreviation B := (Z.to_nat BLOCKSIZE_FOR_HASHING).

Lemma block_size_positive : (0 < B)%nat.
Proof. unfold BLOCKSIZE_FOR_HASHING. lia. Qed.

Lemma firstn_nil_inv {A} (n : nat) (l : list A) :
  (0 < n)%nat -> firstn n l = [] -> l = [].
Proof. intros Hn Hf. destruct n; [lia|]. destruct l; [reflexivity|discriminate]. Qed.

Lemma hash_blocks_run (Hs : streaming H) (fuel : nat) :
  forall (unread r : list Byte.byte) (hasher : h_state H) (w : World E),
    meter_ok (w_meter w) ->
    (r = [] -> unread = []) ->
    (List.length r + List.length unread <= fuel)%nat ->
    exists w',
      hash_blocks fuel H unread r hasher w =
        (Ok (match r with
             | [] => hasher
             | _ :: _ => h_update H hasher (r ++ unread)
             end), w')
      /\ w_trace w' = w_trace w /\ w_log w' = w_log w
      /\ meter_ok (w_meter w').
Proof.
  induction fuel as [|fuel IH]; intros unread r hasher w Hm Hr Hlen.
  - destruct r as [|x r]; [|simpl in Hlen; lia].
    exists w. cbn [hash_blocks]. auto.
  - destruct r as [|x r].
    + exists w. cbn [hash_blocks]. auto.
    + cbn [hash_blocks].
      destruct (increment_run E BLOCKSIZE_FOR_HASHING w Hm
                  ltac:(unfold BLOCKSIZE_FOR_HASHING; lia))
        as [w1 [Hinc [Ht1 [Hl1 [Hm1 _]]]]].
      rewrite (bind_Ok E _ _ _ _ _ Hinc).
      pose proof (firstn_skipn B unread) as Hsplit.
      assert (Hlen' : (List.length (firstn B unread)
                       + List.length (skipn B unread) = List.length unread)%nat)
        by (rewrite <- length_app, Hsplit; reflexivity).
      destruct (IH (skipn B unread) (firstn B unread)
                  (h_update H hasher (x :: r)) w1 Hm1) as [w' [Hrun [Ht [Hl Hm']]]].
      { intros Hnil. apply (firstn_nil_inv B unread block_size_positive) in Hnil.
        rewrite Hnil. destruct B; reflexivity. }
      { simpl in Hlen. lia. }
      exists w'. rewrite Hrun.
      split; [|split; [congruence|split; [congruence|exact Hm']]].
      f_equal.
      destruct (firstn B unread) as [|y r'] eqn:Hfirst.
      * apply (firstn_nil_inv B unread block_size_positive) in Hfirst.
        rewrite Hfirst, app_nil_r. reflexivity.
      * rewrite Hs, Hsplit. reflexivity.
Qed.

Lemma hash_blocks_without_limit (fuel : nat) :
  forall (unread r : list Byte.byte) (hasher : h_state H) (w : World E),
    pm_limit (w_meter w) = 0 ->
    (List.length r + List.length unread <= fuel)%nat ->
    exists out w',
      hash_blocks fuel H unread r hasher w = (out, w')
      /\ out <> OutOfFuel
      /\ w_trace w' = w_trace w /\ w_log w' = w_log w
      /\ pm_limit (w_meter w') = 0.
Proof.
  induction fuel as [|fuel IH]; intros unread r hasher w Hm Hlen.
  - destruct r as [|x r]; [|simpl in Hlen; lia].
    exists (Ok hasher), w. cbn [hash_blocks]. repeat split; auto. discriminate.
  - destruct r as [|x r].
    + exists (Ok hasher), w. cbn [hash_blocks]. repeat split; auto. discriminate.
    + cbn [hash_blocks].
      destruct (increment_without_limit E BLOCKSIZE_FOR_HASHING w Hm)
        as [out1 [w1 [Hinc [Hout1 [Ht1 [Hl1 Hm1]]]]]].
      destruct Hout1 as [-> | ->].
      * rewrite (bind_Ok E _ _ _ _ _ Hinc).
        pose proof (firstn_skipn B unread) as Hsplit.
        assert (Hlen' : (List.length (firstn B unread)
                         + List.length (skipn B unread) = List.length unread)%nat)
          by (rewrite <- length_app, Hsplit; reflexivity).
        destruct (IH (skipn B unread) (firstn B unread)
                    (h_update H hasher (x :: r)) w1 Hm1)
          as [out [w' [Hrun [Hout [Ht [Hl Hm']]]]]].
        { simpl in Hlen. lia. }
        exists out, w'. rewrite Hrun. repeat split; auto; congruence.
      * rewrite (bind_Raise E _ _ _ _ _ Hinc).
        exists (Raise ZeroDivisionError), w1. repeat split; auto. discriminate.
Qed.

(** X6. [compute_md5] hashes the whole file: when [stat] reports a
    positive size and the file opens with the bytes [content], the digest
    returned is that of a hasher to which [content] was fed (in blocks of
    1 MiB, which a streaming hasher cannot tell from one block), without
    any request and without any log line. *)
Theorem compute_md5_hashes_whole_file (fuel : nat) (st_size : Z)
    (content : list Byte.byte) (w : World E) (e' : env_state E) :
  streaming H ->
  0 < st_size ->
  env_open_file E (w_env w) = (Returned content, e') ->
  (List.length content <= fuel)%nat ->
  exists w',
    compute_md5 fuel H st_size w =
      (Ok (h_hexdigest H (match content with
                          | [] => h_new H
                          | _ :: _ => h_update H (h_new H) content
                          end)), w')
    /\ w_trace w' = w_trace w /\ w_log w' = w_log w.
Proof.
  intros Hs Hsize Hopen Hfuel. unfold compute_md5.
  assert (Hcall : local_call (env_open_file E) w = (Ok content, set_env e' w))
    by (unfold local_call; rewrite Hopen; reflexivity).
  rewrite (bind_Ok E _ _ _ _ _ Hcall).
  pose proof (firstn_skipn B content) as Hsplit.
  set (w0 := set_meter {| pm_limit := st_size; pm_initial := 0; pm_current := 0 |}
               (set_env e' w)).
  destruct (hash_blocks_run Hs fuel (skipn B content) (firstn B content)
              (h_new H) w0) as [w1 [Hrun [Ht [Hl Hm]]]].
  { unfold meter_ok. simpl. lia. }
  { intros Hnil. apply (firstn_nil_inv B content block_size_positive) in Hnil.
    rewrite Hnil. destruct B; reflexivity. }
  { rewrite <- length_app, Hsplit. exact Hfuel. }
  assert (Hwith : with_ProgressMeter 0 st_size
                    (hash_blocks fuel H (skipn B content) (firstn B content)
                       (h_new H)) (set_env e' w)
                  = (Ok (match content with
                         | [] => h_new H
                         | _ :: _ => h_update H (h_new H) content
                         end), w1)).
  { unfold with_ProgressMeter. fold w0. rewrite Hrun.
    rewrite (log_status_meter_ok E w1 Hm). f_equal. f_equal.
    destruct (firstn B content) as [|y r'] eqn:Hfirst.
    - apply (firstn_nil_inv B content block_size_positive) in Hfirst.
      rewrite Hfirst. reflexivity.
    - rewrite Hsplit. destruct content; [discriminate Hsplit|reflexivity]. }
  rewrite (bind_Ok E _ _ _ _ _ Hwith).
  exists w1. split; [reflexivity|]. split; [rewrite Ht|rewrite Hl]; reflexivity.
Qed.

(** X7. On a file for which [stat] reports the size 0, [compute_md5]
    raises [ZeroDivisionError]: the progress meter is created with the
    limit 0 and its report on leaving the [with] block divides by the
    limit.  No digest is returned, whatever the file holds when it is
    opened. *)
Theorem compute_md5_of_empty_file_raises (fuel : nat)
    (content : list Byte.byte) (w : World E) (e' : env_state E) :
  env_open_file E (w_env w) = (Returned content, e') ->
  (List.length content <= fuel)%nat ->
  exists w',
    compute_md5 fuel H 0 w = (Raise ZeroDivisionError, w')
    /\ w_trace w' = w_trace w /\ w_log w' = w_log w.
Proof.
  intros Hopen Hfuel. unfold compute_md5.
  assert (Hcall : local_call (env_open_file E) w = (Ok content, set_env e' w))
    by (unfold local_call; rewrite Hopen; reflexivity).
  rewrite (bind_Ok E _ _ _ _ _ Hcall).
  pose proof (firstn_skipn B content) as Hsplit.
  set (w0 := set_meter {| pm_limit := 0; pm_initial := 0; pm_current := 0 |}
               (set_env e' w)).
  destruct (hash_blocks_without_limit fuel (skipn B content) (firstn B content)
              (h_new H) w0) as [out [w1 [Hrun [Hout [Ht [Hl Hm]]]]]].
  { reflexivity. }
  { rewrite <- length_app, Hsplit. exact Hfuel. }
  assert (Hwith : with_ProgressMeter 0 0
                    (hash_blocks fuel H (skipn B content) (firstn B content)
                       (h_new H)) (set_env e' w)
                  = (Raise ZeroDivisionError, w1)).
  { unfold with_ProgressMeter. fold w0. rewrite Hrun.
    rewrite (log_status_no_limit E w1 Hm).
    destruct out; try reflexivity. congruence. }
  rewrite (bind_Raise E _ _ _ _ _ Hwith).
  exists w1. split; [reflexivity|]. split; [rewrite Ht|rewrite Hl]; reflexivity.
Qed.

End Hashing.

(** ** The requests of [abort] *)

Section AbortRequests.

Variable E : Environment.
Variable self : Uploader.

Lemma matching_upload_ids (response : ListUploadsResponse) :
  map upload_id (uploads_matching_key self response) = ids_for_key self response.
Proof.
  unfold uploads_matching_key, ids_for_key, listed_sessions.
  rewrite map_map. reflexivity.
Qed.

Lemma abort_each (ups : list MultipartUploadInProgress) :
  forall w : World E,
    let run := for_each ups
                 (fun mpupload (_ : unit) =>
                    s3_call (AbortMultipartUpload (bucket self) (dest_key self)
                               (upload_id mpupload))
                      (env_abort_multipart_upload E (bucket self) (dest_key self)
                         (upload_id mpupload))) tt w in
    exists done failed,
      w_trace (snd run) = w_trace w ++ map (fun id => aborting self id None) done
                                    ++ failed
      /\ ((failed = [] /\ map upload_id ups = done /\ fst run = Ok tt)
          \/ exists id x rest,
               failed = [aborting self id (Some x)]
               /\ map upload_id ups = done ++ id :: rest
               /\ fst run = Raise x).
Proof.
  induction ups as [|up ups IH]; intros w run.
  - exists [], []. subst run. simpl. rewrite app_nil_r. auto.
  - subst run. cbn [for_each].
    destruct (env_abort_multipart_upload E (bucket self) (dest_key self)
                (upload_id up) (w_env w)) as [[u|x] e1] eqn:Hreply.
    + rewrite (bind_Ok E _ _ _ _ _ (s3_call_Returned E _ _ _ _ _ Hreply)).
      destruct u. cbv beta.
      match goal with
      | |- context [for_each ups ?b tt ?w1] =>
          destruct (IH w1) as [done [failed [Ht Hcases]]]
      end.
      cbn zeta in Ht, Hcases.
      exists (upload_id up :: done), failed.
      split.
      * rewrite Ht. simpl. rewrite <- app_assoc. reflexivity.
      * destruct Hcases as [[Hf [Hd Ho]]|[id [x [rest [Hf [Hd Ho]]]]]].
        -- left. simpl. rewrite Hd. auto.
        -- right. exists id, x, rest. simpl. rewrite Hd. auto.
    + rewrite (bind_Raise E _ _ _ _ _ (s3_call_Raised E _ _ _ _ _ Hreply)).
      exists [], [aborting self (upload_id up) (Some x)]. simpl.
      split; [reflexivity|]. right.
      exists (upload_id up), x, (map upload_id ups). auto.
Qed.

(** X8. The requests of [abort].  With [--all] or [--list] it lists the
    uploads of the bucket first, and an error of the listing ends it.
    With [--list] alone nothing else is requested, whatever is listed.
    With [--all] (with or without [--list], and whatever [--upload_id]
    says) it then aborts the listed uploads of the destination key, and
    only those, one request each, in the order of the listing, and stops
    at the first abort that fails, leaving the later uploads alone.
    Without both flags it sends one abort request for [--upload_id] as
    given, without looking at what exists. *)
Theorem abort_requests (w : World E) :
  let out := fst (abort self w) in
  let trace' := w_trace (snd (abort self w)) in
  if args_all self || args_list self then
    match env_list_multipart_uploads E (bucket self) (w_env w) with
    | (Raised x, _) =>
        out = Raise x /\ trace' = w_trace w ++ [listing_uploads self (Some x)]
    | (Returned response, _) =>
        if args_all self then
          exists done failed,
            trace' = w_trace w
                       ++ listing_uploads self None
                          :: map (fun id => aborting self id None) done ++ failed
            /\ ((failed = [] /\ ids_for_key self response = done /\ out = Ok tt)
                \/ exists id x rest,
                     failed = [aborting self id (Some x)]
                     /\ ids_for_key self response = done ++ id :: rest
                     /\ out = Raise x)
        else out = Ok tt /\ trace' = w_trace w ++ [listing_uploads self None]
    end
  else
    match env_abort_multipart_upload E (bucket self) (dest_key self)
            (args_upload_id self) (w_env w) with
    | (Returned _, _) =>
        out = Ok tt
        /\ trace' = w_trace w ++ [aborting self (args_upload_id self) None]
    | (Raised x, _) =>
        out = Raise x
        /\ trace' = w_trace w ++ [aborting self (args_upload_id self) (Some x)]
    end.
Proof.
  intros out trace'. subst out trace'. unfold abort.
  destruct (args_all self || args_list self) eqn:Hmode.
  - destruct (env_list_multipart_uploads E (bucket self) (w_env w))
      as [[response|x] e1] eqn:Hreply.
    + rewrite (bind_Ok E _ _ _ _ _ (s3_call_Returned E _ _ _ _ _ Hreply)).
      destruct (args_all self).
      * match goal with
        | |- context [for_each ?ups ?b tt ?w1] =>
            destruct (abort_each ups w1) as [done [failed [Ht Hcases]]]
        end.
        cbn zeta in Ht, Hcases. rewrite matching_upload_ids in Hcases.
        exists done, failed. split.
        -- rewrite Ht. simpl. rewrite <- app_assoc. reflexivity.
        -- exact Hcases.
      * simpl. auto.
    + rewrite (bind_Raise E _ _ _ _ _ (s3_call_Raised E _ _ _ _ _ Hreply)).
      simpl. auto.
  - unfold s3_call.
    destruct (env_abort_multipart_upload E (bucket self) (dest_key self)
                (args_upload_id self) (w_env w)) as [[u|x] e1]; simpl; auto.
    destruct u. auto.
Qed.

End AbortRequests.

(** ** A transfer that nothing disturbs *)

Section CooperativeTransfer.

Variable E : Environment.
Variable self : Uploader.
Variable content : list Byte.byte.
Variable Inv : env_state E -> Prop.

Hypothesis coop : cooperative E self content Inv.
Hypothesis file_not_empty : 0 < filesize self.
Hypothesis plan :
  valid_plan (filesize self) (part_size_in_bytes self) (part_count self).
Hypothesis content_size : len content = filesize self.

Local Abbreviation F := (filesize self).
Local Abbreviation S_ := (part_size_in_bytes self).
Local Abbreviation N := (part_count self).

Lemma slice_is_chunk (i : Z) :
  0 <= i < N ->
  slice self content i
    = firstn (Z.to_nat S_) (skipn (Z.to_nat (i * S_)) content).
Proof.
  intros Hi. destruct (plan_facts self file_not_empty plan) as [Hs _].
  destruct (offsets_in_plan self file_not_empty plan i Hi) as [Hst _].
  unfold slice, read_at. rewrite Hst. unfold spec_start.
  destruct (Z.ltb_spec S_ 0); [lia|reflexivity].
Qed.

Lemma slice_length (i : Z) :
  0 <= i < N -> len (slice self content i) = this_part_size self i.
Proof.
  intros Hi. rewrite (slice_is_chunk i Hi).
  destruct (plan_facts self file_not_empty plan) as [Hs [Hb HN]].
  unfold len in *. rewrite length_firstn, length_skipn.
  unfold this_part_size, start_offset, end_offset.
  assert (H1 : (i + 1) * S_ = i * S_ + S_) by ring.
  assert (H2 : 0 <= i * S_) by nia.
  assert (H3 : i * S_ <= F - 1) by nia.
  rewrite H1. revert content_size. generalize (i * S_) H2 H3.
  intros x Hx1 Hx2 Hc. lia.
Qed.

Lemma chunks_concat (k : nat) :
  forall a, 0 <= a -> a + Z.of_nat k = N ->
    List.concat (map (slice self content) (range a (a + Z.of_nat k)))
      = skipn (Z.to_nat (a * S_)) content.
Proof.
  destruct (plan_facts self file_not_empty plan) as [Hs [Hb HN]].
  induction k as [|k IH]; intros a Ha Hak.
  - rewrite range_empty by lia. simpl. symmetry. apply skipn_all2.
    unfold len in content_size. nia.
  - rewrite range_cons. cbn [map List.concat].
    replace (a + 1 + Z.of_nat k) with (a + 1 + Z.of_nat k) by reflexivity.
    rewrite (IH (a + 1)) by lia.
    rewrite (slice_is_chunk a) by lia.
    replace (Z.to_nat ((a + 1) * S_))
      with (Z.to_nat S_ + Z.to_nat (a * S_))%nat by nia.
    rewrite <- skipn_skipn. apply firstn_skipn.
Qed.

Lemma sum_of_lengths (ls : list (list Byte.byte)) :
  fold_right Z.add 0 (map (fun l => len l) ls) = len (List.concat ls).
Proof.
  unfold len. induction ls as [|l ls IH]; simpl; [reflexivity|].
  rewrite length_app, IH. lia.
Qed.

(** One turn of the loop. *)
Lemma cooperative_turn (id : string) (i : Z) (acc : list UploadedPart)
    (w : World E) :
  0 <= i < N -> Inv (w_env w) -> meter_ok (w_meter w) ->
  exists tag w',
    upload_one_part self id i acc w = (Ok (acc ++ [acknowledged self i tag]), w')
    /\ w_trace w' = w_trace w ++ [sending self id i (slice self content i) None]
    /\ w_log w' = w_log w
    /\ Inv (w_env w')
    /\ meter_ok (w_meter w')
    /\ pm_limit (w_meter w') = pm_limit (w_meter w)
    /\ pm_current (w_meter w')
         = Z.min (pm_current (w_meter w) + 1) (pm_limit (w_meter w)).
Proof.
  intros Hi HInv Hm. unfold upload_one_part.
  destruct (coop_open coop _ HInv) as [e1 [Hopen HInv1]].
  assert (Hcall : local_call (env_open_file E) w = (Ok content, set_env e1 w))
    by (unfold local_call; rewrite Hopen; reflexivity).
  rewrite (bind_Ok E _ _ _ _ _ Hcall).
  destruct (offsets_in_plan self file_not_empty plan i Hi) as [Hst _].
  destruct (plan_facts self file_not_empty plan) as [Hs _].
  assert (Hseek : seek_read (E := E) content (start_offset self i) S_ (set_env e1 w)
                  = (Ok (slice self content i), set_env e1 w)).
  { unfold seek_read. rewrite Hst. unfold spec_start.
    destruct (Z.ltb_spec (i * S_) 0); [nia|]. unfold slice. rewrite Hst.
    reflexivity. }
  rewrite (bind_Ok E _ _ _ _ _ Hseek).
  rewrite (slice_length i Hi), Z.eqb_refl. cbn [negb].
  destruct (coop_send coop id (i + 1) (this_part_size self i)
              (slice self content i) e1 HInv1) as [tag [e2 [Hsend HInv2]]].
  rewrite (bind_Ok E _ _ _ _ _ (s3_call_Returned E _ _ (set_env e1 w) _ _ Hsend)).
  match goal with
  | |- context [bind (increment 1) _ ?w1] => set (w2 := w1)
  end.
  destruct (increment_run E 1 w2 Hm ltac:(lia)) as [w3 [Hinc [Ht [Hl [Hm3 Hlim]]]]].
  destruct (increment_world E 1 w2) as [_ [_ [Henv [_ [_ Hcur]]]]].
  rewrite Hinc in Henv, Hcur. cbn [snd] in Henv, Hcur.
  rewrite (bind_Ok E _ _ _ _ _ Hinc).
  exists tag, w3. split; [reflexivity|].
  split; [rewrite Ht; reflexivity|]. split; [rewrite Hl; reflexivity|].
  split; [rewrite Henv; apply (coop_clock coop); exact HInv2|].
  split; [exact Hm3|]. split; [rewrite Hlim; reflexivity|].
  rewrite Hcur. reflexivity.
Qed.

(** The loop over the indexes [a .. a + k - 1]. *)
Lemma cooperative_loop (id : string) (k : nat) :
  forall (a : Z) (acc : list UploadedPart) (w : World E),
    0 <= a -> a + Z.of_nat k <= N ->
    Inv (w_env w) -> meter_ok (w_meter w) ->
    pm_limit (w_meter w) = N -> pm_current (w_meter w) = a ->
    exists new_parts w',
      for_each (range a (a + Z.of_nat k)) (upload_one_part self id) acc w
        = (Ok (acc ++ new_parts), w')
      /\ Forall2 (fun i p => exists tag, p = acknowledged self i tag)
           (range a (a + Z.of_nat k)) new_parts
      /\ w_trace w' = w_trace w
                        ++ map (fun i => sending self id i (slice self content i) None)
                             (range a (a + Z.of_nat k))
      /\ w_log w' = w_log w
      /\ Inv (w_env w')
      /\ meter_ok (w_meter w')
      /\ pm_limit (w_meter w') = N
      /\ pm_current (w_meter w') = a + Z.of_nat k.
Proof.
  induction k as [|k IH]; intros a acc w Ha Hak HInv Hm Hlim Hcur.
  - rewrite range_empty by lia. exists [], w. cbn [for_each map].
    rewrite !app_nil_r. unfold ret.
    split; [reflexivity|]. split; [constructor|].
    split; [reflexivity|]. split; [reflexivity|]. split; [exact HInv|].
    split; [exact Hm|]. split; [exact Hlim|]. lia.
  - rewrite range_cons. cbn [for_each].
    destruct (cooperative_turn id a acc w ltac:(lia) HInv Hm)
      as [tag [w1 [Hturn [Ht1 [Hl1 [HInv1 [Hm1 [Hlim1 Hcur1]]]]]]]].
    rewrite (bind_Ok E _ _ _ _ _ Hturn).
    destruct (IH (a + 1) (acc ++ [acknowledged self a tag]) w1)
      as [new_parts [w' [Hrun [Hparts [Ht [Hl [HInv' [Hm' [Hlim' Hcur']]]]]]]]];
      try assumption; try lia.
    exists (acknowledged self a tag :: new_parts), w'.
    split; [rewrite Hrun, <- app_assoc; reflexivity|].
    split; [constructor; [exists tag; reflexivity|exact Hparts]|].
    split; [rewrite Ht, Ht1, <- app_assoc; reflexivity|].
    split; [congruence|]. split; [exact HInv'|]. split; [exact Hm'|].
    split; [exact Hlim'|]. lia.
Qed.

Lemma acknowledged_numbers (idxs : list Z) (ps : list UploadedPart) :
  Forall2 (fun i p => exists tag, p = acknowledged self i tag) idxs ps ->
  map number ps = map (fun i => i + 1) idxs
  /\ map size ps = map (this_part_size self) idxs.
Proof.
  induction 1 as [|i p idxs ps [tag ->] _ [IHn IHs]]; [auto|].
  simpl. rewrite IHn, IHs. auto.
Qed.

(** [_upload_parts] from [start_index]. *)
Lemma upload_parts_cooperative (id : string) (start_index : Z) (w : World E) :
  0 <= start_index <= N -> Inv (w_env w) ->
  exists new_parts w',
    _upload_parts self start_index id w = (Ok new_parts, w')
    /\ Forall2 (fun i p => exists tag, p = acknowledged self i tag)
         (range start_index N) new_parts
    /\ w_trace w' = w_trace w
                      ++ map (fun i => sending self id i (slice self content i) None)
                           (range start_index N)
    /\ w_log w' = w_log w
    /\ Inv (w_env w')
    /\ pm_current (w_meter w') = N.
Proof.
  intros Hstart HInv.
  destruct (plan_facts self file_not_empty plan) as [Hs [Hb HN]].
  unfold _upload_parts, with_ProgressMeter.
  set (w0 := set_meter {| pm_limit := N; pm_initial := start_index;
                          pm_current := start_index |} w).
  assert (HN' : N = start_index + Z.of_nat (Z.to_nat (N - start_index))) by lia.
  destruct (cooperative_loop id (Z.to_nat (N - start_index)) start_index [] w0)
    as [new_parts [w' [Hrun [Hparts [Ht [Hl [HInv' [Hm' [Hlim' Hcur']]]]]]]]];
    try reflexivity; try lia; try exact HInv.
  { unfold meter_ok. simpl. lia. }
  rewrite <- HN' in *. rewrite Hrun. cbn [app].
  rewrite (log_status_meter_ok E w' Hm').
  exists new_parts, w'. repeat split; auto.
Qed.

Lemma bodies_of_sending (id : string) (idxs : list Z) :
  bodies_sent (map (fun i => sending self id i (slice self content i) None) idxs)
    = map (slice self content) idxs.
Proof. induction idxs as [|i idxs IH]; simpl; [reflexivity|rewrite IH; reflexivity]. Qed.

Lemma sizes_from (start_index : Z) :
  0 <= start_index <= N ->
  total_size (map (this_part_size self) (range start_index N))
    = Z.max 0 (F - start_index * S_).
Proof.
  intros Hstart.
  destruct (plan_facts self file_not_empty plan) as [Hs [Hb HN]].
  assert (Heq : map (this_part_size self) (range start_index N)
                = map (fun l => len l)
                    (map (slice self content) (range start_index N))).
  { rewrite map_map. apply map_ext_in. intros i Hi.
    apply in_range in Hi. symmetry. apply slice_length. lia. }
  rewrite Heq. unfold total_size. rewrite sum_of_lengths.
  assert (HN' : N = start_index + Z.of_nat (Z.to_nat (N - start_index))) by lia.
  rewrite HN' at 1.
  rewrite (chunks_concat (Z.to_nat (N - start_index)) start_index) by lia.
  unfold len in *. rewrite length_skipn.
  assert (Hx : 0 <= start_index * S_) by nia.
  revert Hx content_size. generalize (start_index * S_). intros x Hx Hc. lia.
Qed.

End CooperativeTransfer.

Section CooperativeRuns.

Variable E : Environment.
Variable self : Uploader.

Lemma lengths_of_sending (id : string) (content : list Byte.byte) (idxs : list Z) :
  (forall i, In i idxs -> len (slice self content i) = this_part_size self i) ->
  Forall (fun ev => match ev_request ev with
                    | UploadPart _ _ _ _ content_length body =>
                        content_length = len body
                    | _ => False
                    end)
         (map (fun i => sending self id i (slice self content i) None) idxs).
Proof.
  intros Hlen. apply Forall_forall. intros ev Hin.
  apply in_map_iff in Hin. destruct Hin as [i [<- Hi]]. simpl.
  symmetry. apply Hlen. exact Hi.
Qed.

Lemma numbers_of_sending (id : string) (content : list Byte.byte) (idxs : list Z) :
  sent_numbers (map (fun i => sending self id i (slice self content i) None) idxs)
    = map (fun i => i + 1) idxs
  /\ quiet (map (fun i => sending self id i (slice self content i) None) idxs).
Proof.
  induction idxs as [|i idxs [IH1 IH2]]; [split; [reflexivity|constructor]|].
  split.
  - unfold sent_numbers in *. simpl. rewrite IH1. reflexivity.
  - constructor; [reflexivity|exact IH2].
Qed.


Lemma is_existing_client_error (w : World E) (msg : string) (e1 : env_state E) :
  env_head_object E (bucket self) (dest_key self) (w_env w)
    = (Raised (ClientError msg), e1) ->
  _is_existing_in_s3 self w
    = (Ok false, record (probing self (Some (ClientError msg))) (set_env e1 w)).
Proof.
  intros H. unfold _is_existing_in_s3.
  rewrite (s3_call_Raised E _ _ _ _ _ H). reflexivity.
Qed.

Lemma uploads_matching_key_nil (response : ListUploadsResponse) :
  ids_for_key self response = [] -> uploads_matching_key self response = [].
Proof.
  intros H. rewrite <- (matching_upload_ids self) in H.
  apply map_eq_nil in H. exact H.
Qed.

Lemma check_existing_uploads_none (fuel : nat) (w : World E)
    (response : ListUploadsResponse) (e1 : env_state E) :
  env_list_multipart_uploads E (bucket self) (w_env w) = (Returned response, e1) ->
  args_upload_id self = EmptyString ->
  ids_for_key self response = [] ->
  check_existing_uploads fuel self w
    = (Ok None, record (listing_uploads self None) (set_env e1 w)).
Proof.
  intros Hlist Hid Hnone. unfold check_existing_uploads.
  rewrite (bind_Ok E _ _ _ _ _ (s3_call_Returned E _ _ _ _ _ Hlist)).
  rewrite (uploads_matching_key_nil response Hnone), Hid. reflexivity.
Qed.


End CooperativeRuns.

(** ** Rules for the events of all runs *)

Section EmitRules.

Variable E : Environment.

Lemma emits_conseq {A} (m : M E A) (P P' : Outcome A -> list Event -> Prop) :
  emits m P -> (forall out evs, P out evs -> P' out evs) -> emits m P'.
Proof.
  intros Hm Himp w. eapply sat_conseq; [apply Hm|].
  intros out w' evs. apply Himp.
Qed.

Lemma emits_ret {A} (a : A) (P : Outcome A -> list Event -> Prop) :
  P (Ok a) [] -> emits (E := E) (ret a) P.
Proof. intros H w. apply sat_ret. exact H. Qed.

Lemma emits_raise {A} (e : Exn) (P : Outcome A -> list Event -> Prop) :
  P (Raise e) [] -> emits (E := E) (raise e) P.
Proof. intros H w. apply sat_raise. exact H. Qed.

Lemma emits_exit {A} (c : Z) (P : Outcome A -> list Event -> Prop) :
  P (Exit c) [] -> emits (E := E) (exit c) P.
Proof. intros H w. apply sat_exit. exact H. Qed.

Lemma emits_out_of_fuel {A} (P : Outcome A -> list Event -> Prop) :
  P OutOfFuel [] -> emits (E := E) out_of_fuel P.
Proof. intros H w. apply sat_out_of_fuel. exact H. Qed.

Lemma emits_LOG (msg : LogMsg) (P : Outcome unit -> list Event -> Prop) :
  P (Ok tt) [] -> emits (E := E) (LOG msg) P.
Proof. intros H w. apply sat_LOG. exact H. Qed.

Lemma emits_lift {A} (o : Outcome A) (P : Outcome A -> list Event -> Prop) :
  P o [] -> emits (E := E) (lift o) P.
Proof.
  intros H w. exists []. unfold lift. cbn [fst snd]. rewrite app_nil_r. auto.
Qed.

Lemma emits_local_call {A} (h : env_state E -> Reply A * env_state E)
    (P : Outcome A -> list Event -> Prop) :
  (forall a, P (Ok a) []) -> (forall x, P (Raise x) []) ->
  emits (local_call h) P.
Proof. intros Hr Hx w. apply sat_local_call; intros; auto. Qed.

Lemma emits_s3_call {A} (req : Request) (h : env_state E -> Reply A * env_state E)
    (P : Outcome A -> list Event -> Prop) :
  (forall a, P (Ok a) [{| ev_request := req; ev_raised := None |}]) ->
  (forall x, P (Raise x) [{| ev_request := req; ev_raised := Some x |}]) ->
  emits (s3_call req h) P.
Proof. intros Hr Hx w. apply sat_s3_call; intros; auto. Qed.

Lemma emits_bind {A B} (m : M E A) (k : A -> M E B)
    (P1 : Outcome A -> list Event -> Prop) (P : Outcome B -> list Event -> Prop) :
  emits m P1 ->
  (forall a evs1, P1 (Ok a) evs1 ->
     emits (k a) (fun out evs2 => P out (evs1 ++ evs2))) ->
  (forall out evs1, is_Ok out = false -> P1 out evs1 -> P (stopped out) evs1) ->
  emits (bind m k) P.
Proof.
  intros Hm Hk Hstop w.
  apply sat_bind with (Q1 := fun out (_ : World E) evs => P1 out evs).
  - apply Hm.
  - intros a w1 evs1 H1. apply (Hk a evs1 H1 w1).
  - intros out w1 evs1 Hn H1. apply Hstop; assumption.
Qed.

(** The same when the events matter and the outcome does not. *)
Lemma emits_then {A B} (m : M E A) (k : A -> M E B)
    (P1 P2 P : list Event -> Prop) :
  emits m (fun _ evs => P1 evs) ->
  (forall a, emits (k a) (fun _ evs => P2 evs)) ->
  (forall evs1 evs2, P1 evs1 -> P2 evs2 -> P (evs1 ++ evs2)) ->
  (forall evs1, P1 evs1 -> P evs1) ->
  emits (bind m k) (fun _ evs => P evs).
Proof.
  intros Hm Hk Happ Hstop.
  apply emits_bind with (P1 := fun _ evs => P1 evs).
  - exact Hm.
  - intros a evs1 H1. eapply emits_conseq; [apply Hk|].
    intros out evs2 H2. apply Happ; assumption.
  - intros out evs1 _ H1. apply Hstop. exact H1.
Qed.

Lemma emits_silent_then {A B} (m : M E A) (k : A -> M E B)
    (P : Outcome B -> list Event -> Prop) :
  emits m (fun _ evs => evs = []) ->
  (forall a, emits (k a) P) ->
  (forall out : Outcome A, is_Ok out = false -> P (stopped out) []) ->
  emits (bind m k) P.
Proof.
  intros Hm Hk Hstop.
  apply emits_bind with (P1 := fun _ evs => evs = []).
  - exact Hm.
  - intros a evs1 ->. apply Hk.
  - intros out evs1 Hn ->. apply Hstop. exact Hn.
Qed.

Lemma emits_with_ProgressMeter {A} (initial limit : Z) (body : M E A)
    (P : list Event -> Prop) :
  emits body (fun _ evs => P evs) ->
  emits (with_ProgressMeter initial limit body) (fun _ evs => P evs).
Proof.
  intros Hbody w. unfold sat, with_ProgressMeter.
  match goal with
  | |- context [body ?w0] =>
      destruct (Hbody w0) as [evs [Ht HP]];
      destruct (body w0) as [out w1]
  end.
  cbn [fst snd w_trace set_meter] in Ht, HP.
  pose proof (log_status_world E w1) as Hw.
  exists evs.
  destruct out; destruct (log_status w1) as [[] w2]; cbn [fst snd] in *;
    subst; auto.
Qed.

Lemma emits_for_each {A S} (xs : list A) (body : A -> S -> M E S)
    (P1 P : list Event -> Prop) :
  (forall x acc, emits (body x acc) (fun _ evs => P1 evs)) ->
  P [] ->
  (forall evs1 evs2, P1 evs1 -> P evs2 -> P (evs1 ++ evs2)) ->
  forall acc, emits (for_each xs body acc) (fun _ evs => P evs).
Proof.
  intros Hbody Hnil Happ.
  induction xs as [|x xs IH]; intros acc; cbn [for_each].
  - apply emits_ret. exact Hnil.
  - apply emits_then with (P1 := P1) (P2 := P); auto.
    intros evs1 H1. rewrite <- (app_nil_r evs1). apply Happ; assumption.
Qed.

Lemma emits_increment (by_ : Z) :
  emits (E := E) (increment by_) (fun _ evs => evs = []).
Proof.
  intros w. exists []. destruct (increment_world E by_ w) as [Ht _].
  rewrite Ht, app_nil_r. auto.
Qed.

End EmitRules.

(** ** The order of the requests of an upload *)

Section Protocol.

Variable E : Environment.
Variable self : Uploader.

Lemma StronglySorted_app {A} (R : A -> A -> Prop) (l1 l2 : list A) :
  StronglySorted R l1 -> StronglySorted R l2 ->
  (forall x y, In x l1 -> In y l2 -> R x y) ->
  StronglySorted R (l1 ++ l2).
Proof.
  intros H1 H2 H12. induction H1 as [|x l1 Hs IH Hx]; [exact H2|].
  simpl. constructor.
  - apply IH. intros a b Ha Hb. apply H12; [right; exact Ha|exact Hb].
  - apply Forall_app. split; [exact Hx|].
    apply Forall_forall. intros y Hy. apply H12; [left; reflexivity|exact Hy].
Qed.

Lemma in_protocol_nil (lo hi : Z) : in_protocol self lo hi [].
Proof. repeat split; constructor. Qed.

Lemma in_protocol_one (lo hi : Z) (ev : Event) :
  own_request self ev -> lo <= phase ev <= hi -> in_protocol self lo hi [ev].
Proof.
  intros Hown Hph. repeat split; repeat constructor; auto; lia.
Qed.

Lemma in_protocol_weaken (lo1 hi1 lo hi : Z) (evs : list Event) :
  in_protocol self lo1 hi1 evs -> lo <= lo1 -> hi1 <= hi ->
  in_protocol self lo hi evs.
Proof.
  intros [Hs [Hp Ho]] Hlo Hhi. split; [exact Hs|]. split; [|exact Ho].
  eapply Forall_impl; [|exact Hp]. cbv beta. intros ev H. lia.
Qed.

Lemma in_protocol_app (lo1 hi1 lo2 hi2 lo hi : Z) (evs1 evs2 : list Event) :
  in_protocol self lo1 hi1 evs1 -> in_protocol self lo2 hi2 evs2 ->
  hi1 < lo2 \/ (hi1 = lo2 /\ (hi1 = 2 \/ hi1 = 4)) ->
  lo <= lo1 -> lo <= lo2 -> hi1 <= hi -> hi2 <= hi ->
  in_protocol self lo hi (evs1 ++ evs2).
Proof.
  intros [Hs1 [Hp1 Ho1]] [Hs2 [Hp2 Ho2]] Hord Hlo1 Hlo2 Hhi1 Hhi2.
  split; [|split].
  - apply StronglySorted_app; [exact Hs1|exact Hs2|].
    intros x y Hx Hy.
    rewrite Forall_forall in Hp1, Hp2.
    specialize (Hp1 x Hx). specialize (Hp2 y Hy). unfold follows. lia.
  - apply Forall_app. split.
    + eapply Forall_impl; [|exact Hp1]. cbv beta. intros ev H. lia.
    + eapply Forall_impl; [|exact Hp2]. cbv beta. intros ev H. lia.
  - apply Forall_app. auto.
Qed.

Ltac one_request :=
  apply in_protocol_one;
  [unfold own_request; cbn; repeat split | unfold phase; cbn; lia].

(** The listing of the parts: requests of phase 2. *)
Lemma load_parts_emits (id : string) (marker : option Z) :
  emits (E := E) (_load_parts self id marker)
    (fun _ evs => in_protocol self 2 2 evs).
Proof.
  unfold _load_parts.
  apply emits_then with (P1 := in_protocol self 2 2) (P2 := fun evs => evs = []).
  - apply emits_s3_call; intros; one_request.
  - intros response. apply emits_ret. reflexivity.
  - intros evs1 evs2 H1 ->. rewrite app_nil_r. exact H1.
  - auto.
Qed.

Lemma load_remaining_parts_emits (fuel : nat) (id : string) :
  forall truncated marker acc,
    emits (E := E) (load_remaining_parts fuel self id truncated marker acc)
      (fun _ evs => in_protocol self 2 2 evs).
Proof.
  induction fuel as [|fuel IH]; intros truncated marker acc;
    cbn [load_remaining_parts]; destruct truncated;
    try (apply emits_ret; apply in_protocol_nil).
  - apply emits_out_of_fuel. apply in_protocol_nil.
  - apply emits_then with (P1 := in_protocol self 2 2) (P2 := in_protocol self 2 2).
    + apply load_parts_emits.
    + intros [[new_parts truncated'] next']. apply IH.
    + intros evs1 evs2 H1 H2.
      apply (in_protocol_app 2 2 2 2 2 2); auto; lia.
    + auto.
Qed.

Lemma load_all_parts_emits (fuel : nat) (id : string) :
  emits (E := E) (load_all_parts fuel self id)
    (fun _ evs => in_protocol self 2 2 evs).
Proof.
  unfold load_all_parts.
  apply emits_then with (P1 := in_protocol self 2 2) (P2 := in_protocol self 2 2).
  - apply load_parts_emits.
  - intros [[new_parts truncated] next]. apply load_remaining_parts_emits.
  - intros evs1 evs2 H1 H2. apply (in_protocol_app 2 2 2 2 2 2); auto; lia.
  - auto.
Qed.

Lemma check_existing_uploads_emits (fuel : nat) :
  emits (E := E) (check_existing_uploads fuel self)
    (fun _ evs => in_protocol self 1 2 evs).
Proof.
  unfold check_existing_uploads.
  apply emits_then with (P1 := in_protocol self 1 1) (P2 := in_protocol self 2 2).
  - apply emits_s3_call; intros; one_request.
  - intros response. cbv zeta.
    destruct (Nat.eqb _ 0).
    + destruct (truthy (args_upload_id self)).
      * apply emits_silent_then.
        -- apply emits_LOG. reflexivity.
        -- intros _. apply emits_exit. apply in_protocol_nil.
        -- intros. apply in_protocol_nil.
      * apply emits_ret. apply in_protocol_nil.
    + destruct (Nat.ltb 1 _).
      * apply emits_silent_then.
        -- destruct (truthy (args_upload_id self)); apply emits_LOG; reflexivity.
        -- intros _. apply emits_exit. apply in_protocol_nil.
        -- intros. apply in_protocol_nil.
      * match goal with
        | |- context [match ?l with [] => _ | _ :: _ => _ end] => destruct l
        end.
        -- apply emits_raise. apply in_protocol_nil.
        -- apply emits_then with (P1 := in_protocol self 2 2)
                                 (P2 := fun evs => evs = []).
           ++ apply load_all_parts_emits.
           ++ intros parts_. apply emits_ret. reflexivity.
           ++ intros evs1 evs2 H1 ->. rewrite app_nil_r. exact H1.
           ++ auto.
  - intros evs1 evs2 H1 H2. apply (in_protocol_app 1 1 2 2 1 2); auto; lia.
  - intros evs1 H1. apply (in_protocol_weaken 1 1); auto; lia.
Qed.

(** The transfer loop: requests of phase 4. *)
Lemma upload_one_part_emits (id : string) (i : Z) (acc : list UploadedPart) :
  emits (E := E) (upload_one_part self id i acc)
    (fun _ evs => in_protocol self 4 4 evs).
Proof.
  unfold upload_one_part.
  apply emits_silent_then.
  - apply emits_local_call; reflexivity.
  - intros content. apply emits_silent_then.
    + unfold seek_read. destruct (_ <? 0).
      * apply emits_raise. reflexivity.
      * apply emits_ret. reflexivity.
    + intros data. destruct (negb _).
      * apply emits_raise. apply in_protocol_nil.
      * apply emits_then with (P1 := in_protocol self 4 4)
                              (P2 := fun evs => evs = []).
        -- apply emits_s3_call; intros; one_request.
        -- intros tag. apply emits_silent_then.
           ++ apply emits_increment.
           ++ intros _. apply emits_ret. reflexivity.
           ++ reflexivity.
        -- intros evs1 evs2 H1 ->. rewrite app_nil_r. exact H1.
        -- auto.
    + intros. apply in_protocol_nil.
  - intros. apply in_protocol_nil.
Qed.

Lemma upload_parts_emits (start_index : Z) (id : string) :
  emits (E := E) (_upload_parts self start_index id)
    (fun _ evs => in_protocol self 4 4 evs).
Proof.
  unfold _upload_parts. apply emits_with_ProgressMeter.
  apply emits_for_each with (P1 := in_protocol self 4 4).
  - intros i acc. apply upload_one_part_emits.
  - apply in_protocol_nil.
  - intros evs1 evs2 H1 H2. apply (in_protocol_app 4 4 4 4 4 4); auto; lia.
Qed.

Lemma finalize_upload_emits (parts_ : list UploadedPart) (id : string) :
  emits (E := E) (_finalize_upload self parts_ id)
    (fun _ evs => in_protocol self 5 5 evs).
Proof.
  unfold _finalize_upload. apply emits_silent_then.
  - destruct (negb _); [apply emits_LOG|apply emits_ret]; reflexivity.
  - intros _. apply emits_s3_call; intros; one_request.
  - intros. apply in_protocol_nil.
Qed.

Lemma sanity_check_emits (total : nat) (existing : list UploadedPart) :
  forall index,
    emits (E := E) (sanity_check self total index existing)
      (fun _ evs => evs = []).
Proof.
  induction existing as [|part rest IH]; intros index; cbn [sanity_check].
  - apply emits_ret. reflexivity.
  - destruct (negb (number part =? _)).
    + apply emits_silent_then; [apply emits_LOG; reflexivity| |reflexivity].
      intros _. apply emits_exit. reflexivity.
    + destruct (_ && _).
      * apply emits_silent_then; [apply emits_LOG; reflexivity| |reflexivity].
        intros _. apply emits_exit. reflexivity.
      * apply IH.
Qed.

Lemma transfer_and_finalize_emits (start_index : Z) (id : string)
    (existing : list UploadedPart) :
  emits (E := E)
    (bind (_upload_parts self start_index id)
       (fun new_parts => _finalize_upload self (existing ++ new_parts) id))
    (fun _ evs => in_protocol self 4 5 evs).
Proof.
  apply emits_then with (P1 := in_protocol self 4 4) (P2 := in_protocol self 5 5).
  - apply upload_parts_emits.
  - intros new_parts. apply finalize_upload_emits.
  - intros evs1 evs2 H1 H2. apply (in_protocol_app 4 4 5 5 4 5); auto; lia.
  - intros evs1 H1. apply (in_protocol_weaken 4 4); auto; lia.
Qed.

Lemma continue_upload_emits (upload_ : MultipartUploadInProgress) :
  emits (E := E) (_continue_upload self upload_)
    (fun _ evs => in_protocol self 4 5 evs).
Proof.
  unfold _continue_upload. destruct (parts upload_) as [ps|].
  - apply emits_silent_then.
    + apply sanity_check_emits.
    + intros _. apply transfer_and_finalize_emits.
    + intros. apply in_protocol_nil.
  - apply emits_raise. apply in_protocol_nil.
Qed.

Lemma fresh_upload_emits :
  emits (E := E)
    (bind (_create_multipart_upload self)
       (fun upload_id_ =>
          bind (_upload_parts self 0 upload_id_)
            (fun uploaded_parts =>
               _finalize_upload self uploaded_parts upload_id_)))
    (fun _ evs => in_protocol self 3 5 evs).
Proof.
  apply emits_then with (P1 := in_protocol self 3 3) (P2 := in_protocol self 4 5).
  - unfold _create_multipart_upload.
    apply emits_s3_call; intros; one_request.
  - intros id. apply (transfer_and_finalize_emits 0 id []).
  - intros evs1 evs2 H1 H2. apply (in_protocol_app 3 3 4 5 3 5); auto; lia.
  - intros evs1 H1. apply (in_protocol_weaken 3 3); auto; lia.
Qed.

(** What follows the probe when the object is absent. *)
Lemma after_probe_emits (fuel : nat) (k : option MultipartUploadInProgress -> M E bool) :
  (forall found,
     emits (k found)
       (fun out evs => in_protocol self 4 5 evs /\ (out = Ok true -> evs = []))) ->
  emits
    (bind (check_existing_uploads fuel self)
       (fun found =>
          bind (k found)
            (fun start_new : bool =>
               if start_new
               then bind (_create_multipart_upload self)
                      (fun upload_id_ =>
                         bind (_upload_parts self 0 upload_id_)
                           (fun uploaded_parts =>
                              _finalize_upload self uploaded_parts upload_id_))
               else ret tt)))
    (fun _ evs => in_protocol self 1 5 evs).
Proof.
  intros Hk.
  apply emits_then with (P1 := in_protocol self 1 2) (P2 := in_protocol self 3 5).
  - apply check_existing_uploads_emits.
  - intros found.
    apply emits_bind
      with (P1 := fun out evs =>
                    in_protocol self 4 5 evs /\ (out = Ok true -> evs = [])).
    + apply Hk.
    + intros start_new evs1 [H1 Hnil]. destruct start_new.
      * rewrite (Hnil eq_refl). apply fresh_upload_emits.
      * apply emits_ret. rewrite app_nil_r.
        apply (in_protocol_weaken 4 5); auto; lia.
    + intros out evs1 _ [H1 _]. apply (in_protocol_weaken 4 5); auto; lia.
  - intros evs1 evs2 H1 H2. apply (in_protocol_app 1 2 3 5 1 5); auto; lia.
  - intros evs1 H1. apply (in_protocol_weaken 1 2); auto; lia.
Qed.

Lemma dialogue_emits (found : option MultipartUploadInProgress) :
  emits (E := E)
    (match found with
     | Some upload_ =>
         bind (input "Continue existing upload [yN]? ")
           (fun answer =>
              if String.eqb answer "y"
              then bind (_continue_upload self upload_) (fun _ => ret false)
              else
                bind (input "Delete existing multi-part upload [yN]? ")
                  (fun answer2 =>
                     if String.eqb answer2 "y" then raise NotYetImplemented
                     else
                       bind (input "Re-start multi-part upload from scratch [yN]? ")
                         (fun answer3 =>
                            if negb (String.eqb answer3 "y") then ret false
                            else ret true)))
     | None => ret true
     end)
    (fun out evs => in_protocol self 4 5 evs /\ (out = Ok true -> evs = [])).
Proof.
  assert (Hsilent : forall (m : M E bool),
            emits m (fun _ evs => evs = []) ->
            emits m (fun out evs =>
                       in_protocol self 4 5 evs /\ (out = Ok true -> evs = []))).
  { intros m Hm. eapply emits_conseq; [exact Hm|].
    intros out evs ->. split; [apply in_protocol_nil|reflexivity]. }
  assert (Hinput : forall prompt,
            emits (E := E) (input prompt) (fun _ evs => evs = [])).
  { intros prompt. apply emits_local_call; reflexivity. }
  destruct found as [upload_|]; [|apply Hsilent, emits_ret; reflexivity].
  apply emits_silent_then; [apply Hinput| |].
  - intros answer. destruct (String.eqb answer "y").
    + apply emits_bind with (P1 := fun _ evs => in_protocol self 4 5 evs).
      * apply continue_upload_emits.
      * intros _ evs1 H1. apply emits_ret. rewrite app_nil_r.
        split; [exact H1|discriminate].
      * intros out evs1 Hn H1. split; [exact H1|].
        destruct out; discriminate.
    + apply Hsilent. apply emits_silent_then; [apply Hinput| |reflexivity].
      intros answer2. destruct (String.eqb answer2 "y").
      * apply emits_raise. reflexivity.
      * apply emits_silent_then; [apply Hinput| |reflexivity].
        intros answer3. destruct (negb _); apply emits_ret; reflexivity.
  - intros out Hn. split; [apply in_protocol_nil|]. destruct out; discriminate.
Qed.

(** The requests of [upload]: the probe, then requests of the phases 1 to
    5 in the order of the protocol. *)
Lemma upload_emits (fuel : nat) :
  emits (E := E) (upload fuel self)
    (fun _ evs => exists err rest,
                    evs = probing self err :: rest /\ in_protocol self 1 5 rest).
Proof.
  unfold upload.
  apply emits_bind
    with (P1 := fun (_ : Outcome bool) evs => exists err, evs = [probing self err]).
  - intros w. eapply sat_conseq; [apply (is_existing_in_s3_sat E self)|].
    intros out w' evs [err [-> _]]. exists err. reflexivity.
  - intros existing evs1 [err ->]. destruct existing.
    + apply emits_ret. exists err, []. split; [reflexivity|apply in_protocol_nil].
    + eapply emits_conseq; [apply (after_probe_emits fuel), dialogue_emits|].
      intros out evs2 H2. exists err, evs2. split; [reflexivity|exact H2].
  - intros out evs1 _ [err ->]. exists err, [].
    split; [reflexivity|apply in_protocol_nil].
Qed.

End Protocol.

Section ProtocolTheorems.

Variable E : Environment.

Lemma StronglySorted_middle {A} (R : A -> A -> Prop) (pre post : list A) (x : A) :
  StronglySorted R (pre ++ x :: post) ->
  Forall (fun y => R y x) pre /\ Forall (R x) post.
Proof.
  induction pre as [|a pre IH]; simpl; intros H.
  - inversion H; subst. split; [constructor|assumption].
  - inversion H as [|a' l Hs Ha]; subst. destruct (IH Hs) as [Hpre Hpost].
    split; [|exact Hpost]. constructor; [|exact Hpre].
    rewrite Forall_forall in Ha. apply Ha. apply in_or_app. right. left. reflexivity.
Qed.

(** X11. Every request of [upload] is about the uploader's own bucket and
    key: the probe and every part, completion and part listing name
    [bucket] and [dest_key], the listing of the uploads names [bucket];
    parts are listed by pages of 1000 and an upload is created without
    metadata.  [upload] never sends an abort request, whatever the service
    and the user answer: an upload in progress that the user declines to
    continue is left in place. *)
Theorem upload_requests_are_its_own (fuel : nat) (self : Uploader) (w : World E) :
  exists evs,
    w_trace (snd (upload fuel self w)) = w_trace w ++ evs
    /\ Forall (own_request self) evs
    /\ Forall (fun ev => forall b k id,
                 ev_request ev <> AbortMultipartUpload b k id) evs.
Proof.
  destruct (upload_emits E self fuel w) as [evs [Ht [err [rest [-> [_ [_ Hown]]]]]]].
  exists (probing self err :: rest). split; [exact Ht|].
  assert (Hall : Forall (own_request self) (probing self err :: rest))
    by (constructor; [split; reflexivity|exact Hown]).
  split; [exact Hall|].
  eapply Forall_impl; [|exact Hall]. cbv beta.
  intros ev Hev b k id Heq. unfold own_request in Hev. rewrite Heq in Hev.
  exact Hev.
Qed.

(** X12. The requests of [upload] come in the order of the multipart
    protocol: the existence probe first and once; then at most one listing
    of the uploads, the pages of the part listing, at most one creation,
    the parts, and at most one completion.  So nothing is sent after a
    completion request, every part is sent after the creation and after
    every listing, and no part is sent between two listings. *)
Theorem upload_requests_follow_the_protocol (fuel : nat) (self : Uploader)
    (w : World E) :
  exists evs,
    w_trace (snd (upload fuel self w)) = w_trace w ++ evs
    /\ in_protocol_order evs
    /\ (exists err rest,
          evs = probing self err :: rest /\ Forall (fun ev => 1 <= phase ev <= 5) rest)
    /\ forall pre ev post,
         evs = pre ++ ev :: post ->
         (phase ev = 5 -> post = [])
         /\ (phase ev = 3 ->
             Forall (fun e => phase e < 3) pre /\ Forall (fun e => 3 < phase e) post)
         /\ (phase ev = 4 ->
             Forall (fun e => phase e <= 4) pre /\ Forall (fun e => 4 <= phase e) post).
Proof.
  destruct (upload_emits E self fuel w) as [evs [Ht [err [rest [-> Hrest]]]]].
  exists (probing self err :: rest). split; [exact Ht|].
  assert (Hall : in_protocol self 0 5 (probing self err :: rest)).
  { apply (in_protocol_app self 0 0 1 5 0 5 [probing self err] rest);
      try lia; [|exact Hrest].
    apply in_protocol_one; [split; reflexivity|cbn; lia]. }
  destruct Hall as [Hsorted [Hphase _]].
  split; [exact Hsorted|].
  split; [exists err, rest; split; [reflexivity|apply Hrest]|].
  intros pre ev post Heq. rewrite Heq in Hsorted, Hphase.
  destruct (StronglySorted_middle follows pre post ev Hsorted) as [Hpre Hpost].
  apply Forall_app in Hphase. destruct Hphase as [Hp1 Hp2].
  inversion Hp2 as [|x l Hev Hp3]; subst x l.
  unfold follows in *.
  split; [|split].
  - intros H5. destruct post as [|e post]; [reflexivity|].
    inversion Hpost as [|x l Hf _]; subst.
    inversion Hp3 as [|x l He _]; subst. lia.
  - intros H3. split.
    + eapply Forall_impl; [|exact Hpre]. cbv beta. intros e He. lia.
    + eapply Forall_impl; [|exact Hpost]. cbv beta. intros e He. lia.
  - intros H4. split.
    + eapply Forall_impl; [|exact Hpre]. cbv beta. intros e He. lia.
    + eapply Forall_impl; [|exact Hpost]. cbv beta. intros e He. lia.
Qed.

End ProtocolTheorems.

(** ** The session that the discovery returns, and a listing without end *)

Section Discovery.

Variable E : Environment.
Variable self : Uploader.

Lemma load_remaining_parts_pages (id : string) :
  forall (fuel : nat) (marker : option Z) (e : env_state E)
         (pages : list (list UploadedPart)) (e' : env_state E),
    serves_pages E self id marker e pages e' ->
    forall (acc : list UploadedPart) (w : World E),
      w_env w = e ->
      (List.length pages <= fuel)%nat ->
      exists evs,
        load_remaining_parts fuel self id true marker acc w
          = (Ok (acc ++ List.concat pages),
             {| w_env := e'; w_trace := w_trace w ++ evs; w_log := w_log w;
                w_meter := w_meter w |})
        /\ List.length evs = List.length pages
        /\ Forall (fun ev => exists m, ev = listing_parts self id m None) evs.
Proof.
  intros fuel marker e pages e' Hs. revert fuel.
  induction Hs as [marker e response e' Hr Ht
                  |marker e response e1 pages e' Hr Ht Hs IH];
    intros fuel acc w He Hf; subst e.
  - destruct fuel as [|fuel]; [simpl in Hf; lia|]. cbn [load_remaining_parts].
    rewrite (bind_Ok _ _ _ _ _ _ (load_parts_Returned E _ _ _ _ _ _ Hr)).
    destruct (page_of response) as [[new_parts trunc] next] eqn:Hp.
    simpl in Ht. subst trunc.
    exists [listing_parts self id marker None].
    split; [|split; [reflexivity|repeat constructor; eexists; reflexivity]].
    destruct fuel; simpl; rewrite app_nil_r; reflexivity.
  - destruct fuel as [|fuel]; [simpl in Hf; lia|]. cbn [load_remaining_parts].
    rewrite (bind_Ok _ _ _ _ _ _ (load_parts_Returned E _ _ _ _ _ _ Hr)).
    destruct (page_of response) as [[new_parts trunc] next] eqn:Hp.
    simpl in Ht, Hs, IH |- *. subst trunc.
    destruct (IH fuel (acc ++ new_parts)
                (record (listing_parts self id marker None) (set_env e1 w)))
      as [evs [Hrun [Hlen Hall]]]; [reflexivity|simpl in Hf; lia|].
    exists (listing_parts self id marker None :: evs).
    split; [|split; [simpl; rewrite Hlen; reflexivity
                    |constructor; [eexists; reflexivity|exact Hall]]].
    unfold listing_parts in Hrun |- *. rewrite Hrun.
    cbn [w_trace record set_env w_log w_meter List.concat].
    rewrite <- !app_assoc. reflexivity.
Qed.

Lemma load_all_parts_pages (id : string) (fuel : nat) (w : World E)
    (pages : list (list UploadedPart)) (e' : env_state E) :
  serves_pages E self id None (w_env w) pages e' ->
  (List.length pages <= S fuel)%nat ->
  exists evs,
    load_all_parts fuel self id w
      = (Ok (List.concat pages),
         {| w_env := e'; w_trace := w_trace w ++ evs; w_log := w_log w;
            w_meter := w_meter w |})
    /\ List.length evs = List.length pages
    /\ Forall (fun ev => exists m, ev = listing_parts self id m None) evs.
Proof.
  intros Hs Hf. unfold load_all_parts.
  inversion Hs as [marker e response e2 Hr Ht|marker e response e1 rest e2 Hr Ht Hs'];
    subst; rewrite (bind_Ok _ _ _ _ _ _ (load_parts_Returned E _ _ _ _ _ _ Hr));
    destruct (page_of response) as [[new_parts trunc] next] eqn:Hp;
    simpl in Ht; subst trunc; simpl.
  - exists [listing_parts self id None None].
    split; [|split; [reflexivity|repeat constructor; eexists; reflexivity]].
    destruct fuel; simpl; rewrite app_nil_r; reflexivity.
  - simpl in Hs'.
    destruct (load_remaining_parts_pages id fuel next e1 rest e' Hs' new_parts
                (record (listing_parts self id None None) (set_env e1 w)))
      as [evs [Hrun [Hlen Hall]]]; [reflexivity|simpl in Hf; lia|].
    exists (listing_parts self id None None :: evs).
    split; [|split; [simpl; rewrite Hlen; reflexivity
                    |constructor; [eexists; reflexivity|exact Hall]]].
    unfold listing_parts in Hrun |- *. rewrite Hrun.
    cbn [w_trace record set_env w_log w_meter List.concat].
    rewrite <- !app_assoc. reflexivity.
Qed.

Lemma check_existing_uploads_one_match (fuel : nat) (w : World E)
    (response : ListUploadsResponse) (e1 : env_state E) (s : UploadEntry) :
  env_list_multipart_uploads E (bucket self) (w_env w) = (Returned response, e1) ->
  matching_sessions (dest_key self) (args_upload_id self) (listed_sessions response)
    = [s] ->
  check_existing_uploads fuel self w =
    bind (load_all_parts fuel self (u_UploadId s))
      (fun parts_ =>
         ret (Some {| started_at := u_Initiated s; upload_id := u_UploadId s;
                      initiator := u_InitiatorID s; parts := Some parts_ |}))
      (record (listing_uploads self None) (set_env e1 w)).
Proof.
  intros Hlist Hone. unfold check_existing_uploads.
  rewrite (bind_Ok E _ _ _ _ _ (s3_call_Returned E _ _ _ _ _ Hlist)).
  cbv zeta. rewrite (matching_refines self response), Hone. reflexivity.
Qed.

(** X13. When exactly one listed upload matches the key (and the
    [--upload_id], if one was given) and the service serves the listing of
    its parts in pages, [check_existing_uploads] returns that upload, with
    its id, start date and initiator and with the concatenation of the
    pages as its parts, after the listing of the uploads and one
    [ListParts] request per page for that upload id, none of them failed,
    and without logging an error. *)
Theorem check_existing_uploads_returns_the_session (fuel : nat) (w : World E)
    (response : ListUploadsResponse) (e1 e' : env_state E) (s : UploadEntry)
    (pages : list (list UploadedPart)) :
  env_list_multipart_uploads E (bucket self) (w_env w) = (Returned response, e1) ->
  matching_sessions (dest_key self) (args_upload_id self) (listed_sessions response)
    = [s] ->
  serves_pages E self (u_UploadId s) None e1 pages e' ->
  (List.length pages <= S fuel)%nat ->
  exists evs,
    check_existing_uploads fuel self w =
      (Ok (Some {| started_at := u_Initiated s; upload_id := u_UploadId s;
                   initiator := u_InitiatorID s;
                   parts := Some (List.concat pages) |}),
       {| w_env := e';
          w_trace := w_trace w ++ listing_uploads self None :: evs;
          w_log := w_log w; w_meter := w_meter w |})
    /\ List.length evs = List.length pages
    /\ Forall (fun ev => exists m, ev = listing_parts self (u_UploadId s) m None) evs.
Proof.
  intros Hlist Hone Hs Hf.
  rewrite (check_existing_uploads_one_match fuel w response e1 s Hlist Hone).
  destruct (load_all_parts_pages (u_UploadId s) fuel
              (record (listing_uploads self None) (set_env e1 w)) pages e' Hs Hf)
    as [evs [Hrun [Hlen Hall]]].
  exists evs. rewrite (bind_Ok E _ _ _ _ _ Hrun).
  split; [|auto]. unfold ret. cbn [w_trace record set_env w_log w_meter].
  rewrite <- app_assoc. reflexivity.
Qed.

Lemma bind_OutOfFuel {A B} (m : M E A) (k : A -> M E B) (w w' : World E) :
  m w = (OutOfFuel, w') -> bind m k w = (OutOfFuel, w').
Proof. intros H. unfold bind. rewrite H. reflexivity. Qed.

Lemma endless_pages (id : string) (Hno_end : always_truncated E self id) :
  forall (fuel : nat) (marker : option Z) (acc : list UploadedPart) (w : World E),
    exists w',
      load_remaining_parts fuel self id true marker acc w = (OutOfFuel, w')
      /\ List.length (w_trace w') = (List.length (w_trace w) + fuel)%nat
      /\ w_log w' = w_log w.
Proof.
  induction fuel as [|fuel IH]; intros marker acc w.
  - exists w. cbn [load_remaining_parts]. unfold out_of_fuel.
    rewrite Nat.add_0_r. auto.
  - cbn [load_remaining_parts].
    destruct (Hno_end marker (w_env w)) as [response [e1 [Hr Ht]]].
    rewrite (bind_Ok _ _ _ _ _ _ (load_parts_Returned E _ _ _ _ _ _ Hr)).
    unfold page_of. rewrite Ht.
    match goal with
    | |- context [load_remaining_parts fuel self id true ?m ?a ?w1] =>
        destruct (IH m a w1) as [w' [Hrun [Hlen Hlog]]]
    end.
    exists w'. split; [exact Hrun|]. rewrite Hlen, Hlog.
    cbn [w_trace record set_env w_log]. rewrite length_app. simpl. split; [lia|auto].
Qed.

(** X14. The loop over the pages of the part listing has no bound of its
    own: when exactly one upload matches and the service flags every page
    of its part listing as truncated, [check_existing_uploads] never
    returns.  Whatever the fuel, the run is out of fuel after the listing
    of the uploads and [fuel + 1] part listings, having logged nothing. *)
Theorem truncated_listing_never_ends (w : World E)
    (response : ListUploadsResponse) (e1 : env_state E) (s : UploadEntry) :
  env_list_multipart_uploads E (bucket self) (w_env w) = (Returned response, e1) ->
  matching_sessions (dest_key self) (args_upload_id self) (listed_sessions response)
    = [s] ->
  always_truncated E self (u_UploadId s) ->
  forall fuel,
    fst (check_existing_uploads fuel self w) = OutOfFuel
    /\ List.length (w_trace (snd (check_existing_uploads fuel self w)))
       = (List.length (w_trace w) + 1 + S fuel)%nat
    /\ w_log (snd (check_existing_uploads fuel self w)) = w_log w.
Proof.
  intros Hlist Hone Hno_end fuel.
  rewrite (check_existing_uploads_one_match fuel w response e1 s Hlist Hone).
  set (w1 := record (listing_uploads self None) (set_env e1 w)).
  assert (Hall : exists w',
             load_all_parts fuel self (u_UploadId s) w1 = (OutOfFuel, w')
             /\ List.length (w_trace w') = (List.length (w_trace w1) + S fuel)%nat
             /\ w_log w' = w_log w1).
  { unfold load_all_parts.
    destruct (Hno_end None (w_env w1)) as [r0 [e2 [Hr Ht]]].
    rewrite (bind_Ok _ _ _ _ _ _ (load_parts_Returned E _ _ _ _ _ _ Hr)).
    unfold page_of. rewrite Ht.
    match goal with
    | |- context [load_remaining_parts fuel self ?id true ?m ?a ?w2] =>
        destruct (endless_pages id Hno_end fuel m a w2) as [w' [Hrun [Hlen Hlog]]]
    end.
    exists w'. split; [exact Hrun|]. rewrite Hlen, Hlog.
    cbn [w_trace record set_env w_log]. rewrite length_app. simpl.
    split; [lia|reflexivity]. }
  destruct Hall as [w' [Hrun [Hlen Hlog]]].
  rewrite (bind_OutOfFuel _ _ _ _ Hrun). cbn [fst snd].
  split; [reflexivity|]. rewrite Hlen, Hlog. subst w1.
  cbn [w_trace record set_env w_log]. rewrite length_app. simpl.
  split; [lia|reflexivity].
Qed.

End Discovery.

(** ** The command line *)

Section CommandLineRuns.

Variable E : Environment.

Lemma insert_by_name_perm (p : DirEntry) (l : list DirEntry) :
  Permutation (insert_by_name p l) (p :: l).
Proof.
  induction l as [|q l IH]; simpl; [reflexivity|].
  destruct (String.ltb (de_name p) (de_name q)); [reflexivity|].
  rewrite IH. apply perm_swap.
Qed.

Lemma ltb_false_leb (s1 s2 : string) :
  String.ltb s1 s2 = false -> String.leb s2 s1 = true.
Proof.
  unfold String.ltb, String.leb. rewrite (String.compare_antisym s2 s1).
  destruct (String.compare s1 s2); simpl; congruence.
Qed.

Lemma ltb_true_leb (s1 s2 : string) :
  String.ltb s1 s2 = true -> String.leb s1 s2 = true.
Proof.
  unfold String.ltb, String.leb. destruct (String.compare s1 s2); congruence.
Qed.

Lemma insert_by_name_sorted (p : DirEntry) (l : list DirEntry) :
  Sorted name_le l -> Sorted name_le (insert_by_name p l).
Proof.
  induction 1 as [|q l Hs IH Hq]; simpl; [repeat constructor|].
  destruct (String.ltb (de_name p) (de_name q)) eqn:Hlt.
  - constructor; [constructor; assumption|].
    constructor. apply ltb_true_leb. exact Hlt.
  - constructor; [exact IH|].
    destruct l as [|r l]; simpl.
    + constructor. apply ltb_false_leb. exact Hlt.
    + destruct (String.ltb (de_name p) (de_name r)).
      * constructor. apply ltb_false_leb. exact Hlt.
      * inversion Hq; subst. constructor. assumption.
Qed.

Lemma sorted_by_name_spec (l : list DirEntry) :
  Permutation (sorted_by_name l) l /\ Sorted name_le (sorted_by_name l).
Proof.
  unfold sorted_by_name.
  assert (H : forall acc, Sorted name_le acc ->
            Permutation (fold_left (fun acc p => insert_by_name p acc) l acc)
              (acc ++ l)
            /\ Sorted name_le (fold_left (fun acc p => insert_by_name p acc) l acc)).
  { induction l as [|p l IH]; intros acc Hacc; simpl.
    - rewrite app_nil_r. split; [reflexivity|exact Hacc].
    - destruct (IH (insert_by_name p acc) (insert_by_name_sorted p acc Hacc))
        as [Hp Hs].
      split; [|exact Hs]. rewrite Hp, insert_by_name_perm.
      apply Permutation_middle. }
  destruct (H [] (Sorted_nil _)) as [Hp Hs]. auto.
Qed.

Lemma existsb_perm {A} (f : A -> bool) (l1 l2 : list A) :
  Permutation l1 l2 -> existsb f l1 = existsb f l2.
Proof.
  induction 1 as [|x l1 l2 _ IH|x y l|l1 l2 l3 _ IH1 _ IH2]; simpl.
  - reflexivity.
  - rewrite IH. reflexivity.
  - destruct (f x), (f y); reflexivity.
  - congruence.
Qed.

Lemma abort_args_loop (fuel : nat) (all_ list_ : bool)
    (file bucket_ key upload_id_ prefix : string) (l : list DirEntry) (w : World E) :
  for_each l
    (fun filepath (_ : unit) =>
       if negb (de_is_file filepath) then ret tt
       else _upload_file fuel (de_st_size filepath)
              (prefix ++ "/" ++ de_name filepath)%string
              (AbortArgs all_ list_ file bucket_ key upload_id_)) tt w
  = (if existsb de_is_file l then Raise AttributeError else Ok tt, w).
Proof.
  induction l as [|x l IH]; cbn [for_each existsb]; [reflexivity|].
  destruct (de_is_file x); cbn [negb orb].
  - reflexivity.
  - rewrite bind_ret. exact IH.
Qed.

(** X15. Called from the command line, the [abort] sub-command never
    reaches the service.  Its namespace has no [part_size] (that option
    belongs to [upload]), and [_upload_file] reads [args.part_size] before
    it builds the uploader: so [run] ends with [AttributeError] as soon as
    it has a file to work on, without any request, log line or change of
    the environment.  The only other ends are [exit(2)] (no key, or a
    path that is neither a file nor a directory) and, for a directory
    without regular files, a normal end after doing nothing.  Without a
    sub-command [run] fails at once on [args.file]. *)
Theorem abort_from_the_command_line_never_reaches_the_service
    (fuel : nat) (all_ list_ : bool) (file bucket_ key upload_id_ : string)
    (path : PathKind) (w : World E) :
  run fuel (AbortArgs all_ list_ file bucket_ key upload_id_) path w =
    (match path with
     | Directory entries =>
         if negb (truthy key) then Exit 2
         else if existsb de_is_file entries then Raise AttributeError
              else Ok tt
     | RegularFile name _ =>
         if negb (truthy (if truthy key then key else name)) then Exit 2
         else Raise AttributeError
     | Neither => Exit 2
     end, w)
  /\ run fuel NoCommand path w = (Raise AttributeError, w).
Proof.
  split; [|reflexivity].
  unfold run. cbn [get_file get_key]. rewrite !bind_ret.
  destruct path as [entries|name st_size|].
  - rewrite bind_ret. cbn [key_given].
    destruct (truthy key); cbn [negb]; [|reflexivity].
    rewrite abort_args_loop.
    rewrite (existsb_perm de_is_file _ _ (proj1 (sorted_by_name_spec entries))).
    reflexivity.
  - rewrite bind_ret.
    destruct (negb (truthy (if truthy key then key else name))); reflexivity.
  - reflexivity.
Qed.

Lemma determine_part_count_emits (part_size : option Z) (F : Z) :
  emits (E := E) (_determine_part_count part_size F) (fun _ evs => evs = []).
Proof.
  unfold _determine_part_count.
  assert (Hlift : forall a b, emits (E := E) (lift (PyNum.ceil_div a b))
                                (fun _ evs => evs = [])).
  { intros a b. apply emits_lift. reflexivity. }
  assert (Hauto : emits (E := E)
            (bind (lift (PyNum.ceil_div F MAX_ALLOWED_PART_COUNT_S3))
               (fun c => ret (Z.max c MIN_REQUIRED_PART_SIZE_S3)))
            (fun _ evs => evs = [])).
  { apply emits_silent_then; [apply Hlift| |reflexivity].
    intros c. apply emits_ret. reflexivity. }
  apply emits_silent_then; [| |reflexivity].
  - destruct part_size as [ps|]; [|exact Hauto].
    destruct (ps =? 0); [exact Hauto|apply emits_ret; reflexivity].
  - intros ps. apply emits_silent_then; [apply Hlift| |reflexivity].
    intros c. destruct (ps <? _).
    + apply emits_silent_then; [apply emits_LOG; reflexivity| |reflexivity].
      intros _. apply emits_exit. reflexivity.
    + destruct (_ <? c).
      * apply emits_silent_then; [apply emits_LOG; reflexivity| |reflexivity].
        intros _. apply emits_exit. reflexivity.
      * apply emits_ret. reflexivity.
Qed.

Lemma init_emits (bucket_ dest_key_ upload_id_ : string) (all_ list_ : bool)
    (part_size : option Z) (F : Z) :
  emits (E := E) (__init__ bucket_ dest_key_ part_size upload_id_ all_ list_ F)
    (fun out evs =>
       evs = []
       /\ forall self, out = Ok self ->
            bucket self = bucket_ /\ dest_key self = dest_key_).
Proof.
  unfold __init__.
  apply emits_bind with (P1 := fun _ evs => evs = []).
  - apply determine_part_count_emits.
  - intros plan evs1 ->. apply emits_ret. split; [reflexivity|].
    intros self Hself. inversion Hself; subst. split; reflexivity.
  - intros out evs1 Hn ->. split; [reflexivity|].
    intros self Hself. destruct out; discriminate.
Qed.

Lemma emits_ret_bind {A B} (a : A) (k : A -> M E B)
    (P : Outcome B -> list Event -> Prop) :
  emits (k a) P -> emits (bind (ret a) k) P.
Proof. intros H w. exact (H w). Qed.

Lemma keys_probed_app (evs1 evs2 : list Event) :
  keys_probed (evs1 ++ evs2) = keys_probed evs1 ++ keys_probed evs2.
Proof. apply flat_map_app. Qed.

Lemma later_phases_probe_nothing (evs : list Event) :
  Forall (fun ev => 1 <= phase ev <= 5) evs -> keys_probed evs = [].
Proof.
  induction 1 as [|ev evs Hev _ IH]; [reflexivity|].
  unfold keys_probed in *. cbn [flat_map]. rewrite IH.
  unfold phase in Hev. destruct (ev_request ev); try reflexivity. lia.
Qed.

Lemma own_request_bucket (self : Uploader) (ev : Event) :
  own_request self ev -> bucket_of ev = bucket self.
Proof.
  unfold own_request, bucket_of. destruct (ev_request ev); tauto.
Qed.

(** One file of an [upload] run: either the constructor of the uploader
    ends the run before any request, or the requests start with the probe
    of the destination key and name the bucket of the arguments. *)
Lemma upload_file_emits (fuel : nat) (st_size : Z) (dest_key_ : string)
    (operation : UploadAlias) (upload_id_ file bucket_ : string)
    (key : option string) (part_size : option Z) :
  emits (E := E)
    (_upload_file fuel st_size dest_key_
       (UploadArgs operation upload_id_ file bucket_ key part_size))
    (fun out evs =>
       (evs = [] /\ is_Ok out = false)
       \/ (keys_probed evs = [dest_key_]
           /\ Forall (fun ev => bucket_of ev = bucket_) evs)).
Proof.
  unfold _upload_file. cbn [get_part_size get_bucket get_operation].
  apply emits_ret_bind. apply emits_ret_bind.
  apply emits_bind
    with (P1 := fun out evs =>
                  evs = []
                  /\ forall self, out = Ok self ->
                       bucket self = bucket_ /\ dest_key self = dest_key_).
  - apply init_emits.
  - intros self evs1 [-> Hself]. destruct (Hself self eq_refl) as [Hb Hk].
    assert (Hup : emits (E := E) (upload fuel self)
              (fun out evs =>
                 (evs = [] /\ is_Ok out = false)
                 \/ (keys_probed evs = [dest_key_]
                     /\ Forall (fun ev => bucket_of ev = bucket_) evs))).
    { eapply emits_conseq; [apply upload_emits|].
      intros out evs [err [rest [-> [_ [Hphase Hown]]]]]. right. split.
      - unfold keys_probed. cbn [flat_map probing ev_request].
        fold (keys_probed rest).
        rewrite (later_phases_probe_nothing rest Hphase), Hk. reflexivity.
      - constructor; [simpl; exact Hb|].
        eapply Forall_impl; [|exact Hown]. cbv beta. intros ev Hev.
        rewrite (own_request_bucket self ev Hev). exact Hb. }
    destruct operation; exact Hup.
  - intros out evs1 Hn [-> _]. left. split; [reflexivity|].
    destruct out; reflexivity.
Qed.

Lemma directory_loop (fuel : nat) (operation : UploadAlias)
    (upload_id_ file bucket_ : string) (key : option string)
    (part_size : option Z) (prefix : string) (l : list DirEntry) :
  forall acc : unit,
    emits (E := E)
      (for_each l
         (fun filepath (_ : unit) =>
            if negb (de_is_file filepath) then ret tt
            else _upload_file fuel (de_st_size filepath)
                   (prefix ++ "/" ++ de_name filepath)%string
                   (UploadArgs operation upload_id_ file bucket_ key part_size))
         acc)
      (fun out evs =>
         exists done rest,
           filter de_is_file l = done ++ rest
           /\ keys_probed evs
              = map (fun f => (prefix ++ "/" ++ de_name f)%string) done
           /\ (out = Ok tt -> rest = [])
           /\ Forall (fun ev => bucket_of ev = bucket_) evs).
Proof.
  induction l as [|x l IH]; intros acc; cbn [for_each filter].
  - apply emits_ret. exists [], []. repeat split; constructor.
  - destruct (de_is_file x) eqn:Hfile; cbn [negb].
    + apply emits_bind
        with (P1 := fun out evs =>
                      (evs = [] /\ is_Ok out = false)
                      \/ (keys_probed evs = [(prefix ++ "/" ++ de_name x)%string]
                          /\ Forall (fun ev => bucket_of ev = bucket_) evs)).
      * apply upload_file_emits.
      * intros acc' evs1 [[_ Hn]|[Hkeys Hb]]; [discriminate|].
        eapply emits_conseq; [apply IH|].
        intros out evs2 [done [rest [Hsplit [Hk [Hok Hb2]]]]].
        exists (x :: done), rest. split; [rewrite Hsplit; reflexivity|].
        split; [rewrite keys_probed_app, Hkeys, Hk; reflexivity|].
        split; [exact Hok|]. apply Forall_app. auto.
      * intros out evs1 Hn [[-> _]|[Hkeys Hb]].
        -- exists [], (x :: filter de_is_file l).
           split; [reflexivity|]. split; [reflexivity|].
           split; [destruct out; discriminate|constructor].
        -- exists [x], (filter de_is_file l).
           split; [reflexivity|]. split; [exact Hkeys|].
           split; [destruct out; discriminate|exact Hb].
    + apply emits_silent_then; [apply emits_ret; reflexivity| |].
      * intros acc'. apply IH.
      * intros out Hn. exists [], (filter de_is_file l).
        split; [reflexivity|]. split; [reflexivity|].
        split; [destruct out; discriminate|constructor].
Qed.



End CommandLineRuns.

(** ** The dialogue of [upload] and the resume of an upload *)

Section Dialogue.

Variable E : Environment.
Variable self : Uploader.

Lemma input_Returned (prompt answer : string) (w : World E) (e' : env_state E) :
  env_input E prompt (w_env w) = (Returned answer, e') ->
  input prompt w = (Ok answer, set_env e' w).
Proof. intros H. unfold input, local_call. rewrite H. reflexivity. Qed.

Lemma eqb_y_false (answer : string) :
  answer <> "y"%string -> String.eqb answer "y" = false.
Proof. intros H. apply String.eqb_neq. exact H. Qed.

(** X17. The dialogue of [upload] when an upload is in progress and the
    user does not answer "y" to "Continue existing upload": answering "y"
    to "Delete existing multi-part upload" deletes nothing, it raises
    "Not yet implemented"; answering anything else and then not "y" to
    "Re-start multi-part upload from scratch" returns normally.  In both
    cases no request is made after the discovery and nothing is logged:
    the upload in progress stays as it was.  Answering "y" to the
    re-start goes on exactly like a fresh upload (creation, parts,
    completion), without aborting or reusing the upload in progress. *)
Theorem declining_to_continue_leaves_the_upload_alone (fuel : nat)
    (w w1 w2 : World E) (upload_ : MultipartUploadInProgress)
    (answer answer2 : string) (e3 e4 : env_state E) :
  _is_existing_in_s3 self w = (Ok false, w1) ->
  check_existing_uploads fuel self w1 = (Ok (Some upload_), w2) ->
  env_input E "Continue existing upload [yN]? " (w_env w2) = (Returned answer, e3) ->
  answer <> "y"%string ->
  env_input E "Delete existing multi-part upload [yN]? " e3
    = (Returned answer2, e4) ->
  (answer2 = "y"%string ->
     upload fuel self w = (Raise NotYetImplemented, set_env e4 w2))
  /\ (answer2 <> "y"%string ->
      forall answer3 e5,
        env_input E "Re-start multi-part upload from scratch [yN]? " e4
          = (Returned answer3, e5) ->
        (answer3 <> "y"%string -> upload fuel self w = (Ok tt, set_env e5 w2))
        /\ (answer3 = "y"%string ->
            upload fuel self w =
              bind (_create_multipart_upload self)
                (fun upload_id_ =>
                   bind (_upload_parts self 0 upload_id_)
                     (fun uploaded_parts =>
                        _finalize_upload self uploaded_parts upload_id_))
                (set_env e5 w2))).
Proof.
  intros Hprobe Hfound Hin1 Hno Hin2.
  assert (Hstart : forall K : bool -> M E unit,
            upload fuel self w =
              bind (bind (input "Delete existing multi-part upload [yN]? ")
                      (fun answer2 =>
                         if String.eqb answer2 "y" then raise NotYetImplemented
                         else
                           bind (input "Re-start multi-part upload from scratch [yN]? ")
                             (fun answer3 =>
                                if negb (String.eqb answer3 "y") then ret false
                                else ret true)))
                (fun start_new : bool =>
                   if start_new
                   then bind (_create_multipart_upload self)
                          (fun upload_id_ =>
                             bind (_upload_parts self 0 upload_id_)
                               (fun uploaded_parts =>
                                  _finalize_upload self uploaded_parts upload_id_))
                   else ret tt) (set_env e3 w2)).
  { intros _. unfold upload.
    rewrite (bind_Ok E _ _ _ _ _ Hprobe). cbv iota.
    rewrite (bind_Ok E _ _ _ _ _ Hfound). cbv iota.
    unfold bind at 1 2. rewrite (input_Returned _ _ _ _ Hin1).
    rewrite (eqb_y_false answer Hno). reflexivity. }
  rewrite (Hstart (fun _ => ret tt)).
  pose proof (input_Returned "Delete existing multi-part upload [yN]? " answer2
                (set_env e3 w2) e4 Hin2) as Hrun2.
  split.
  - intros ->. unfold bind at 1 2. rewrite Hrun2. reflexivity.
  - intros Hno2 answer3 e5 Hin3.
    pose proof (input_Returned "Re-start multi-part upload from scratch [yN]? "
                  answer3 (set_env e4 (set_env e3 w2)) e5 Hin3) as Hrun3.
    split.
    + intros Hno3. unfold bind at 1 2. rewrite Hrun2.
      rewrite (eqb_y_false answer2 Hno2).
      unfold bind at 1. rewrite Hrun3. rewrite (eqb_y_false answer3 Hno3).
      reflexivity.
    + intros ->. unfold bind at 1 2. rewrite Hrun2.
      rewrite (eqb_y_false answer2 Hno2).
      unfold bind at 1. rewrite Hrun3. reflexivity.
Qed.



End Dialogue.

(** ** Concrete runs *)

Lemma init_without_part_size_plans_whole_file_witness :
  exists self,
    __init__ "b" "k" None "" false false 12000000
      (Scripted.world existing_object_script)
    = (Ok self, Scripted.world existing_object_script)
    /\ part_size_in_bytes self = 5242880 /\ part_count self = 3.
Proof.
  destruct (init_without_part_size_plans_whole_file Scripted.env "b" "k" ""
              false false None 12000000 (Scripted.world existing_object_script))
    as [self [Hrun [_ [_ [_ [Hps [Hcount _]]]]]]].
  - split; [lia|reflexivity].
  - left. reflexivity.
  - exists self. split; [exact Hrun|].
    split; [rewrite Hps|rewrite Hcount, Hps]; vm_compute; reflexivity.
Defined.


Lemma small_part_size_is_refused_witness :
  _determine_part_count (Some (-5)) 100 (Scripted.world existing_object_script)
  = (Exit 1, log_line (FatalPartSizeTooSmall (-5))
               (Scripted.world existing_object_script)).
Proof.
  apply (small_part_size_is_refused Scripted.env (-5) 100
           (Scripted.world existing_object_script)).
  - discriminate.
  - reflexivity.
  - split; vm_compute; discriminate.
Defined.

Lemma planner_enforces_limits_witness :
  _determine_part_count (Some 5242880) 12000000
    (Scripted.world existing_object_script)
  = (Ok (5242880, 3), Scripted.world existing_object_script)
  /\ MIN_REQUIRED_PART_SIZE_S3 <= 5242880 /\ 3 <= MAX_ALLOWED_PART_COUNT_S3.
Proof.
  assert (Hrun : _determine_part_count (Some 5242880) 12000000
                   (Scripted.world existing_object_script)
                 = (Ok (5242880, 3), Scripted.world existing_object_script))
    by (vm_compute; reflexivity).
  destruct (planner_enforces_limits Scripted.env (Some 5242880) 12000000 _ _ _ Hrun)
    as [_ [_ [_ [H1 [H2 _]]]]].
  split; [exact Hrun|]. split; assumption.
Defined.

Lemma keeping_hasher_streaming : streaming keeping_hasher.
Proof. intros s a b. symmetry. apply app_assoc. Defined.

Lemma compute_md5_hashes_whole_file_witness :
  exists w',
    compute_md5 3 keeping_hasher 3 (Scripted.world (hashing_script three_bytes))
    = (Ok "abc"%string, w')
    /\ w_trace w' = [] /\ w_log w' = [].
Proof.
  apply (compute_md5_hashes_whole_file Scripted.env keeping_hasher 3 3 three_bytes
           (Scripted.world (hashing_script three_bytes))
           (hashing_script three_bytes)).
  - exact keeping_hasher_streaming.
  - lia.
  - reflexivity.
  - simpl. lia.
Defined.

Lemma compute_md5_of_empty_file_raises_witness :
  exists w',
    compute_md5 0 keeping_hasher 0 (Scripted.world (hashing_script []))
    = (Raise ZeroDivisionError, w')
    /\ w_trace w' = [] /\ w_log w' = [].
Proof.
  apply (compute_md5_of_empty_file_raises Scripted.env keeping_hasher 0 []
           (Scripted.world (hashing_script [])) (hashing_script [])).
  - reflexivity.
  - simpl. lia.
Defined.

(** With [--all], the two uploads of the key are aborted in the order of
    the listing, the upload of the other key is left alone, and the
    refusal of the second abort ends the run; [--upload_id id3] plays no
    part. *)
Example abort_all_stops_at_the_refusal :
  fst (abort abort_all_uploader (Scripted.world refusing_abort_script))
    = Raise (ClientError "AccessDenied")
  /\ map ev_request
       (w_trace (snd (abort abort_all_uploader
                        (Scripted.world refusing_abort_script))))
     = [ListMultipartUploads "b"; AbortMultipartUpload "b" "k" "id1";
        AbortMultipartUpload "b" "k" "id3"].
Proof. vm_compute. auto. Qed.

Lemma steady_cooperative :
  cooperative Scripted.env one_part_uploader ten_bytes steady.
Proof.
  constructor.
  - intros e [Ho [Hu Hc]].
    exists (Scripted.set_open_file [Returned ten_bytes] e).
    split; [|repeat split; assumption].
    cbn [env_open_file Scripted.env]. rewrite Ho. reflexivity.
  - intros id n sz body e [Ho [Hu Hc]].
    exists "e1"%string, (Scripted.set_upload_part [Returned "e1"%string] e).
    split; [|repeat split; assumption].
    cbn [env_upload_part Scripted.env]. rewrite Hu. reflexivity.
  - intros e [Ho [Hu Hc]]. cbn [env_status_due Scripted.env].
    destruct (Scripted.next false (Scripted.s_status_due e)) as [r q].
    repeat split; assumption.
Defined.

Lemma one_part_plan :
  valid_plan (filesize one_part_uploader) (part_size_in_bytes one_part_uploader)
    (part_count one_part_uploader).
Proof.
  unfold valid_plan. repeat split; vm_compute; congruence.
Defined.



(** The requests of the run above. *)
Example fresh_upload_of_ten_bytes :
  map ev_request
    (w_trace (snd (upload 0 one_part_uploader (Scripted.world steady_script))))
  = [HeadObject "b" "k"; ListMultipartUploads "b";
     CreateMultipartUpload "b" "k" [];
     UploadPart "b" "k" "id1" 1 10 ten_bytes;
     CompleteMultipartUpload "b" "k" "id1" [(1, "e1"%string)]].
Proof. vm_compute. reflexivity. Qed.

Lemma one_page_of_the_session :
  serves_pages Scripted.env small_uploader "id1" None one_session_script
    [five_parts] one_session_script.
Proof.
  apply (serves_last (E := Scripted.env) None one_session_script
           (page_response five_parts false 5)); reflexivity.
Defined.

Lemma check_existing_uploads_returns_the_session_witness :
  fst (check_existing_uploads 0 small_uploader (Scripted.world one_session_script))
  = Ok (Some {| started_at := "2024-01-01"; upload_id := "id1"; initiator := "me";
                parts := Some five_parts |}).
Proof.
  destruct (check_existing_uploads_returns_the_session Scripted.env small_uploader 0
              (Scripted.world one_session_script) one_session_response
              one_session_script one_session_script (session "k" "id1")
              [five_parts])
    as [evs [Hrun _]].
  - reflexivity.
  - reflexivity.
  - exact one_page_of_the_session.
  - simpl. lia.
  - rewrite Hrun. reflexivity.
Defined.

Lemma truncated_listing_never_ends_witness :
  fst (check_existing_uploads 7 small_uploader stubborn_world) = OutOfFuel.
Proof.
  apply (truncated_listing_never_ends stubborn_env small_uploader stubborn_world
           one_session_response tt (session "k" "id1")).
  - reflexivity.
  - reflexivity.
  - intros marker e. eexists. exists e. split; reflexivity.
Defined.

(** [abort --all] from the command line on an existing file. *)
Example abort_from_the_command_line :
  run 1 (AbortArgs true false "f.bin" "b" "k" "") (RegularFile "f.bin" 10)
    (Scripted.world refusing_abort_script)
  = (Raise (EnvError "AttributeError"), Scripted.world refusing_abort_script).
Proof. reflexivity. Qed.


(** The keys of that run: the two files in the order of their names, the
    sub-directory skipped. *)
Example directory_keys :
  keys_probed
    (w_trace (snd (run 1 (UploadArgs Alias_up "" "dir" "b" (Some "backup"%string) None)
                     (Directory some_directory)
                     (Scripted.world existing_object_script))))
  = ["backup/a.txt"; "backup/b.bin"]%string.
Proof. vm_compute. reflexivity. Qed.

Lemma declining_to_continue_leaves_the_upload_alone_witness :
  fst (upload 0 small_uploader (Scripted.world one_session_script))
    = Raise NotYetImplemented
  /\ List.length
       (w_trace (snd (upload 0 small_uploader (Scripted.world one_session_script))))
     = 3%nat.
Proof.
  pose (w := Scripted.world one_session_script).
  pose (w1 := snd (_is_existing_in_s3 small_uploader w)).
  pose (w2 := snd (check_existing_uploads 0 small_uploader w1)).
  pose (e3 := snd (env_input Scripted.env "Continue existing upload [yN]? "
                     (w_env w2))).
  pose (e4 := snd (env_input Scripted.env "Delete existing multi-part upload [yN]? "
                     e3)).
  destruct (declining_to_continue_leaves_the_upload_alone Scripted.env
              small_uploader 0 w w1 w2
              {| started_at := "2024-01-01"; upload_id := "id1"; initiator := "me";
                 parts := Some five_parts |}
              "n" "y" e3 e4) as [Hdelete _].
  - reflexivity.
  - reflexivity.
  - reflexivity.
  - discriminate.
  - reflexivity.
  - fold w. rewrite (Hdelete eq_refl). split; reflexivity.
Defined.



(** [u] on a file without a key: the name of the file is the key. *)
Example upload_under_the_file_name :
  map ev_request
    (w_trace (snd (run 1 (UploadArgs Alias_u "" "/data/f.bin" "b" None None)
                     (RegularFile "f.bin" 10)
                     (Scripted.world existing_object_script))))
  = [HeadObject "b" "f.bin"].
Proof. vm_compute. reflexivity. Qed.
